(** * cJSON 1.7.19: a shallow embedding of [cJSON.c] and its properties

    The development follows the C file: bytes are integers in [0, 256),
    C strings are lists of non-zero bytes, [double] is IEEE 754 binary64
    as specified by [SpecFloat], nodes linked by pointers live in a finite
    map from addresses to node records, and the parser and the printer
    thread their buffers explicitly. *)

From Stdlib Require Import ZArith List Bool Lia.
From Stdlib Require Import Floats.SpecFloat.
From stdpp Require Import base tactics option list gmap.

Open Scope Z_scope.

(* ===================================================================== *)
(** * Part I: the embedding                                               *)
(* ===================================================================== *)

(** ** Bytes and machine integers *)

(** An [unsigned char] is a [Z] in [0, 256). *)
Definition byte_ok (b : Z) : Prop := 0 <= b < 256.

(** A C string is a sequence of non-zero bytes; the terminating nul is
    implicit or written explicitly where the code relies on it. *)
Definition c_string (s : list Z) : Prop := Forall (fun b => 1 <= b < 256) s.

Definition INT_MAX : Z := 2147483647.
Definition INT_MIN : Z := -2147483648.
Definition UINT_MODULUS : Z := 2 ^ 32.

(** [unsigned int] arithmetic wraps around. *)
Definition to_uint (z : Z) : Z := z mod UINT_MODULUS.

(** Read [p[i]]; reading outside the modelled range yields the nul byte. *)
Definition byte_at (p : list Z) (i : nat) : Z := nth i p 0.

(** The C string at the start of a buffer: the bytes before the first
    nul. *)
Fixpoint text_of (buf : list Z) : list Z :=
  match buf with
  | [] => []
  | c :: r => if c =? 0 then [] else c :: text_of r
  end.

(** [strlen]. *)
Definition strlen (p : list Z) : nat := length (text_of p).

(** ** [parse_hex4] *)

Module Hex.

(** One iteration of the [for (i = 0; i < 4; i++)] loop of [parse_hex4]:
    [None] is the early [return 0] of the invalid branch. *)
Definition hex4_step (input : list Z) (i : nat) (h : Z) : option Z :=
  let c := byte_at input i in
  let shift h' := if (i <? 3)%nat then to_uint (Z.shiftl h' 4) else h' in
  if (48 <=? c) && (c <=? 57) then Some (shift (to_uint (h + (c - 48))))
  else if (65 <=? c) && (c <=? 70) then Some (shift (to_uint (h + (10 + c - 65))))
  else if (97 <=? c) && (c <=? 102) then Some (shift (to_uint (h + (10 + c - 97))))
  else None.

Fixpoint hex4_loop (n : nat) (input : list Z) (i : nat) (h : Z) : Z :=
  match n with
  | O => h
  | S n' =>
      match hex4_step input i h with
      | Some h' => hex4_loop n' input (S i) h'
      | None => 0
      end
  end.

Definition parse_hex4 (input : list Z) : Z := hex4_loop 4 input 0 0.

(** The value of one hexadecimal digit, if the byte is one. *)
Definition hex_digit (c : Z) : option Z :=
  if (48 <=? c) && (c <=? 57) then Some (c - 48)
  else if (65 <=? c) && (c <=? 70) then Some (10 + c - 65)
  else if (97 <=? c) && (c <=? 102) then Some (10 + c - 97)
  else None.

(** The reading of the helper in which a byte that is not a hex digit
    counts as a zero nibble and the other nibbles keep their values. *)
Definition nibble_or_zero (c : Z) : Z := default 0 (hex_digit c).

Definition hex4_zero_nibble (a b c d : Z) : Z :=
  4096 * nibble_or_zero a + 256 * nibble_or_zero b
  + 16 * nibble_or_zero c + nibble_or_zero d.

End Hex.

(** ** [cJSON_Minify] *)

Module Minify.

(** The minifier rewrites a nul-terminated buffer in place: [json] is the
    read cursor, [into] the write cursor, both indices into the one
    buffer [buf].  Each loop takes the buffer length as fuel, which it
    cannot exhaust because every iteration advances the read cursor. *)

(** The [for] loop of [skip_oneline_comment], after [*input += 2]. *)
Fixpoint skip_oneline_loop (fuel : nat) (buf : list Z) (json : nat) : nat :=
  match fuel with
  | O => json
  | S fuel' =>
      if byte_at buf json =? 0 then json
      else if byte_at buf json =? 10 then (json + 1)%nat
      else skip_oneline_loop fuel' buf (json + 1)%nat
  end.

Definition skip_oneline_comment (buf : list Z) (json : nat) : nat :=
  skip_oneline_loop (length buf) buf (json + 2)%nat.

(** The [for] loop of [skip_multiline_comment], after [*input += 2]. *)
Fixpoint skip_multiline_loop (fuel : nat) (buf : list Z) (json : nat) : nat :=
  match fuel with
  | O => json
  | S fuel' =>
      if byte_at buf json =? 0 then json
      else if (byte_at buf json =? 42) && (byte_at buf (json + 1) =? 47)
      then (json + 2)%nat
      else skip_multiline_loop fuel' buf (json + 1)%nat
  end.

Definition skip_multiline_comment (buf : list Z) (json : nat) : nat :=
  skip_multiline_loop (length buf) buf (json + 2)%nat.

(** The [for] loop of [minify_string]; the result is the buffer and the
    two cursors. *)
Fixpoint minify_string_loop (fuel : nat) (buf : list Z) (json into : nat)
  : list Z * nat * nat :=
  match fuel with
  | O => (buf, json, into)
  | S fuel' =>
      if byte_at buf json =? 0 then (buf, json, into)
      else
        (* output[0] = input[0] *)
        let buf1 := <[into := byte_at buf json]> buf in
        if byte_at buf1 json =? 34 then
          (<[into := 34]> buf1, (json + 1)%nat, (into + 1)%nat)
        else if (byte_at buf1 json =? 92) && (byte_at buf1 (json + 1) =? 34)
        then
          let buf2 := <[(into + 1)%nat := byte_at buf1 (json + 1)]> buf1 in
          minify_string_loop fuel' buf2 (json + 1 + 1)%nat (into + 1 + 1)%nat
        else minify_string_loop fuel' buf1 (json + 1)%nat (into + 1)%nat
  end.

Definition minify_string (buf : list Z) (json into : nat)
  : list Z * nat * nat :=
  let buf1 := <[into := byte_at buf json]> buf in
  minify_string_loop (length buf) buf1 (json + 1)%nat (into + 1)%nat.

(** The [while (json[0] != 0)] loop of [cJSON_Minify]. *)
Fixpoint minify_loop (fuel : nat) (buf : list Z) (json into : nat)
  : list Z * nat :=
  match fuel with
  | O => (buf, into)
  | S fuel' =>
      let c := byte_at buf json in
      if c =? 0 then (buf, into)
      else if (c =? 32) || (c =? 9) || (c =? 13) || (c =? 10) then
        minify_loop fuel' buf (json + 1)%nat into
      else if c =? 47 then
        if byte_at buf (json + 1) =? 47 then
          minify_loop fuel' buf (skip_oneline_comment buf json) into
        else if byte_at buf (json + 1) =? 42 then
          minify_loop fuel' buf (skip_multiline_comment buf json) into
        else minify_loop fuel' buf (json + 1)%nat into
      else if c =? 34 then
        let '(buf', json', into') := minify_string buf json into in
        minify_loop fuel' buf' json' into'
      else
        minify_loop fuel' (<[into := c]> buf) (json + 1)%nat (into + 1)%nat
  end.

(** [cJSON_Minify(json)] with [json != NULL]: the buffer after the call. *)
Definition cJSON_Minify (buf : list Z) : list Z :=
  let '(buf', into) := minify_loop (length buf) buf 0 0 in
  <[into := 0]> buf'.

(** The test of [cJSON_Minify] for the four white-space bytes it drops. *)
Definition is_blank (c : Z) : bool :=
  (c =? 32) || (c =? 9) || (c =? 13) || (c =? 10).

(** What the scanner is inside of. *)
Inductive scan_mode := Outside | InString | LineComment | BlockComment.

(** The bytes the minifier keeps of a text, as a function of the text
    alone; used to describe what the in-place loops compute. *)
Fixpoint kept (m : scan_mode) (s : list Z) : list Z :=
  match s with
  | [] => []
  | c :: r =>
      match m with
      | Outside =>
          if (c =? 32) || (c =? 9) || (c =? 13) || (c =? 10) then kept Outside r
          else if c =? 47 then
            match r with
            | c2 :: r' =>
                if c2 =? 47 then kept LineComment r'
                else if c2 =? 42 then kept BlockComment r'
                else kept Outside r
            | [] => []
            end
          else if c =? 34 then c :: kept InString r
          else c :: kept Outside r
      | InString =>
          if c =? 34 then c :: kept Outside r
          else if c =? 92 then
            match r with
            | c2 :: r' =>
                if c2 =? 34 then c :: c2 :: kept InString r'
                else c :: kept InString r
            | [] => [c]
            end
          else c :: kept InString r
      | LineComment =>
          if c =? 10 then kept Outside r else kept LineComment r
      | BlockComment =>
          if c =? 42 then
            match r with
            | c2 :: r' =>
                if c2 =? 47 then kept Outside r' else kept BlockComment r
            | [] => []
            end
          else kept BlockComment r
      end
  end.

End Minify.

(** ** Numbers: [double] and the integer mirror *)

(** A [double] is an IEEE 754 binary64 value. *)
Definition double : Type := spec_float.

Definition dbl_prec : Z := 53.
Definition dbl_emax : Z := 1024.


Definition d_sub (a b : double) : double := SFsub dbl_prec dbl_emax a b.
Definition d_mul (a b : double) : double := SFmul dbl_prec dbl_emax a b.
Definition fabs (a : double) : double := SFabs a.

(** [a == b], [a > b], [a >= b], [a <= b] on doubles: each is false as
    soon as one operand is NaN. *)
Definition d_eq (a b : double) : bool := SFeqb a b.
Definition d_gt (a b : double) : bool := SFltb b a.
Definition d_ge (a b : double) : bool := SFleb b a.
Definition d_le (a b : double) : bool := SFleb a b.

(** [(double) z] for an [int] [z]. *)
Definition double_of_int (z : Z) : double :=
  binary_normalize dbl_prec dbl_emax z 0 false.

(** [DBL_EPSILON], 2^-52. *)
Definition DBL_EPSILON : double := S754_finite false 4503599627370496 (-104).

(** [(double) NAN]. *)
Definition NAN : double := S754_nan.

Definition isnan (d : double) : bool :=
  match d with S754_nan => true | _ => false end.

Definition isinf (d : double) : bool :=
  match d with S754_infinity _ => true | _ => false end.

(** The ANSI C fall-back macros of the file, [isnan(d)] as [d != d] and
    [isinf(d)] as [isnan(d - d) && !isnan(d)]. *)
Definition isnan_ansi (d : double) : bool := negb (d_eq d d).
Definition isinf_ansi (d : double) : bool :=
  isnan_ansi (d_sub d d) && negb (isnan_ansi d).

(** The integer part of a double, rounded toward zero; NaN and the
    infinities have none. *)
Definition truncation (d : double) : option Z :=
  match d with
  | S754_zero _ => Some 0
  | S754_finite s m e =>
      let mag := if 0 <=? e then Z.pos m * 2 ^ e else Z.pos m / 2 ^ (- e) in
      Some (if s then - mag else mag)
  | S754_infinity _ | S754_nan => None
  end.

(** [(int) d]: the truncation when it fits an [int].  ISO C leaves the
    conversion undefined otherwise (NaN, out of range); the model then
    yields [INT_MIN], the value the x86 conversion instruction produces.
    No property below depends on that choice. *)
Definition double_to_int (d : double) : Z :=
  match truncation d with
  | Some z => if (INT_MIN <=? z) && (z <=? INT_MAX) then z else INT_MIN
  | None => INT_MIN
  end.

(** [compare_double]: equality up to a relative epsilon. *)
Definition compare_double (a b : double) : bool :=
  let maxVal := if d_gt (fabs a) (fabs b) then fabs a else fabs b in
  d_le (fabs (d_sub a b)) (d_mul maxVal DBL_EPSILON).

(** The saturation every writer of a number performs:
    [if (number >= INT_MAX) INT_MAX else if (number <= (double)INT_MIN)
    INT_MIN else (int)number]. *)
Definition saturate (number : double) : Z :=
  if d_ge number (double_of_int INT_MAX) then INT_MAX
  else if d_le number (double_of_int INT_MIN) then INT_MIN
  else double_to_int number.


(** ** The header [cJSON.h] and the C library *)

(** [cJSON.h] is not among the sources: its constants are parameters.
    The kinds are the labels of the [switch] statements of the file,
    hence pairwise distinct, and each survives the mask [0xFF] the file
    applies before comparing. *)
Class Header := {
  cJSON_Invalid : Z;
  cJSON_False : Z;
  cJSON_True : Z;
  cJSON_NULL : Z;
  cJSON_Number : Z;
  cJSON_String : Z;
  cJSON_Array : Z;
  cJSON_Object : Z;
  cJSON_Raw : Z;
  cJSON_IsReference : Z;
  cJSON_StringIsConst : Z;
  CJSON_NESTING_LIMIT : nat;
  kinds_distinct :
    NoDup [cJSON_False; cJSON_True; cJSON_NULL; cJSON_Number; cJSON_String;
           cJSON_Array; cJSON_Object; cJSON_Raw];
  kinds_low_byte :
    Forall (fun k => Z.land k 255 = k)
      [cJSON_False; cJSON_True; cJSON_NULL; cJSON_Number; cJSON_String;
       cJSON_Array; cJSON_Object; cJSON_Raw]
}.

(** The functions of the C library whose results the file depends on.
    [strtod s] is the value and the number of bytes converted (0 when no
    conversion is performed); [sprintf_g p d] is [sprintf] with
    [%1.<p>g]; [sprintf_d] is [sprintf] with [%d]; [sscanf_lg] is
    [sscanf] with [%lg], [None] when it does not return 1;
    [decimal_point] is the radix byte of the current locale, to which
    the three conversions adhere. *)
Class Libc := {
  decimal_point : Z;
  strtod : list Z -> double * nat;
  sprintf_g : nat -> double -> list Z;
  sprintf_d : Z -> list Z;
  sscanf_lg : list Z -> option double;
  tolower : Z -> Z
}.

(** ** A model of the C library in the C locale

    The conversions follow ISO C on an IEEE 754 platform with rounding to
    nearest, ties to even, as glibc implements them: [strtod] is correctly
    rounded and [printf] rounds the exact binary value.  [strtod] is
    restricted to decimal constants, since the texts the file hands to it
    hold only the bytes [0-9 + - . e E].  The model is used to evaluate the
    code on concrete inputs. *)

Module CLocale.

Definition is_digit (c : Z) : bool := (48 <=? c) && (c <=? 57).
Definition is_space (c : Z) : bool := (c =? 32) || ((9 <=? c) && (c <=? 13)).

Fixpoint span_digits (s : list Z) : list Z * list Z :=
  match s with
  | c :: r =>
      if is_digit c then let '(ds, r') := span_digits r in (c :: ds, r')
      else ([], s)
  | [] => ([], [])
  end.

Fixpoint span_space (s : list Z) : nat * list Z :=
  match s with
  | c :: r =>
      if is_space c then let '(n, r') := span_space r in (S n, r') else (O, s)
  | [] => (O, [])
  end.

Definition digits_value (ds : list Z) : Z :=
  fold_left (fun acc c => 10 * acc + (c - 48)) ds 0.

(** The double nearest to [(-1)^sign * M * 10^E]. *)
Definition dec_to_double (sign : bool) (M E : Z) : double :=
  if M =? 0 then S754_zero sign
  else if 0 <=? E then
    binary_normalize dbl_prec dbl_emax (cond_Zopp sign (M * 10 ^ E)) 0 false
  else
    let '(q, e', l) := SFdiv_core_binary dbl_prec dbl_emax M 0 (10 ^ (- E)) 0 in
    binary_round_aux dbl_prec dbl_emax sign q e' l.

Definition strtod_c (point : Z) (s : list Z) : double * nat :=
  let '(ws, s1) := span_space s in
  let '(sign, signlen, s2) :=
    match s1 with
    | 45 :: r => (true, 1%nat, r)
    | 43 :: r => (false, 1%nat, r)
    | _ => (false, 0%nat, s1)
    end in
  let '(ints, s3) := span_digits s2 in
  let '(fracs, pointlen, s4) :=
    match s3 with
    | c :: r =>
        if c =? point then
          let '(fs, r') := span_digits r in (fs, S (length fs), r')
        else ([], 0%nat, s3)
    | [] => ([], 0%nat, s3)
    end in
  match ints ++ fracs with
  | [] => (S754_zero false, 0%nat)
  | mant =>
      let '(expo, explen) :=
        match s4 with
        | c :: r =>
            if (c =? 101) || (c =? 69) then
              let '(esign, esignlen, r1) :=
                match r with
                | 45 :: r' => (true, 1%nat, r')
                | 43 :: r' => (false, 1%nat, r')
                | _ => (false, 0%nat, r)
                end in
              match span_digits r1 with
              | ([], _) => (0, 0%nat)
              | (eds, _) =>
                  (cond_Zopp esign (digits_value eds),
                   (1 + esignlen + length eds)%nat)
              end
            else (0, 0%nat)
        | [] => (0, 0%nat)
        end in
      (dec_to_double sign (digits_value mant) (expo - Z.of_nat (length fracs)),
       (ws + signlen + length ints + pointlen + explen)%nat)
  end.

(** Decimal digits, most significant first. *)
Fixpoint digits_rev (k : nat) (z : Z) : list Z :=
  match k with
  | O => []
  | S k' => (48 + z mod 10) :: digits_rev k' (z / 10)
  end.

(** Exactly [k] digits of [z], padded with zeros. *)
Definition digits_fixed (k : nat) (z : Z) : list Z := rev (digits_rev k z).

Fixpoint strip_zeros_front (ds : list Z) : list Z :=
  match ds with
  | c :: r => if c =? 48 then strip_zeros_front r else ds
  | [] => []
  end.

Definition strip_zeros_back (ds : list Z) : list Z :=
  rev (strip_zeros_front (rev ds)).

(** The digits of [z >= 0] without leading zeros, at least one. *)
Definition digits_nat (z : Z) : list Z :=
  match strip_zeros_front (digits_fixed (S (Z.to_nat (Z.log2 z))) z) with
  | [] => [48]
  | ds => ds
  end.

Definition sprintf_d_c (z : Z) : list Z :=
  if z <? 0 then 45 :: digits_nat (- z) else digits_nat z.

(** [le10 n den X]: [10^X <= n / den]. *)
Definition le10 (n den X : Z) : bool :=
  if 0 <=? X then den * 10 ^ X <=? n else den <=? n * 10 ^ (- X).

Fixpoint adjust_exponent (fuel : nat) (n den X : Z) : Z :=
  match fuel with
  | O => X
  | S fuel' => if le10 n den (X + 1) then adjust_exponent fuel' n den (X + 1) else X
  end.

(** The decimal exponent of [n / den]: the [X] with
    [10^X <= n / den < 10^(X+1)]. *)
Definition dec_exponent (n den : Z) : Z :=
  adjust_exponent 8 n den ((Z.log2 n - Z.log2 den - 1) * 1233 / 4096 - 2).

(** [n / den] scaled to [P] significant digits and rounded to nearest,
    ties to even, with the exponent corrected when rounding carries. *)
Definition round_digits (P : nat) (n den X : Z) : Z * Z :=
  let s := X - (Z.of_nat P - 1) in
  let num := if 0 <=? s then n else n * 10 ^ (- s) in
  let d2 := if 0 <=? s then den * 10 ^ s else den in
  let q := num / d2 in
  let r := num mod d2 in
  let q' :=
    if (d2 <? 2 * r) || ((d2 =? 2 * r) && Z.odd q) then q + 1 else q in
  if q' =? 10 ^ Z.of_nat P then (10 ^ (Z.of_nat P - 1), X + 1) else (q', X).

Definition with_fraction (point : Z) (ints fracs : list Z) : list Z :=
  match strip_zeros_back fracs with
  | [] => ints
  | fs => ints ++ point :: fs
  end.

Definition exp_style (point : Z) (P : nat) (D X : Z) : list Z :=
  let ds := digits_fixed P D in
  let a := Z.abs X in
  with_fraction point (firstn 1 ds) (skipn 1 ds)
  ++ 101 :: (if X <? 0 then 45 else 43)
  :: (if a <? 10 then [48; 48 + a] else digits_nat a).

Definition fixed_style (point : Z) (P : nat) (D X : Z) : list Z :=
  let ds := digits_fixed P D in
  if 0 <=? X then
    with_fraction point (firstn (Z.to_nat (X + 1)) ds)
      (skipn (Z.to_nat (X + 1)) ds)
  else
    with_fraction point [48] (repeat 48 (Z.to_nat (- X - 1)) ++ ds).

(** [sprintf] with [%1.<P>g], for [P >= 1]. *)
Definition sprintf_g_c (point : Z) (P : nat) (d : double) : list Z :=
  match d with
  | S754_nan => [110; 97; 110]
  | S754_infinity s => (if s then [45] else []) ++ [105; 110; 102]
  | S754_zero s => (if s then [45] else []) ++ [48]
  | S754_finite s m e =>
      let n := if 0 <=? e then Z.pos m * 2 ^ e else Z.pos m in
      let den := if 0 <=? e then 1 else 2 ^ (- e) in
      let '(D, X) := round_digits P n den (dec_exponent n den) in
      (if s then [45] else [])
      ++ (if (X <? -4) || (Z.of_nat P <=? X) then exp_style point P D X
          else fixed_style point P D X)
  end.

Definition sscanf_lg_c (point : Z) (s : list Z) : option double :=
  let '(d, n) := strtod_c point s in
  match n with O => None | _ => Some d end.

Definition tolower_c (c : Z) : Z :=
  if (65 <=? c) && (c <=? 90) then c + 32 else c.

#[export] Instance libc : Libc := {
  decimal_point := 46;
  strtod := strtod_c 46;
  sprintf_g := sprintf_g_c 46;
  sprintf_d := sprintf_d_c;
  sscanf_lg := sscanf_lg_c 46;
  tolower := tolower_c
}.

End CLocale.

(** ** Nodes *)

(** Addresses of nodes; a pointer is an [option addr], [None] being NULL. *)
Definition addr : Type := nat.

(** [struct cJSON].  The two strings are held by value: [Some s] is a
    pointer to the C string [s], [None] is NULL. *)
Record cJSON := mk_cJSON {
  next : option addr;
  prev : option addr;
  child : option addr;
  type : Z;
  valuestring : option (list Z);
  valueint : Z;
  valuedouble : double;
  string : option (list Z)
}.

Definition set_type (t : Z) (n : cJSON) : cJSON :=
  mk_cJSON (next n) (prev n) (child n) t (valuestring n) (valueint n)
    (valuedouble n) (string n).
Definition set_valuestring (s : option (list Z)) (n : cJSON) : cJSON :=
  mk_cJSON (next n) (prev n) (child n) (type n) s (valueint n)
    (valuedouble n) (string n).
Definition set_valueint (v : Z) (n : cJSON) : cJSON :=
  mk_cJSON (next n) (prev n) (child n) (type n) (valuestring n) v
    (valuedouble n) (string n).
Definition set_valuedouble (d : double) (n : cJSON) : cJSON :=
  mk_cJSON (next n) (prev n) (child n) (type n) (valuestring n) (valueint n)
    d (string n).
Definition set_string (s : option (list Z)) (n : cJSON) : cJSON :=
  mk_cJSON (next n) (prev n) (child n) (type n) (valuestring n) (valueint n)
    (valuedouble n) s.
Definition set_next (p : option addr) (n : cJSON) : cJSON :=
  mk_cJSON p (prev n) (child n) (type n) (valuestring n) (valueint n)
    (valuedouble n) (string n).
Definition set_prev (p : option addr) (n : cJSON) : cJSON :=
  mk_cJSON (next n) p (child n) (type n) (valuestring n) (valueint n)
    (valuedouble n) (string n).
Definition set_child (p : option addr) (n : cJSON) : cJSON :=
  mk_cJSON (next n) (prev n) p (type n) (valuestring n) (valueint n)
    (valuedouble n) (string n).

(** [cJSON_New_Item]: the node after [memset(node, 0, sizeof(cJSON))].
    Allocation is taken to succeed throughout. *)
Definition cJSON_New_Item : cJSON :=
  mk_cJSON None None None 0 None 0 (S754_zero false) None.

(** A node together with the nodes of its child list, in list order.  In
    a tree the links [next], [prev] and [child] are represented by the
    position of a node in the list of its parent. *)
Unset Elimination Schemes.
Inductive tree := Tree (node : cJSON) (children : list tree).
Set Elimination Schemes.

Definition node_of (t : tree) : cJSON := let 'Tree n _ := t in n.
Definition children_of (t : tree) : list tree := let 'Tree _ cs := t in cs.

Section Getters.
Context `{Header}.



End Getters.

(** ** The parser *)

Module Parser.

(** [parse_buffer], without the allocator hooks. *)
Record parse_buffer := mk_parse_buffer {
  content : list Z;
  length : nat;
  offset : nat;
  depth : nat
}.

Definition set_offset (o : nat) (b : parse_buffer) : parse_buffer :=
  mk_parse_buffer (content b) (length b) o (depth b).
Definition set_depth (d : nat) (b : parse_buffer) : parse_buffer :=
  mk_parse_buffer (content b) (length b) (offset b) d.

Definition can_read (b : parse_buffer) (size : nat) : bool :=
  (offset b + size <=? length b)%nat.
Definition can_access_at_index (b : parse_buffer) (index : nat) : bool :=
  (offset b + index <? length b)%nat.
Definition cannot_access_at_index (b : parse_buffer) (index : nat) : bool :=
  negb (can_access_at_index b index).

(** [buffer_at_offset(b)[i]]. *)
Definition buffer_at_offset (b : parse_buffer) (i : nat) : Z :=
  byte_at (content b) (offset b + i).

(** [strncmp(buffer_at_offset(b), lit, strlen(lit)) == 0] for a literal
    [lit] without nul bytes. *)
Definition starts_with (b : parse_buffer) (lit : list Z) : bool :=
  forallb (fun '(i, c) => buffer_at_offset b i =? c)
    (combine (seq 0 (List.length lit)) lit).

Fixpoint skip_whitespace_loop (fuel : nat) (b : parse_buffer) : parse_buffer :=
  match fuel with
  | O => b
  | S fuel' =>
      if can_access_at_index b 0 && (buffer_at_offset b 0 <=? 32)
      then skip_whitespace_loop fuel' (set_offset (offset b + 1) b)
      else b
  end.

(** [buffer_skip_whitespace] on a buffer whose content is not NULL. *)
Definition buffer_skip_whitespace (b : parse_buffer) : parse_buffer :=
  if cannot_access_at_index b 0 then b
  else
    let b1 := skip_whitespace_loop (length b) b in
    if (offset b1 =? length b1)%nat then set_offset (offset b1 - 1) b1 else b1.

(** [skip_utf8_bom]; [None] is the NULL it returns. *)
Definition skip_utf8_bom (b : parse_buffer) : option parse_buffer :=
  if negb (offset b =? 0)%nat then None
  else if can_access_at_index b 4 && starts_with b [239; 187; 191]
  then Some (set_offset (offset b + 3) b)
  else Some b.

Section WithEnvironment.
Context `{Header} `{Libc}.

(** *** Numbers *)

Definition number_byte (c : Z) : bool :=
  ((48 <=? c) && (c <=? 57)) || (c =? 43) || (c =? 45) || (c =? 101)
  || (c =? 69) || (c =? 46).

(** The first loop of [parse_number]: the length of the numeric slice. *)
Fixpoint number_length_loop (fuel : nat) (b : parse_buffer) (i : nat) : nat :=
  match fuel with
  | O => i
  | S fuel' =>
      if can_access_at_index b i && number_byte (buffer_at_offset b i)
      then number_length_loop fuel' b (i + 1)%nat
      else i
  end.

Definition parse_number (item : cJSON) (b : parse_buffer)
  : option (cJSON * parse_buffer) :=
  let number_string_length := number_length_loop (length b) b 0 in
  let number_c_string :=
    map (fun c => if c =? 46 then decimal_point else c)
      (firstn number_string_length (skipn (offset b) (content b))) in
  let '(number, consumed) := strtod number_c_string in
  if (consumed =? 0)%nat then None
  else
    Some (set_type cJSON_Number
            (set_valueint (saturate number) (set_valuedouble number item)),
          set_offset (offset b + consumed) b).

(** *** Strings *)

(** The bytes [utf16_literal_to_utf8] writes after the first one, last
    byte first in the code, and the code point that is left. *)
Fixpoint utf8_continuation (n : nat) (codepoint : Z) : list Z * Z :=
  match n with
  | O => ([], codepoint)
  | S n' =>
      let b := Z.land (Z.lor codepoint 128) 191 in
      let '(bs, cp) := utf8_continuation n' (Z.shiftr codepoint 6) in
      (bs ++ [b], cp)
  end.

(** [utf16_literal_to_utf8]: the sequence length and the bytes written;
    [None] is the result 0. [input_pointer] and [input_end] are indices
    into the content. *)
Definition utf16_literal_to_utf8 (content : list Z)
    (input_pointer input_end : nat) : option (nat * list Z) :=
  let first_sequence := input_pointer in
  if (input_end - first_sequence <? 6)%nat then None
  else
    let first_code := Hex.parse_hex4 (skipn (first_sequence + 2) content) in
    if (56320 <=? first_code) && (first_code <=? 57343) then None
    else
      let sequence :=
        if (55296 <=? first_code) && (first_code <=? 56319) then
          let second_sequence := (first_sequence + 6)%nat in
          if (input_end - second_sequence <? 6)%nat then None
          else if negb (byte_at content second_sequence =? 92)
                  || negb (byte_at content (second_sequence + 1) =? 117)
          then None
          else
            let second_code :=
              Hex.parse_hex4 (skipn (second_sequence + 2) content) in
            if (second_code <? 56320) || (57343 <? second_code) then None
            else
              Some (12%nat,
                    65536 + Z.lor (Z.shiftl (Z.land first_code 1023) 10)
                                  (Z.land second_code 1023))
        else Some (6%nat, first_code) in
      match sequence with
      | None => None
      | Some (sequence_length, codepoint) =>
          let encoding :=
            if codepoint <? 128 then Some (1%nat, 0)
            else if codepoint <? 2048 then Some (2%nat, 192)
            else if codepoint <? 65536 then Some (3%nat, 224)
            else if codepoint <=? 1114111 then Some (4%nat, 240)
            else None in
          match encoding with
          | None => None
          | Some (utf8_length, first_byte_mark) =>
              let '(tail, cp) := utf8_continuation (utf8_length - 1) codepoint in
              let first :=
                if (1 <? utf8_length)%nat
                then Z.land (Z.lor cp first_byte_mark) 255
                else Z.land cp 127 in
              Some (sequence_length, first :: tail)
          end
      end.

(** The first loop of [parse_string]: the index of the closing quote. *)
Fixpoint string_end_loop (fuel : nat) (b : parse_buffer) (input_end : nat)
  : option nat :=
  match fuel with
  | O => Some input_end
  | S fuel' =>
      if (input_end <? length b)%nat
         && negb (byte_at (content b) input_end =? 34)
      then
        if byte_at (content b) input_end =? 92 then
          if (length b <=? input_end + 1)%nat then None
          else string_end_loop fuel' b (input_end + 1 + 1)%nat
        else string_end_loop fuel' b (input_end + 1)%nat
      else Some input_end
  end.

(** The second loop of [parse_string]: the decoded bytes. *)
Fixpoint string_decode_loop (fuel : nat) (content : list Z)
    (input_pointer input_end : nat) (output : list Z) : option (list Z) :=
  match fuel with
  | O => if (input_pointer <? input_end)%nat then None else Some output
  | S fuel' =>
      if negb (input_pointer <? input_end)%nat then Some output
      else
        let c := byte_at content input_pointer in
        if negb (c =? 92) then
          string_decode_loop fuel' content (input_pointer + 1)%nat input_end
            (output ++ [c])
        else if (input_end - input_pointer <? 1)%nat then None
        else
          let e := byte_at content (input_pointer + 1) in
          let simple (x : Z) :=
            string_decode_loop fuel' content (input_pointer + 2)%nat input_end
              (output ++ [x]) in
          if e =? 98 then simple 8
          else if e =? 102 then simple 12
          else if e =? 110 then simple 10
          else if e =? 114 then simple 13
          else if e =? 116 then simple 9
          else if (e =? 34) || (e =? 92) || (e =? 47) then simple e
          else if e =? 117 then
            match utf16_literal_to_utf8 content input_pointer input_end with
            | None => None
            | Some (sequence_length, bytes) =>
                string_decode_loop fuel' content
                  (input_pointer + sequence_length)%nat input_end
                  (output ++ bytes)
            end
          else None
  end.

(** The C string a buffer of decoded bytes holds: what lies before the
    first nul byte. *)
Definition as_c_string (output : list Z) : list Z := text_of output.

Definition parse_string (item : cJSON) (b : parse_buffer)
  : option (cJSON * parse_buffer) :=
  let input_pointer := (offset b + 1)%nat in
  if negb (buffer_at_offset b 0 =? 34) then None
  else
    match string_end_loop (length b) b (offset b + 1)%nat with
    | None => None
    | Some input_end =>
        if (length b <=? input_end)%nat
           || negb (byte_at (content b) input_end =? 34)
        then None
        else
          match string_decode_loop (length b) (content b) input_pointer
                  input_end [] with
          | None => None
          | Some output =>
              Some (set_valuestring (Some (as_c_string output))
                      (set_type cJSON_String item),
                    set_offset (input_end + 1) b)
          end
    end.

(** *** Values, arrays and objects *)

Definition result : Type := option (tree * parse_buffer).

(** The [do ... while] loop of [parse_array]; [parse_value] is the
    parser for the elements. *)
Fixpoint parse_array_loop (parse_value : cJSON -> parse_buffer -> result)
    (fuel : nat) (b : parse_buffer) (items : list tree)
  : option (list tree * parse_buffer) :=
  match fuel with
  | O => None
  | S fuel' =>
      let new_item := cJSON_New_Item in
      let b1 := buffer_skip_whitespace (set_offset (offset b + 1) b) in
      match parse_value new_item b1 with
      | None => None
      | Some (t, b2) =>
          let b3 := buffer_skip_whitespace b2 in
          if can_access_at_index b3 0 && (buffer_at_offset b3 0 =? 44)
          then parse_array_loop parse_value fuel' b3 (items ++ [t])
          else Some (items ++ [t], b3)
      end
  end.

Definition parse_array (parse_value : cJSON -> parse_buffer -> result)
    (item : cJSON) (b : parse_buffer) : result :=
  if (CJSON_NESTING_LIMIT <=? depth b)%nat then None
  else
    let b := set_depth (depth b + 1) b in
    if negb (buffer_at_offset b 0 =? 91) then None
    else
      let b := buffer_skip_whitespace (set_offset (offset b + 1) b) in
      let success (items : list tree) (b : parse_buffer) : result :=
        Some (Tree (set_type cJSON_Array item) items,
              set_offset (offset b + 1) (set_depth (depth b - 1) b)) in
      if can_access_at_index b 0 && (buffer_at_offset b 0 =? 93)
      then success [] b
      else if cannot_access_at_index b 0 then None
      else
        let b := set_offset (offset b - 1) b in
        match parse_array_loop parse_value (S (length b)) b [] with
        | None => None
        | Some (items, b) =>
            if cannot_access_at_index b 0
               || negb (buffer_at_offset b 0 =? 93)
            then None
            else success items b
        end.

(** The [do ... while] loop of [parse_object]. *)
Fixpoint parse_object_loop (parse_value : cJSON -> parse_buffer -> result)
    (fuel : nat) (b : parse_buffer) (items : list tree)
  : option (list tree * parse_buffer) :=
  match fuel with
  | O => None
  | S fuel' =>
      let new_item := cJSON_New_Item in
      if cannot_access_at_index b 1 then None
      else
        let b1 := buffer_skip_whitespace (set_offset (offset b + 1) b) in
        match parse_string new_item b1 with
        | None => None
        | Some (current_item, b2) =>
            let b3 := buffer_skip_whitespace b2 in
            let current_item :=
              set_valuestring None
                (set_string (valuestring current_item) current_item) in
            if cannot_access_at_index b3 0
               || negb (buffer_at_offset b3 0 =? 58)
            then None
            else
              let b4 := buffer_skip_whitespace (set_offset (offset b3 + 1) b3) in
              match parse_value current_item b4 with
              | None => None
              | Some (t, b5) =>
                  let b6 := buffer_skip_whitespace b5 in
                  if can_access_at_index b6 0 && (buffer_at_offset b6 0 =? 44)
                  then parse_object_loop parse_value fuel' b6 (items ++ [t])
                  else Some (items ++ [t], b6)
              end
        end
  end.

Definition parse_object (parse_value : cJSON -> parse_buffer -> result)
    (item : cJSON) (b : parse_buffer) : result :=
  if (CJSON_NESTING_LIMIT <=? depth b)%nat then None
  else
    let b := set_depth (depth b + 1) b in
    if cannot_access_at_index b 0 || negb (buffer_at_offset b 0 =? 123)
    then None
    else
      let b := buffer_skip_whitespace (set_offset (offset b + 1) b) in
      let success (items : list tree) (b : parse_buffer) : result :=
        Some (Tree (set_type cJSON_Object item) items,
              set_offset (offset b + 1) (set_depth (depth b - 1) b)) in
      if can_access_at_index b 0 && (buffer_at_offset b 0 =? 125)
      then success [] b
      else if cannot_access_at_index b 0 then None
      else
        let b := set_offset (offset b - 1) b in
        match parse_object_loop parse_value (S (length b)) b [] with
        | None => None
        | Some (items, b) =>
            if cannot_access_at_index b 0
               || negb (buffer_at_offset b 0 =? 125)
            then None
            else success items b
        end.

Definition leaf (r : option (cJSON * parse_buffer)) : result :=
  match r with
  | Some (n, b) => Some (Tree n [], b)
  | None => None
  end.

(** [parse_value].  [fuel] bounds the nesting of the recursion; the
    depth check of [parse_array] and [parse_object] stops it first when
    [fuel] exceeds [CJSON_NESTING_LIMIT - depth]. *)
Fixpoint parse_value (fuel : nat) (item : cJSON) (b : parse_buffer) : result :=
  match fuel with
  | O => None
  | S fuel' =>
      if can_read b 4 && starts_with b [110; 117; 108; 108] then
        Some (Tree (set_type cJSON_NULL item) [], set_offset (offset b + 4) b)
      else if can_read b 5 && starts_with b [102; 97; 108; 115; 101] then
        Some (Tree (set_type cJSON_False item) [], set_offset (offset b + 5) b)
      else if can_read b 4 && starts_with b [116; 114; 117; 101] then
        Some (Tree (set_valueint 1 (set_type cJSON_True item)) [],
              set_offset (offset b + 4) b)
      else if can_access_at_index b 0 && (buffer_at_offset b 0 =? 34) then
        leaf (parse_string item b)
      else if can_access_at_index b 0
              && ((buffer_at_offset b 0 =? 45)
                  || ((48 <=? buffer_at_offset b 0)
                      && (buffer_at_offset b 0 <=? 57))) then
        leaf (parse_number item b)
      else if can_access_at_index b 0 && (buffer_at_offset b 0 =? 91) then
        parse_array (parse_value fuel') item b
      else if can_access_at_index b 0 && (buffer_at_offset b 0 =? 123) then
        parse_object (parse_value fuel') item b
      else None
  end.

(** [cJSON_ParseWithLengthOpts] for a non-NULL [value], without the
    error position and [return_parse_end]. *)
Definition cJSON_ParseWithLengthOpts (value : list Z) (buffer_length : nat)
    (require_null_terminated : bool) : option tree :=
  if (buffer_length =? 0)%nat then None
  else
    let buffer := mk_parse_buffer value buffer_length 0 0 in
    let item := cJSON_New_Item in
    match skip_utf8_bom buffer with
    | None => None
    | Some b =>
        match parse_value (S CJSON_NESTING_LIMIT) item
                (buffer_skip_whitespace b) with
        | None => None
        | Some (t, b) =>
            if require_null_terminated then
              let b := buffer_skip_whitespace b in
              if (length b <=? offset b)%nat
                 || negb (buffer_at_offset b 0 =? 0)
              then None
              else Some t
            else Some t
        end
    end.

(** [cJSON_ParseWithOpts] on the C string [value]: the buffer is the
    string with its terminating nul. *)
Definition cJSON_ParseWithOpts (value : list Z)
    (require_null_terminated : bool) : option tree :=
  cJSON_ParseWithLengthOpts (value ++ [0]) (strlen value + 1)
    require_null_terminated.

Definition cJSON_Parse (value : list Z) : option tree :=
  cJSON_ParseWithOpts value false.

Definition cJSON_ParseWithLength (value : list Z) (buffer_length : nat)
  : option tree :=
  cJSON_ParseWithLengthOpts value buffer_length false.

End WithEnvironment.

End Parser.

(** ** The printer *)

Module Printer.

(** [printbuffer], without the allocator hooks.  [buffer] holds the bytes
    written so far; what lies behind the last byte written is not
    represented.  Allocation is taken to succeed, so that [ensure] fails
    only where the code itself gives up. *)
Record printbuffer := mk_printbuffer {
  buffer : list Z;
  length : Z;
  offset : nat;
  depth : nat;
  noalloc : bool;
  format : bool
}.

Definition set_buffer (l : list Z) (p : printbuffer) : printbuffer :=
  mk_printbuffer l (length p) (offset p) (depth p) (noalloc p) (format p).
Definition set_length (n : Z) (p : printbuffer) : printbuffer :=
  mk_printbuffer (buffer p) n (offset p) (depth p) (noalloc p) (format p).
Definition set_offset (o : nat) (p : printbuffer) : printbuffer :=
  mk_printbuffer (buffer p) (length p) o (depth p) (noalloc p) (format p).
Definition set_depth (d : nat) (p : printbuffer) : printbuffer :=
  mk_printbuffer (buffer p) (length p) (offset p) d (noalloc p) (format p).

(** [ensure]: the buffer after the call, in which [needed] bytes can be
    written at [offset]; [None] is the NULL it returns. *)
Definition ensure (p : printbuffer) (needed : Z) : option printbuffer :=
  if (0 <? length p) && (length p <=? Z.of_nat (offset p)) then None
  else if INT_MAX <? needed then None
  else
    let needed := needed + Z.of_nat (offset p) + 1 in
    if needed <=? length p then Some p
    else if noalloc p then None
    else if INT_MAX / 2 <? needed then
      if needed <=? INT_MAX then Some (set_length INT_MAX p) else None
    else Some (set_length (needed * 2) p).

(** [ensure] with the hooks of the buffer: [has_reallocate] says whether
    [p->hooks.reallocate] is set, which [cJSON_InitHooks] does for the
    default [malloc] and [free] only.  With it the buffer grows by
    [realloc] and keeps its bytes, which is [ensure] above; without it
    the new buffer receives the first [offset + 1] bytes of the old one
    by [memcpy], and what lay behind them is lost. *)
Definition ensure_hooks (has_reallocate : bool) (p : printbuffer) (needed : Z)
  : option printbuffer :=
  if (0 <? length p) && (length p <=? Z.of_nat (offset p)) then None
  else if INT_MAX <? needed then None
  else
    let needed := needed + Z.of_nat (offset p) + 1 in
    if needed <=? length p then Some p
    else if noalloc p then None
    else
      let grown (newsize : Z) : printbuffer :=
        set_length newsize
          (if has_reallocate then p
           else set_buffer (firstn (offset p + 1) (buffer p)) p) in
      if INT_MAX / 2 <? needed then
        if needed <=? INT_MAX then Some (grown INT_MAX) else None
      else Some (grown (needed * 2)).

(** Store [bytes] at the pointer [ensure] returned, [buffer + offset]. *)
Definition write (bytes : list Z) (p : printbuffer) : printbuffer :=
  set_buffer (firstn (offset p) (buffer p) ++ bytes) p.

(** [update_offset]. *)
Definition update_offset (p : printbuffer) : printbuffer :=
  set_offset (offset p + strlen (skipn (offset p) (buffer p))) p.

Definition hex_char (v : Z) : Z := if v <? 10 then 48 + v else 97 + (v - 10).

(** The bytes the second loop of [print_string_ptr] writes for one input
    byte. *)
Definition escape_byte (c : Z) : list Z :=
  if (31 <? c) && negb (c =? 34) && negb (c =? 92) then [c]
  else
    92 ::
    (if c =? 92 then [92]
     else if c =? 34 then [34]
     else if c =? 8 then [98]
     else if c =? 12 then [102]
     else if c =? 10 then [110]
     else if c =? 13 then [114]
     else if c =? 9 then [116]
     else [117; hex_char (c / 4096 mod 16); hex_char (c / 256 mod 16);
           hex_char (c / 16 mod 16); hex_char (c mod 16)]).

(** What the first loop of [print_string_ptr] adds to
    [escape_characters] for one input byte. *)
Definition escape_cost (c : Z) : nat :=
  if (c =? 34) || (c =? 92) || (c =? 8) || (c =? 12) || (c =? 10)
     || (c =? 13) || (c =? 9) then 1%nat
  else if c <? 32 then 5%nat
  else 0%nat.

(** [print_string_ptr]. *)
Definition print_string_ptr (input : option (list Z)) (p : printbuffer)
  : option printbuffer :=
  match input with
  | None =>
      match ensure p 3 with
      | None => None
      | Some p => Some (write [34; 34; 0] p)
      end
  | Some s =>
      let input := text_of s in
      let escape_characters := list_sum (map escape_cost input) in
      let output_length := (List.length input + escape_characters)%nat in
      match ensure p (Z.of_nat output_length + 3) with
      | None => None
      | Some p =>
          if (escape_characters =? 0)%nat then
            Some (write (34 :: input ++ [34; 0]) p)
          else
            Some (write (34 :: concat (map escape_byte input) ++ [34; 0]) p)
      end
  end.

Section WithEnvironment.
Context `{Header} `{Libc}.

(** The text [print_number] puts into [number_buffer]. *)
Definition number_text (item : cJSON) : list Z :=
  let d := valuedouble item in
  if isnan d || isinf d then [110; 117; 108; 108]
  else if d_eq d (double_of_int (valueint item)) then sprintf_d (valueint item)
  else
    let s15 := sprintf_g 15 d in
    match sscanf_lg s15 with
    | Some test => if compare_double test d then s15 else sprintf_g 17 d
    | None => sprintf_g 17 d
    end.

(** [print_number]. *)
Definition print_number (item : cJSON) (p : printbuffer)
  : option printbuffer :=
  let number_buffer := number_text item in
  let length := List.length number_buffer in
  if (25 <? length)%nat then None
  else
    match ensure p (Z.of_nat length + 1) with
    | None => None
    | Some p =>
        let p :=
          write (map (fun c => if c =? decimal_point then 46 else c)
                   number_buffer ++ [0]) p in
        Some (set_offset (offset p + length) p)
    end.

Definition print_string (item : cJSON) (p : printbuffer)
  : option printbuffer :=
  print_string_ptr (valuestring item) p.

Section Loops.
Variable print_value : tree -> printbuffer -> option printbuffer.

(** The [while] loop of [print_array]. *)
Fixpoint print_array_loop (elements : list tree) (p : printbuffer)
  : option printbuffer :=
  match elements with
  | [] => Some p
  | current_element :: rest =>
      match print_value current_element p with
      | None => None
      | Some p =>
          let p := update_offset p in
          match rest with
          | [] => print_array_loop rest p
          | _ :: _ =>
              let length := if format p then 2%nat else 1%nat in
              match ensure p (Z.of_nat length + 1) with
              | None => None
              | Some p =>
                  let p :=
                    write (44 :: (if format p then [32] else []) ++ [0]) p in
                  print_array_loop rest (set_offset (offset p + length) p)
              end
          end
      end
  end.

Definition print_array (elements : list tree) (p : printbuffer)
  : option printbuffer :=
  match ensure p 1 with
  | None => None
  | Some p =>
      let p := write [91] p in
      let p := set_depth (depth p + 1) (set_offset (offset p + 1) p) in
      match print_array_loop elements p with
      | None => None
      | Some p =>
          match ensure p 2 with
          | None => None
          | Some p => Some (set_depth (depth p - 1) (write [93; 0] p))
          end
      end
  end.

(** The [while] loop of [print_object]. *)
Fixpoint print_object_loop (members : list tree) (p : printbuffer)
  : option printbuffer :=
  match members with
  | [] => Some p
  | current_item :: rest =>
      let indented :=
        if format p then
          match ensure p (Z.of_nat (depth p)) with
          | None => None
          | Some p =>
              Some (set_offset (offset p + depth p)
                      (write (repeat 9 (depth p)) p))
          end
        else Some p in
      match indented with
      | None => None
      | Some p =>
          match print_string_ptr (string (node_of current_item)) p with
          | None => None
          | Some p =>
              let p := update_offset p in
              let length := if format p then 2%nat else 1%nat in
              match ensure p (Z.of_nat length) with
              | None => None
              | Some p =>
                  let p := write (58 :: (if format p then [9] else [])) p in
                  let p := set_offset (offset p + length) p in
                  match print_value current_item p with
                  | None => None
                  | Some p =>
                      let p := update_offset p in
                      let has_next :=
                        match rest with [] => false | _ :: _ => true end in
                      let length :=
                        ((if format p then 1 else 0)
                         + (if has_next then 1 else 0))%nat in
                      match ensure p (Z.of_nat length + 1) with
                      | None => None
                      | Some p =>
                          let p :=
                            write ((if has_next then [44] else [])
                                   ++ (if format p then [10] else []) ++ [0])
                              p in
                          print_object_loop rest
                            (set_offset (offset p + length) p)
                      end
                  end
              end
          end
      end
  end.

Definition print_object (members : list tree) (p : printbuffer)
  : option printbuffer :=
  let length := if format p then 2%nat else 1%nat in
  match ensure p (Z.of_nat length + 1) with
  | None => None
  | Some p =>
      let p := write (123 :: (if format p then [10] else [])) p in
      let p := set_offset (offset p + length) (set_depth (depth p + 1) p) in
      match print_object_loop members p with
      | None => None
      | Some p =>
          match ensure p (if format p then Z.of_nat (depth p) + 1 else 2) with
          | None => None
          | Some p =>
              Some (set_depth (depth p - 1)
                      (write ((if format p then repeat 9 (depth p - 1)
                               else []) ++ [125; 0]) p))
          end
      end
  end.

End Loops.

(** [print_value] on a non-NULL item. *)
Fixpoint print_value (item : tree) (p : printbuffer) {struct item}
  : option printbuffer :=
  let 'Tree node children := item in
  let kind := Z.land (type node) 255 in
  if kind =? cJSON_NULL then
    match ensure p 5 with
    | None => None
    | Some p => Some (write [110; 117; 108; 108; 0] p)
    end
  else if kind =? cJSON_False then
    match ensure p 6 with
    | None => None
    | Some p => Some (write [102; 97; 108; 115; 101; 0] p)
    end
  else if kind =? cJSON_True then
    match ensure p 5 with
    | None => None
    | Some p => Some (write [116; 114; 117; 101; 0] p)
    end
  else if kind =? cJSON_Number then print_number node p
  else if kind =? cJSON_Raw then
    match valuestring node with
    | None => None
    | Some raw =>
        let raw_length := (strlen raw + 1)%nat in
        match ensure p (Z.of_nat raw_length) with
        | None => None
        | Some p => Some (write (text_of raw ++ [0]) p)
        end
    end
  else if kind =? cJSON_String then print_string node p
  else if kind =? cJSON_Array then print_array print_value children p
  else if kind =? cJSON_Object then print_object print_value children p
  else None.

(** [print]: the C string returned, [None] for NULL. *)
Definition print (item : tree) (format : bool) : option (list Z) :=
  let default_buffer_size := 256 in
  let buffer := mk_printbuffer [] default_buffer_size 0 0 false format in
  match print_value item buffer with
  | None => None
  | Some buffer =>
      let buffer := update_offset buffer in
      Some (firstn (offset buffer) (Printer.buffer buffer))
  end.

Definition cJSON_Print (item : tree) : option (list Z) := print item true.
Definition cJSON_PrintUnformatted (item : tree) : option (list Z) :=
  print item false.

End WithEnvironment.

End Printer.

(** ** [cJSON_Compare] *)

Module Compare.

Section WithEnvironment.
Context `{Header} `{Libc}.

(** [strcmp(a, b) == 0]. *)
Definition strcmp_eq (a b : list Z) : bool :=
  bool_decide (text_of a = text_of b).

(** [case_insensitive_strcmp(string1, string2) == 0] for two non-NULL
    strings, given as their texts. *)
Fixpoint case_insensitive_eq (string1 string2 : list Z) : bool :=
  match string1, string2 with
  | [], [] => true
  | [], c2 :: _ => tolower 0 =? tolower c2
  | c1 :: _, [] => false
  | c1 :: r1, c2 :: r2 =>
      (tolower c1 =? tolower c2) && case_insensitive_eq r1 r2
  end.

Definition case_insensitive_strcmp_eq (string1 string2 : option (list Z))
  : bool :=
  match string1, string2 with
  | Some s1, Some s2 => case_insensitive_eq (text_of s1) (text_of s2)
  | _, _ => false
  end.

(** [get_object_item] on the child list of a non-NULL object. *)
Fixpoint get_object_item (members : list tree) (name : option (list Z))
    (case_sensitive : bool) : option tree :=
  match name with
  | None => None
  | Some n =>
      match members with
      | [] => None
      | current_element :: rest =>
          if case_sensitive then
            match string (node_of current_element) with
            | None => None
            | Some k =>
                if strcmp_eq n k then Some current_element
                else get_object_item rest name case_sensitive
            end
          else if case_insensitive_strcmp_eq name
                    (string (node_of current_element))
          then Some current_element
          else get_object_item rest name case_sensitive
      end
  end.

(** The test the loops of [get_object_item] apply to the key of a
    member. *)
Definition key_matches (case_sensitive : bool) (name : list Z) (member : tree)
  : bool :=
  match string (node_of member) with
  | None => false
  | Some k =>
      if case_sensitive then strcmp_eq name k
      else case_insensitive_eq (text_of name) (text_of k)
  end.

Definition valid_kind (k : Z) : bool :=
  (k =? cJSON_False) || (k =? cJSON_True) || (k =? cJSON_NULL)
  || (k =? cJSON_Number) || (k =? cJSON_String) || (k =? cJSON_Raw)
  || (k =? cJSON_Array) || (k =? cJSON_Object).

(** [cJSON_Compare] on two distinct non-NULL nodes.  [fuel] bounds the
    depth of the recursion. *)
Fixpoint compare (fuel : nat) (a b : tree) (case_sensitive : bool) : bool :=
  match fuel with
  | O => false
  | S fuel' =>
      let ka := Z.land (type (node_of a)) 255 in
      let kb := Z.land (type (node_of b)) 255 in
      if negb (ka =? kb) then false
      else if negb (valid_kind ka) then false
      else if (ka =? cJSON_False) || (ka =? cJSON_True) || (ka =? cJSON_NULL)
      then true
      else if ka =? cJSON_Number then
        compare_double (valuedouble (node_of a)) (valuedouble (node_of b))
      else if (ka =? cJSON_String) || (ka =? cJSON_Raw) then
        match valuestring (node_of a), valuestring (node_of b) with
        | Some sa, Some sb => strcmp_eq sa sb
        | _, _ => false
        end
      else if ka =? cJSON_Array then
        (fix elements (xs ys : list tree) : bool :=
           match xs, ys with
           | x :: xs', y :: ys' =>
               if compare fuel' x y case_sensitive then elements xs' ys'
               else false
           | [], [] => true
           | _, _ => false
           end) (children_of a) (children_of b)
      else if ka =? cJSON_Object then
        forallb
          (fun a_element =>
             match get_object_item (children_of b)
                     (string (node_of a_element)) case_sensitive with
             | None => false
             | Some b_element => compare fuel' a_element b_element case_sensitive
             end) (children_of a)
        && forallb
             (fun b_element =>
                match get_object_item (children_of a)
                        (string (node_of b_element)) case_sensitive with
                | None => false
                | Some a_element =>
                    compare fuel' b_element a_element case_sensitive
                end) (children_of b)
      else false
  end.

(** The nesting of a tree: the fuel its comparison needs. *)
Fixpoint height (t : tree) : nat :=
  let 'Tree _ children := t in
  S (fold_right (fun c h => Nat.max (height c) h) O children).

(** The containers nested in a tree: an array or an object counts one
    more than the deepest of its children, any other node as many as the
    deepest of its children. *)
Fixpoint nesting (t : tree) : nat :=
  let 'Tree node children := t in
  let kind := Z.land (type node) 255 in
  let container := (kind =? cJSON_Array) || (kind =? cJSON_Object) in
  ((if container then 1 else 0)
   + fold_right (fun c n => Nat.max (nesting c) n) O children)%nat.

Definition cJSON_Compare (a b : tree) (case_sensitive : bool) : bool :=
  compare (height a + height b) a b case_sensitive.

End WithEnvironment.

End Compare.

(** ** The sibling list in memory *)

Module Store.

(** The memory holding the nodes. *)
Abbreviation heap := (gmap addr cJSON).

(** Computations on the heap: [None] stands for what ISO C leaves
    undefined (a NULL or dangling pointer dereferenced) and for
    exhausted fuel. *)
Definition M (A : Type) : Type := heap -> option (A * heap).

Definition ret {A} (x : A) : M A := fun h => Some (x, h).
Definition bind {A B} (c : M A) (k : A -> M B) : M B :=
  fun h => match c h with Some (x, h') => k x h' | None => None end.

Notation "'do' x <- c ; k" := (bind c (fun x => k))
  (at level 10, x name, c at level 100, k at level 200).
Notation "c ;; k" := (bind c (fun _ => k))
  (at level 100, k at level 200, right associativity).

(** Read the node a non-NULL pointer refers to. *)
Definition load (p : option addr) : M cJSON :=
  fun h =>
    match p with
    | Some a => match h !! a with Some n => Some (n, h) | None => None end
    | None => None
    end.

(** Assign to fields of the node a non-NULL pointer refers to. *)
Definition store (p : option addr) (f : cJSON -> cJSON) : M unit :=
  fun h =>
    match p with
    | Some a =>
        match h !! a with
        | Some n => Some (tt, <[a := f n]> h)
        | None => None
        end
    | None => None
    end.

(** Release the node a non-NULL pointer refers to. *)
Definition free (p : option addr) : M unit :=
  fun h =>
    match p with
    | Some a =>
        match h !! a with
        | Some _ => Some (tt, delete a h)
        | None => None
        end
    | None => None
    end.

Definition when (c : bool) (k : M unit) : M unit := if c then k else ret tt.

Definition is_null (p : option addr) : bool :=
  match p with None => true | Some _ => false end.
Definition ptr_eq (p q : option addr) : bool := bool_decide (p = q).

(** [suffix_object]. *)
Definition suffix_object (prev_ item : option addr) : M unit :=
  store prev_ (set_next item) ;;
  store item (set_prev prev_).

(** [add_item_to_array]. *)
Definition add_item_to_array (array item : option addr) : M bool :=
  if is_null item || is_null array || ptr_eq array item then ret false
  else
    do a <- load array;
    if is_null (child a) then
      store array (set_child item) ;;
      store item (set_prev item) ;;
      store item (set_next None) ;;
      ret true
    else
      do c <- load (child a);
      when (negb (is_null (prev c)))
        (suffix_object (prev c) item ;;
         do a' <- load array;
         store (child a') (set_prev item)) ;;
      ret true.

Definition cJSON_AddItemToArray (array item : option addr) : M bool :=
  add_item_to_array array item.

(** [get_array_item]. *)
Fixpoint get_array_item_loop (index : nat) (current_child : option addr)
  : M (option addr) :=
  match current_child, index with
  | Some _, S index' =>
      do c <- load current_child;
      get_array_item_loop index' (next c)
  | _, _ => ret current_child
  end.

Definition get_array_item (array : option addr) (index : nat)
  : M (option addr) :=
  if is_null array then ret None
  else
    do a <- load array;
    get_array_item_loop index (child a).

(** [cJSON_DetachItemViaPointer]. *)
Definition cJSON_DetachItemViaPointer (parent item : option addr)
  : M (option addr) :=
  if is_null parent || is_null item then ret None
  else
    do p <- load parent;
    do i <- load item;
    if negb (ptr_eq item (child p)) && is_null (prev i) then ret None
    else
      when (negb (ptr_eq item (child p)))
        (store (prev i) (set_next (next i))) ;;
      do i <- load item;
      when (negb (is_null (next i)))
        (store (next i) (set_prev (prev i))) ;;
      do p <- load parent;
      do i <- load item;
      (if ptr_eq item (child p) then store parent (set_child (next i))
       else when (is_null (next i)) (store (child p) (set_prev (prev i)))) ;;
      store item (set_prev None) ;;
      store item (set_next None) ;;
      ret item.

(** [cJSON_InsertItemInArray]; [which] is an [int]. *)
Definition cJSON_InsertItemInArray (array : option addr) (which : Z)
    (newitem : option addr) : M bool :=
  if (which <? 0) || is_null newitem then ret false
  else
    do after_inserted <- get_array_item array (Z.to_nat which);
    if is_null after_inserted then add_item_to_array array newitem
    else
      do a <- load array;
      do ai <- load after_inserted;
      if negb (ptr_eq after_inserted (child a)) && is_null (prev ai)
      then ret false
      else
        store newitem (set_next after_inserted) ;;
        store newitem (set_prev (prev ai)) ;;
        store after_inserted (set_prev newitem) ;;
        do a <- load array;
        (if ptr_eq after_inserted (child a)
         then store array (set_child newitem)
         else
           do ni <- load newitem;
           store (prev ni) (set_next newitem)) ;;
        ret true.

Section WithHeader.
Context `{Header}.

(** [cJSON_Delete].  The strings of a node are held by value and go
    with it. *)
Fixpoint cJSON_Delete_loop (fuel : nat) (item : option addr) : M unit :=
  match fuel with
  | O => fun _ => None
  | S fuel' =>
      if is_null item then ret tt
      else
        do i <- load item;
        let next_ := next i in
        when ((Z.land (type i) cJSON_IsReference =? 0)
              && negb (is_null (child i)))
          (cJSON_Delete_loop fuel' (child i)) ;;
        free item ;;
        cJSON_Delete_loop fuel' next_
  end.

(** Every call on a node releases it, so the number of nodes bounds the
    nesting of the calls. *)
Definition cJSON_Delete (item : option addr) : M unit :=
  fun h => cJSON_Delete_loop (S (size h)) item h.

(** [cJSON_IsNumber]. *)
Definition cJSON_IsNumber (item : option addr) : M bool :=
  if is_null item then ret false
  else
    do i <- load item;
    ret (Z.land (type i) 255 =? cJSON_Number).

(** [cJSON_GetNumberValue]. *)
Definition cJSON_GetNumberValue (item : option addr) : M double :=
  do is_number <- cJSON_IsNumber item;
  if negb is_number then ret NAN
  else
    do i <- load item;
    ret (valuedouble i).

(** [cJSON_ReplaceItemViaPointer]. *)
Definition cJSON_ReplaceItemViaPointer (parent item replacement : option addr)
  : M bool :=
  if is_null parent then ret false
  else
    do p <- load parent;
    if is_null (child p) || is_null replacement || is_null item then ret false
    else if ptr_eq replacement item then ret true
    else
      do i <- load item;
      store replacement (set_next (next i)) ;;
      store replacement (set_prev (prev i)) ;;
      do r <- load replacement;
      when (negb (is_null (next r)))
        (store (next r) (set_prev replacement)) ;;
      do p <- load parent;
      (if ptr_eq (child p) item then
         do c <- load (child p);
         when (ptr_eq (prev c) (child p))
           (store replacement (set_prev replacement)) ;;
         store parent (set_child replacement)
       else
         do r <- load replacement;
         when (negb (is_null (prev r)))
           (store (prev r) (set_next replacement)) ;;
         do r <- load replacement;
         when (is_null (next r))
           (do p <- load parent; store (child p) (set_prev replacement))) ;;
      store item (set_next None) ;;
      store item (set_prev None) ;;
      cJSON_Delete item ;;
      ret true.

End WithHeader.

(** *** Lookup by index and the operations built on it *)

(** The conversion of a [size_t] to [int], which wraps around. *)
Definition to_int (z : Z) : Z :=
  (z + 2147483648) mod 4294967296 - 2147483648.

(** The [while] loop of [cJSON_GetArraySize]. *)
Fixpoint array_size_loop (fuel : nat) (child_ : option addr) (size_ : nat)
  : M nat :=
  match fuel with
  | O => fun _ => None
  | S fuel' =>
      if is_null child_ then ret size_
      else
        do c <- load child_;
        array_size_loop fuel' (next c) (S size_)
  end.

(** [cJSON_GetArraySize].  A list that ends in NULL has no more nodes
    than the heap, which bounds the loop. *)
Definition cJSON_GetArraySize (array : option addr) : M Z :=
  if is_null array then ret 0
  else
    do a <- load array;
    fun h =>
      (do n <- array_size_loop (S (size h)) (child a) 0;
       ret (to_int (Z.of_nat n))) h.

(** [cJSON_GetArrayItem]. *)
Definition cJSON_GetArrayItem (array : option addr) (index : Z)
  : M (option addr) :=
  if index <? 0 then ret None else get_array_item array (Z.to_nat index).

(** [cJSON_DetachItemFromArray]. *)
Definition cJSON_DetachItemFromArray (array : option addr) (which : Z)
  : M (option addr) :=
  if which <? 0 then ret None
  else
    do item <- get_array_item array (Z.to_nat which);
    cJSON_DetachItemViaPointer array item.

Section WithHeader.
Context `{Header}.

(** [cJSON_DeleteItemFromArray]. *)
Definition cJSON_DeleteItemFromArray (array : option addr) (which : Z)
  : M unit :=
  do item <- cJSON_DetachItemFromArray array which;
  cJSON_Delete item.

(** [cJSON_ReplaceItemInArray]. *)
Definition cJSON_ReplaceItemInArray (array : option addr) (which : Z)
    (newitem : option addr) : M bool :=
  if which <? 0 then ret false
  else
    do item <- get_array_item array (Z.to_nat which);
    cJSON_ReplaceItemViaPointer array item newitem.

End WithHeader.

(** *** The sibling-list invariant *)

(** [dseg h pp p l qn]: following [next] from [p] visits exactly the
    nodes [l] and arrives at [qn]; each node's [prev] is its predecessor
    in [l], the first one's is [pp]. *)
Fixpoint dseg (h : heap) (pp p : option addr) (l : list addr)
    (qn : option addr) : Prop :=
  match l with
  | [] => p = qn
  | a :: l' =>
      p = Some a /\
      exists n, h !! a = Some n /\ prev n = pp /\ dseg h (Some a) (next n) l' qn
  end.

(** The children of [parent] are the nodes [l], linked as the file
    wants them: [next] ends in NULL, [prev] runs backwards, and the
    [prev] of the first child is the last child. *)
Definition sibling_list (h : heap) (parent : addr) (l : list addr) : Prop :=
  exists p, h !! parent = Some p /\
    dseg h (last l) (child p) l None.

Definition next_of (h : heap) (a : addr) : option addr :=
  match h !! a with Some n => next n | None => None end.
Definition prev_of (h : heap) (a : addr) : option addr :=
  match h !! a with Some n => prev n | None => None end.
Definition child_of (h : heap) (a : addr) : option addr :=
  match h !! a with Some n => child n | None => None end.

(** Following [next] from [p] visits exactly the nodes [l] and ends in
    NULL. *)
Fixpoint next_chain (h : heap) (p : option addr) (l : list addr) : Prop :=
  match l with
  | [] => p = None
  | a :: l' => p = Some a /\ is_Some (h !! a) /\ next_chain h (next_of h a) l'
  end.

(** The invariant as the specification words it, for the children [l]
    of [parent]: they are what [next] reaches from [parent->child]; the
    [prev] of the head is the tail; every child but the head is the
    [next] of its [prev]; every child but the tail is the [prev] of its
    [next]; the [next] of the tail is NULL. *)
Definition sibling_list_invariant (h : heap) (parent : addr) (l : list addr)
  : Prop :=
  is_Some (h !! parent) /\
  next_chain h (child_of h parent) l /\
  (forall hd, head l = Some hd -> prev_of h hd = last l) /\
  (forall N, (N ∈ l) -> head l <> Some N ->
     exists q, prev_of h N = Some q /\ next_of h q = Some N) /\
  (forall N, (N ∈ l) -> last l <> Some N ->
     exists q, next_of h N = Some q /\ prev_of h q = Some N) /\
  (forall tl, last l = Some tl -> next_of h tl = None).

(** The predecessor of what follows a segment [l] entered from [pp]. *)
Definition last_or (pp : option addr) (l : list addr) : option addr :=
  match last l with Some x => Some x | None => pp end.

(** *** The mutations *)

(** A call of one of the four mutating operations, on non-NULL
    arguments. *)
Inductive mutation :=
| Append (array item : addr)
| Detach (parent item : addr)
| Replace (parent item replacement : addr)
| Insert (array : addr) (which : Z) (newitem : addr).

Definition parent_of (m : mutation) : addr :=
  match m with
  | Append array _ | Insert array _ _ => array
  | Detach parent _ | Replace parent _ _ => parent
  end.

Section WithHeader.
Context `{Header}.

Definition run (m : mutation) : M unit :=
  match m with
  | Append array item =>
      cJSON_AddItemToArray (Some array) (Some item) ;; ret tt
  | Detach parent item =>
      cJSON_DetachItemViaPointer (Some parent) (Some item) ;; ret tt
  | Replace parent item replacement =>
      cJSON_ReplaceItemViaPointer (Some parent) (Some item) (Some replacement)
      ;; ret tt
  | Insert array which newitem =>
      cJSON_InsertItemInArray (Some array) which (Some newitem) ;; ret tt
  end.

(** The children a mutation is meant to leave, given the children [l]
    before it. *)
Definition children_after (m : mutation) (l : list addr) : list addr :=
  match m with
  | Append _ item => l ++ [item]
  | Detach _ item => filter (fun x => x <> item) l
  | Replace _ item replacement =>
      map (fun x => if decide (x = item) then replacement else x) l
  | Insert _ which newitem =>
      take (Z.to_nat which) l ++ newitem :: drop (Z.to_nat which) l
  end.

(** What [cJSON_Delete] descends into below a node. *)
Definition owned_child (n : cJSON) : option addr :=
  if Z.land (type n) cJSON_IsReference =? 0 then child n else None.

(** [owned h p fp]: the nodes [cJSON_Delete] releases when called on
    [p] are the nodes [fp], each met once. *)
Inductive owned (h : heap) : option addr -> list addr -> Prop :=
| owned_null : owned h None []
| owned_node (a : addr) (n : cJSON) (fc fn : list addr) :
    h !! a = Some n ->
    owned h (owned_child n) fc ->
    owned h (next n) fn ->
    (a ∉ fc ++ fn) ->
    (fc ## fn) ->
    owned h (Some a) (a :: fc ++ fn).

(** The contract of a mutation on a parent whose children are [l]: the
    parent is not one of its own children; a node handed over to become
    a child is allocated, is neither the parent nor already a child,
    and, where it may end up last, has a NULL [next]; a node to be
    detached or replaced is a child; what hangs below a node that is
    replaced, and is released with it, is apart from the parent, its
    children and the replacement. *)
Definition valid (h : heap) (m : mutation) (l : list addr) : Prop :=
  (parent_of m ∉ l) /\
  match m with
  | Append array item =>
      item <> array /\ (item ∉ l) /\
      exists n, h !! item = Some n /\ next n = None
  | Detach _ item => item ∈ l
  | Replace parent item replacement =>
      (item ∈ l) /\ replacement <> parent /\ (replacement ∉ l) /\
      is_Some (h !! replacement) /\
      exists n fc, h !! item = Some n /\ owned h (owned_child n) fc /\
        (item ∉ fc) /\ (parent ∉ fc) /\ (replacement ∉ fc) /\
        (forall x, x ∈ l -> x ∉ fc)
  | Insert array which newitem =>
      0 <= which /\ newitem <> array /\ (newitem ∉ l) /\
      exists n, h !! newitem = Some n /\ next n = None
  end.

End WithHeader.

End Store.

(** ** The header of release 1.7.19

    The values [cJSON.h] gives the constants in release 1.7.19, used to
    evaluate the code on concrete inputs; the properties below hold for
    any values meeting the two conditions of [Header]. *)

Module Release.

Lemma kinds_distinct_1_7_19 : NoDup [1; 2; 4; 8; 16; 32; 64; 128].
Proof. apply (bool_decide_unpack _). vm_compute. exact I. Qed.

Lemma kinds_low_byte_1_7_19 :
  Forall (fun k => Z.land k 255 = k) [1; 2; 4; 8; 16; 32; 64; 128].
Proof. repeat constructor. Qed.

#[export] Instance header : Header :=
  Build_Header 0 1 2 4 8 16 32 64 128 256 512 1000
    kinds_distinct_1_7_19 kinds_low_byte_1_7_19.

End Release.

(** ** Sample memories

    Concrete memories on which the operations are run. *)

Module Samples.
Import Store.

(** A fresh node with the given links. *)
Definition linked (prev_ next_ child_ : option addr) : cJSON :=
  set_child child_ (set_next next_ (set_prev prev_ cJSON_New_Item)).

(** An array at address 0 with the children 1, 2 and 3; the child 2 has
    the child 5; the node 4 is not linked to anything. *)
Definition three_children : heap :=
  <[0%nat := linked None None (Some 1%nat)]>
  (<[1%nat := linked (Some 3%nat) (Some 2%nat) None]>
  (<[2%nat := linked (Some 1%nat) (Some 3%nat) (Some 5%nat)]>
  (<[3%nat := linked (Some 2%nat) None None]>
  (<[4%nat := linked None None None]>
  (<[5%nat := linked (Some 5%nat) None None]> ∅))))).

End Samples.

(* ===================================================================== *)
(** * Part II: properties                                                 *)
(* ===================================================================== *)

Module HexFacts.
Import Hex.

Lemma hex_digit_range c v : hex_digit c = Some v -> 0 <= v < 16.
Proof.
  unfold hex_digit.
  repeat case_match; intros [= <-]; lia.
Qed.

Lemma hex4_step_digit input i h v :
  hex_digit (byte_at input i) = Some v ->
  hex4_step input i h =
    Some (if (i <? 3)%nat then to_uint (Z.shiftl (to_uint (h + v)) 4)
          else to_uint (h + v)).
Proof.
  unfold hex_digit, hex4_step.
  repeat case_match; intros [= <-]; reflexivity.
Qed.

Lemma hex4_step_invalid input i h :
  hex_digit (byte_at input i) = None -> hex4_step input i h = None.
Proof.
  unfold hex_digit, hex4_step.
  repeat case_match; intros; try discriminate; reflexivity.
Qed.

(** C7, as the code has it: the helper returns the 16-bit value of the
    four nibbles when every byte is a hex digit, and 0 for the whole
    result as soon as one byte is not a hex digit. *)
Theorem parse_hex4_all_or_nothing (a b c d : Z) :
  parse_hex4 [a; b; c; d] =
    match hex_digit a, hex_digit b, hex_digit c, hex_digit d with
    | Some va, Some vb, Some vc, Some vd =>
        4096 * va + 256 * vb + 16 * vc + vd
    | _, _, _, _ => 0
    end.
Proof.
  unfold parse_hex4, hex4_loop.
  destruct (hex_digit a) as [va|] eqn:Ha;
    [rewrite (hex4_step_digit _ _ _ va) by exact Ha
    |rewrite hex4_step_invalid by exact Ha; reflexivity].
  destruct (hex_digit b) as [vb|] eqn:Hb;
    [rewrite (hex4_step_digit _ _ _ vb) by exact Hb
    |rewrite hex4_step_invalid by exact Hb; reflexivity].
  destruct (hex_digit c) as [vc|] eqn:Hc;
    [rewrite (hex4_step_digit _ _ _ vc) by exact Hc
    |rewrite hex4_step_invalid by exact Hc; reflexivity].
  destruct (hex_digit d) as [vd|] eqn:Hd;
    [rewrite (hex4_step_digit _ _ _ vd) by exact Hd
    |rewrite hex4_step_invalid by exact Hd; reflexivity].
  apply hex_digit_range in Ha, Hb, Hc, Hd.
  cbn [Nat.ltb Nat.leb].
  unfold to_uint, UINT_MODULUS.
  rewrite !Z.shiftl_mul_pow2 by lia.
  change (2 ^ 4) with 16. change (2 ^ 32) with 4294967296.
  rewrite (Z.mod_small (0 + va)) by lia.
  rewrite (Z.mod_small ((0 + va) * 16)) by lia.
  rewrite (Z.mod_small ((0 + va) * 16 + vb)) by lia.
  rewrite (Z.mod_small (((0 + va) * 16 + vb) * 16)) by lia.
  rewrite (Z.mod_small (((0 + va) * 16 + vb) * 16 + vc)) by lia.
  rewrite (Z.mod_small ((((0 + va) * 16 + vb) * 16 + vc) * 16)) by lia.
  rewrite (Z.mod_small ((((0 + va) * 16 + vb) * 16 + vc) * 16 + vd)) by lia.
  lia.
Qed.

(** C7, as claimed, fails: on the bytes of [123g] the zero-nibble reading
    gives 0x1230, the code gives 0. *)
Lemma parse_hex4_not_zero_nibble :
  parse_hex4 [49; 50; 51; 103] = 0 /\
  hex4_zero_nibble 49 50 51 103 = 4656 /\
  parse_hex4 [49; 50; 51; 103] <> hex4_zero_nibble 49 50 51 103.
Proof. vm_compute. repeat split; discriminate. Qed.

End HexFacts.

(** ** Reading and writing buffers *)

Lemma byte_at_app_r (l1 l2 : list Z) (k : nat) :
  byte_at (l1 ++ l2) (length l1 + k) = byte_at l2 k.
Proof. unfold byte_at. apply app_nth2_plus. Qed.

Lemma byte_at_app_r0 (l1 l2 : list Z) :
  byte_at (l1 ++ l2) (length l1) = byte_at l2 0.
Proof. rewrite <- (Nat.add_0_r (length l1)) at 1. apply byte_at_app_r. Qed.

Lemma byte_at_lookup (l : list Z) (i : nat) :
  byte_at l i = default 0 (l !! i).
Proof. unfold byte_at. apply nth_lookup. Qed.

(** Writing at [i] the byte read at [j] leaves the byte at [j] as it was. *)
Lemma byte_at_insert_self (l : list Z) (i j : nat) :
  byte_at (<[i := byte_at l j]> l) j = byte_at l j.
Proof.
  rewrite !byte_at_lookup.
  destruct (decide (i = j)) as [->|Hne].
  - destruct (l !! j) as [x|] eqn:Hj.
    + rewrite list_lookup_insert_eq by (eapply lookup_lt_Some; eauto).
      reflexivity.
    + rewrite list_insert_ge by (apply lookup_ge_None; auto).
      rewrite Hj. reflexivity.
  - rewrite list_lookup_insert_ne by auto. reflexivity.
Qed.

Lemma byte_at_insert_ne (l : list Z) (i j : nat) (v : Z) :
  i <> j -> byte_at (<[i := v]> l) j = byte_at l j.
Proof.
  intros Hne. rewrite !byte_at_lookup.
  rewrite list_lookup_insert_ne by auto. reflexivity.
Qed.

(** Writing the first byte after [out]. *)
Lemma insert_after (out : list Z) (x v : Z) (T : list Z) :
  <[length out := v]> (out ++ x :: T) = out ++ v :: T.
Proof.
  rewrite insert_app_r_alt by lia.
  rewrite Nat.sub_diag. reflexivity.
Qed.

(** Copying the byte under the read cursor to the write cursor: the
    output grows by that byte and the gap between the cursors keeps its
    length. *)
Lemma copy_byte (out stale : list Z) (c : Z) (T : list Z) :
  exists stale',
    length stale' = length stale /\
    <[length out := c]> (out ++ stale ++ c :: T) = (out ++ [c]) ++ stale' ++ T /\
    (forall k, drop (S k) (stale ++ c :: T) = drop k (stale' ++ T)).
Proof.
  destruct stale as [|s st].
  - exists []. split; [reflexivity|]. split.
    + cbn [app]. rewrite insert_after. rewrite <- app_assoc. reflexivity.
    + intros k. reflexivity.
  - exists (st ++ [c]). split; [rewrite length_app; cbn; lia|]. split.
    + cbn [app]. rewrite insert_after. rewrite <- !app_assoc. reflexivity.
    + intros k. cbn [app drop]. rewrite <- app_assoc. reflexivity.
Qed.

Module MinifyFacts.
Import Minify.

Definition nonzero (b : Z) : Prop := b <> 0.

Lemma byte_at_cursor (out stale X : list Z) (k : nat) :
  byte_at (out ++ stale ++ X) (length out + length stale + k) = byte_at X k.
Proof.
  rewrite app_assoc, <- length_app. apply byte_at_app_r.
Qed.

Lemma byte_at_cursor0 (out stale X : list Z) :
  byte_at (out ++ stale ++ X) (length out + length stale) = byte_at X 0.
Proof.
  rewrite <- (Nat.add_0_r (length out + length stale)).
  apply byte_at_cursor.
Qed.

Lemma byte_at_cursor1 (out stale : list Z) (c : Z) (X : list Z) :
  byte_at (out ++ stale ++ c :: X) (length out + length stale + 1) = byte_at X 0.
Proof. rewrite byte_at_cursor. reflexivity. Qed.

Lemma kept_length m s : (length (kept m s) <= length s)%nat.
Proof.
  remember (length s) as n eqn:Hn.
  revert m s Hn. induction n as [n IH] using lt_wf_ind.
  intros m [|c r] ->; [destruct m; cbn; lia|].
  destruct m; cbn [kept]; repeat case_match; subst; cbn [length];
    repeat match goal with
    | |- context [kept ?m' ?s'] =>
        lazymatch goal with
        | H : (length (kept m' s') <= _)%nat |- _ => fail
        | _ => assert (length (kept m' s') <= length s')%nat
                 by (eapply IH; [|reflexivity]; cbn; lia)
        end
    end; cbn [length] in *; lia.
Qed.

(** The one-line comment skipper stops after the newline or at the nul. *)
Lemma skip_oneline_loop_spec (rest : list Z) :
  forall (pre T : list Z) (fuel : nat),
    Forall nonzero rest -> (length rest <= fuel)%nat ->
    exists p rest',
      rest = p ++ rest' /\
      skip_oneline_loop fuel (pre ++ rest ++ 0 :: T) (length pre)
        = (length pre + length p)%nat /\
      kept LineComment rest = kept Outside rest'.
Proof.
  induction rest as [|c r IH]; intros pre T fuel Hnz Hfuel.
  - exists [], []. split; [reflexivity|]. split; [|reflexivity].
    destruct fuel; cbn [skip_oneline_loop length]; [lia|].
    rewrite byte_at_app_r0. cbn. lia.
  - destruct fuel as [|fuel]; [cbn in Hfuel; lia|].
    inversion Hnz as [|? ? Hc Hr]; subst.
    cbn [skip_oneline_loop]. rewrite byte_at_app_r0. cbn [app byte_at nth].
    destruct (Z.eqb_spec c 0) as [?|_]; [contradiction|].
    destruct (Z.eqb_spec c 10) as [->|Hnl].
    + exists [10], r. split; [reflexivity|]. split; [reflexivity|].
      reflexivity.
    + destruct (IH (pre ++ [c]) T fuel Hr) as (p & rest' & -> & Hloop & Hk).
      { cbn in Hfuel. lia. }
      exists (c :: p), rest'. split; [reflexivity|]. split.
      * rewrite <- app_assoc in Hloop. cbn [app] in Hloop.
        rewrite length_app in Hloop. cbn [length] in Hloop.
        rewrite Hloop. cbn [length]. lia.
      * cbn [kept]. destruct (Z.eqb_spec c 10); [contradiction|]. exact Hk.
Qed.

(** The block comment skipper stops after the closing marker or at the nul. *)
Lemma skip_multiline_loop_spec (n : nat) :
  forall (rest pre T : list Z) (fuel : nat),
    (length rest <= n)%nat ->
    Forall nonzero rest -> (length rest <= fuel)%nat ->
    exists p rest',
      rest = p ++ rest' /\
      skip_multiline_loop fuel (pre ++ rest ++ 0 :: T) (length pre)
        = (length pre + length p)%nat /\
      kept BlockComment rest = kept Outside rest'.
Proof.
  induction n as [|n IH]; intros rest pre T fuel Hn Hnz Hfuel.
  - destruct rest; [|cbn in Hn; lia].
    exists [], []. split; [reflexivity|]. split; [|reflexivity].
    destruct fuel; cbn [skip_multiline_loop length]; [lia|].
    rewrite byte_at_app_r0. cbn. lia.
  - destruct rest as [|c r].
    { exists [], []. split; [reflexivity|]. split; [|reflexivity].
      destruct fuel; cbn [skip_multiline_loop length]; [lia|].
      rewrite byte_at_app_r0. cbn. lia. }
    destruct fuel as [|fuel]; [cbn in Hfuel; lia|].
    inversion Hnz as [|? ? Hc Hr]; subst.
    cbn [skip_multiline_loop]. rewrite byte_at_app_r0.
    rewrite byte_at_app_r. cbn [app byte_at nth].
    destruct (Z.eqb_spec c 0) as [?|_]; [contradiction|].
    assert (Hrec : exists p rest',
               r = p ++ rest' /\
               skip_multiline_loop fuel (pre ++ c :: r ++ 0 :: T)
                 (length pre + 1) = (length pre + 1 + length p)%nat /\
               kept BlockComment r = kept Outside rest').
    { destruct (IH r (pre ++ [c]) T fuel) as (p & rest' & -> & Hloop & Hk);
        [cbn in Hn; lia|exact Hr|cbn in Hfuel; lia|].
      exists p, rest'. split; [reflexivity|]. split; [|exact Hk].
      rewrite <- app_assoc in Hloop. cbn [app] in Hloop.
      rewrite length_app in Hloop. cbn [length] in Hloop. exact Hloop. }
    destruct (Z.eqb_spec c 42) as [->|Hstar]; cbn [andb].
    + destruct r as [|c2 r'].
      * cbn [app nth]. cbn [Z.eqb].
        destruct Hrec as (p & rest' & Hp & Hloop & Hk). cbn [app] in Hloop.
        exists (42 :: p), rest'. split; [rewrite Hp; reflexivity|].
        split; [rewrite Hloop; cbn [length]; lia|].
        cbn [kept]. cbn [Z.eqb Pos.eqb].
        symmetry in Hp. apply app_eq_nil in Hp as [-> ->]. reflexivity.
      * cbn [app nth].
        destruct (Z.eqb_spec c2 47) as [->|Hsl].
        -- exists [42; 47], r'. split; [reflexivity|]. split; [reflexivity|].
           reflexivity.
        -- destruct Hrec as (p & rest' & Hp & Hloop & Hk). cbn [app] in Hloop.
           exists (42 :: p), rest'. split; [rewrite Hp; reflexivity|].
           split; [rewrite Hloop; cbn [length]; lia|].
           cbn [kept]. cbn [Z.eqb Pos.eqb].
           destruct (Z.eqb_spec c2 47); [contradiction|]. exact Hk.
    + destruct Hrec as (p & rest' & Hp & Hloop & Hk).
      exists (c :: p), rest'. split; [rewrite Hp; reflexivity|].
      split; [rewrite Hloop; cbn [length]; lia|].
      cbn [kept]. destruct (Z.eqb_spec c 42); [contradiction|]. exact Hk.
Qed.

Lemma minify_string_loop_nil (out stale T : list Z) (fuel : nat) :
  minify_string_loop fuel (out ++ stale ++ [] ++ 0 :: T)
      (length out + length stale) (length out)
  = ((out ++ []) ++ stale ++ [] ++ 0 :: T,
     (length out + length stale + 0)%nat, (length out + 0)%nat).
Proof.
  rewrite app_nil_r, !Nat.add_0_r.
  destruct fuel; cbn [minify_string_loop]; [reflexivity|].
  rewrite byte_at_cursor0. reflexivity.
Qed.

(** The string copier copies a prefix [p] of the unread text verbatim and
    hands back the cursors just behind it. *)
Lemma minify_string_loop_spec (n : nat) :
  forall (rest out stale T : list Z) (fuel : nat),
    (length rest <= n)%nat ->
    Forall nonzero rest -> (length rest <= fuel)%nat ->
    exists p rest' stale',
      rest = p ++ rest' /\
      length stale' = length stale /\
      minify_string_loop fuel (out ++ stale ++ rest ++ 0 :: T)
          (length out + length stale) (length out)
        = ((out ++ p) ++ stale' ++ rest' ++ 0 :: T,
           (length out + length stale + length p)%nat,
           (length out + length p)%nat) /\
      kept InString rest = p ++ kept Outside rest' /\
      (forall k, drop (length p + k) (stale ++ rest ++ 0 :: T)
                 = drop k (stale' ++ rest' ++ 0 :: T)).
Proof.
  induction n as [|n IH]; intros rest out stale T fuel Hn Hnz Hfuel.
  all: destruct rest as [|c r]; [|try (cbn in Hn; lia)].
  1,2: exists [], [], stale; split; [reflexivity|]; split; [reflexivity|];
       split; [apply minify_string_loop_nil|];
       split; [reflexivity|intros k; reflexivity].
  destruct fuel as [|fuel]; [cbn in Hfuel; lia|].
  inversion Hnz as [|? ? Hc Hr]; subst.
  cbn [minify_string_loop app].
  rewrite byte_at_insert_self.
  rewrite (byte_at_insert_ne _ (length out) (length out + length stale + 1))
    by lia.
  rewrite byte_at_cursor0, byte_at_cursor1. cbn [byte_at nth app].
  destruct (Z.eqb_spec c 0) as [?|_]; [contradiction|].
  destruct (copy_byte out stale c (r ++ 0 :: T))
    as (stale1 & Hlen1 & Hbuf1 & Hdrop1).
  rewrite Hbuf1.
  destruct (Z.eqb_spec c 34) as [->|Hq].
  { exists [34], r, stale1. split; [reflexivity|]. split; [exact Hlen1|].
    split; [|split].
    - rewrite <- Hbuf1, list_insert_insert_eq, Hbuf1. reflexivity.
    - reflexivity.
    - intros k. apply Hdrop1. }
  assert (Hplain :
    exists p rest' stale',
      c :: r = p ++ rest' /\ length stale' = length stale /\
      minify_string_loop fuel ((out ++ [c]) ++ stale1 ++ r ++ 0 :: T)
          (length out + length stale + 1) (length out + 1)
        = ((out ++ p) ++ stale' ++ rest' ++ 0 :: T,
           (length out + length stale + length p)%nat,
           (length out + length p)%nat) /\
      c :: kept InString r = p ++ kept Outside rest' /\
      (forall k, drop (length p + k) (stale ++ (c :: r) ++ 0 :: T)
                 = drop k (stale' ++ rest' ++ 0 :: T))).
  { destruct (IH r (out ++ [c]) stale1 T fuel)
      as (p & rest' & stale' & -> & Hlen & Hloop & Hk & Hdrop);
      [cbn in Hn; lia|exact Hr|cbn in Hfuel; lia|].
    exists (c :: p), rest', stale'. split; [reflexivity|].
    split; [lia|]. split; [|split].
    - rewrite length_app in Hloop. cbn [length] in Hloop.
      replace (length out + length stale + 1)%nat
        with (length out + 1 + length stale1)%nat by lia.
      rewrite Hloop. rewrite <- !app_assoc. cbn [app length].
      f_equal; [f_equal|]; lia.
    - rewrite Hk. reflexivity.
    - intros k. cbn [length app Nat.add]. rewrite Hdrop1. apply Hdrop. }
  destruct (Z.eqb_spec c 92) as [->|Hbs]; cbn [andb].
  2:{ destruct Hplain as (p & rest' & stale' & Hp & Hlen & Hloop & Hk & Hdrop).
      exists p, rest', stale'. split; [exact Hp|]. split; [exact Hlen|].
      split; [exact Hloop|]. split; [|exact Hdrop].
      cbn [kept]. destruct (Z.eqb_spec c 34); [contradiction|].
      destruct (Z.eqb_spec c 92); [contradiction|]. exact Hk. }
  destruct r as [|c2 r'].
  { cbn [app nth byte_at Z.eqb].
    destruct Hplain as (p & rest' & stale' & Hp & Hlen & Hloop & Hk & Hdrop).
    exists p, rest', stale'. split; [exact Hp|]. split; [exact Hlen|].
    split; [exact Hloop|]. split; [|exact Hdrop].
    cbn [kept Z.eqb Pos.eqb]. cbn [kept] in Hk. exact Hk. }
  cbn [app nth byte_at].
  destruct (Z.eqb_spec c2 34) as [->|Hq2].
  2:{ destruct Hplain as (p & rest' & stale' & Hp & Hlen & Hloop & Hk & Hdrop).
      exists p, rest', stale'. split; [exact Hp|]. split; [exact Hlen|].
      split; [exact Hloop|]. split; [|exact Hdrop].
      cbn [kept Z.eqb Pos.eqb] in Hk |- *.
      destruct (Z.eqb_spec c2 34); [contradiction|]. exact Hk. }
  clear Hplain.
  destruct (copy_byte (out ++ [92]) stale1 34 (r' ++ 0 :: T))
    as (stale2 & Hlen2 & Hbuf2 & Hdrop2).
  rewrite length_app in Hbuf2. cbn [length] in Hbuf2.
  cbn [app] in Hbuf2 |- *. rewrite Hbuf2.
  inversion Hr as [|? ? _ Hr']; subst.
  destruct (IH r' ((out ++ [92]) ++ [34]) stale2 T fuel)
    as (p & rest' & stale' & -> & Hlen & Hloop & Hk & Hdrop);
    [cbn in Hn; lia|exact Hr'|cbn in Hfuel; lia|].
  exists (92 :: 34 :: p), rest', stale'. split; [reflexivity|].
  split; [lia|]. split; [|split].
  - rewrite !length_app in Hloop. cbn [length] in Hloop.
    replace (length out + length stale + 1 + 1)%nat
      with (length out + 1 + 1 + length stale2)%nat by lia.
    rewrite Hloop. rewrite <- !app_assoc. cbn [app length].
    f_equal; [f_equal|]; lia.
  - cbn [kept Z.eqb Pos.eqb]. rewrite Hk. reflexivity.
  - intros k. cbn [length app Nat.add] in Hdrop1 |- *.
    rewrite (Hdrop1 (S (length p + k))). cbn [app]. rewrite Hdrop2.
    apply Hdrop.
Qed.

(** The main loop: with the output so far in [out], a gap [stale] between
    the cursors and the unread text [rest], the loop overwrites the bytes
    after [out] with the kept bytes of [rest] and touches nothing else. *)
Lemma minify_loop_spec (n : nat) :
  forall (rest out stale T : list Z) (fuel : nat),
    (length rest <= n)%nat ->
    Forall nonzero rest -> (length rest <= fuel)%nat ->
    minify_loop fuel (out ++ stale ++ rest ++ 0 :: T)
        (length out + length stale) (length out)
    = (out ++ kept Outside rest
           ++ drop (length (kept Outside rest)) (stale ++ rest ++ 0 :: T),
       (length out + length (kept Outside rest))%nat).
Proof.
  induction n as [|n IH]; intros rest out stale T fuel Hn Hnz Hfuel.
  all: destruct rest as [|c r]; [|try (cbn in Hn; lia)].
  1,2: cbn [kept length app drop]; rewrite Nat.add_0_r;
       destruct fuel; cbn [minify_loop]; [reflexivity|];
       rewrite byte_at_cursor0; reflexivity.
  destruct fuel as [|fuel]; [cbn in Hfuel; lia|].
  inversion Hnz as [|? ? Hc Hr]; subst.
  assert (Hskip : forall (skipped rest' : list Z),
            r = skipped ++ rest' ->
            minify_loop fuel (out ++ stale ++ c :: r ++ 0 :: T)
              (length out + length stale + 1 + length skipped) (length out)
            = (out ++ kept Outside rest'
                 ++ drop (length (kept Outside rest'))
                      (stale ++ c :: r ++ 0 :: T),
               (length out + length (kept Outside rest'))%nat)).
  { intros skipped rest' ->.
    apply Forall_app in Hr as [_ Hr'].
    cbn [length] in Hn, Hfuel. rewrite length_app in Hn, Hfuel.
    pose proof (IH rest' out (stale ++ c :: skipped) T fuel) as IH'.
    rewrite length_app in IH'. cbn [length] in IH'.
    rewrite <- !app_assoc in IH'. cbn [app] in IH'.
    rewrite <- !app_assoc.
    replace (length out + length stale + 1 + length skipped)%nat
      with (length out + (length stale + S (length skipped)))%nat by lia.
    apply IH'; [lia|exact Hr'|lia]. }
  pose proof (Hskip [] r eq_refl) as Hskip0.
  cbn [length] in Hskip0. rewrite Nat.add_0_r in Hskip0.
  cbn [minify_loop app].
  rewrite byte_at_cursor0, byte_at_cursor1. cbn [byte_at nth].
  destruct (Z.eqb_spec c 0) as [?|_]; [contradiction|].
  cbn [kept].
  destruct ((c =? 32) || (c =? 9) || (c =? 13) || (c =? 10)) eqn:Hws.
  { exact Hskip0. }
  destruct (Z.eqb_spec c 47) as [->|Hsl].
  { destruct r as [|c2 r'].
    - cbn [app nth byte_at Z.eqb] in Hskip0 |- *. rewrite Hskip0. reflexivity.
    - cbn [app nth byte_at] in Hskip, Hskip0 |- *.
      inversion Hr as [|? ? Hc2 Hr']; subst.
      destruct (Z.eqb_spec c2 47) as [->|Hnsl].
      + unfold skip_oneline_comment.
        remember (length (out ++ stale ++ 47 :: 47 :: r' ++ 0 :: T)) as F
          eqn:HF.
        destruct (skip_oneline_loop_spec r' (out ++ stale ++ [47; 47]) T F Hr')
          as (p & rest' & Hp & Hloop & Hk).
        { subst F. rewrite !length_app. cbn [length]. rewrite length_app. lia. }
        rewrite <- !app_assoc in Hloop. cbn [app] in Hloop.
        rewrite !length_app in Hloop. cbn [length] in Hloop.
        replace (length out + length stale + 2)%nat
          with (length out + (length stale + 2))%nat by lia.
        rewrite Hloop.
        replace (length out + (length stale + 2) + length p)%nat
          with (length out + length stale + 1 + length (47%Z :: p))%nat
          by (cbn [length]; lia).
        rewrite (Hskip (47 :: p) rest') by (rewrite Hp; reflexivity).
        rewrite Hk. reflexivity.
      + destruct (Z.eqb_spec c2 42) as [->|Hnst].
        * unfold skip_multiline_comment.
          remember (length (out ++ stale ++ 47 :: 42 :: r' ++ 0 :: T)) as F
            eqn:HF.
          destruct (skip_multiline_loop_spec (length r') r'
                      (out ++ stale ++ [47; 42]) T F (Nat.le_refl _) Hr')
            as (p & rest' & Hp & Hloop & Hk).
          { subst F. rewrite !length_app. cbn [length]. rewrite length_app.
            lia. }
          rewrite <- !app_assoc in Hloop. cbn [app] in Hloop.
          rewrite !length_app in Hloop. cbn [length] in Hloop.
          replace (length out + length stale + 2)%nat
            with (length out + (length stale + 2))%nat by lia.
          rewrite Hloop.
          replace (length out + (length stale + 2) + length p)%nat
            with (length out + length stale + 1 + length (42%Z :: p))%nat
            by (cbn [length]; lia).
          rewrite (Hskip (42 :: p) rest') by (rewrite Hp; reflexivity).
          rewrite Hk. reflexivity.
        * exact Hskip0. }
  destruct (copy_byte out stale c (r ++ 0 :: T))
    as (stale1 & Hlen1 & Hbuf1 & Hdrop1).
  destruct (Z.eqb_spec c 34) as [->|Hq].
  { unfold minify_string. rewrite byte_at_cursor0. cbn [byte_at nth].
    rewrite Hbuf1.
    remember (length (out ++ stale ++ 34 :: r ++ 0 :: T)) as F eqn:HF.
    destruct (minify_string_loop_spec (length r) r (out ++ [34]) stale1 T F
                (Nat.le_refl _) Hr)
      as (p & rest' & stale' & Hp & Hlen & Hloop & Hk & Hdrop).
    { subst F. rewrite !length_app. cbn [length]. rewrite length_app. lia. }
    rewrite length_app in Hloop. cbn [length] in Hloop.
    replace (length out + length stale + 1)%nat
      with (length out + 1 + length stale1)%nat by lia.
    rewrite Hloop.
    pose proof (IH rest' ((out ++ [34]) ++ p) stale' T fuel) as IH'.
    rewrite !length_app in IH'. cbn [length] in IH'.
    replace (length out + 1 + length stale1 + length p)%nat
      with (length out + 1 + length p + length stale')%nat by lia.
    rewrite IH'.
    - rewrite Hk. rewrite <- !app_assoc. cbn [app length].
      rewrite length_app. f_equal; [|lia].
      do 2 f_equal. rewrite <- app_assoc. do 2 f_equal.
      rewrite Hdrop1. rewrite <- Hdrop. reflexivity.
    - subst r. cbn [length] in Hn. rewrite length_app in Hn. lia.
    - subst r. apply Forall_app in Hr as [_ Hr']. exact Hr'.
    - subst r. cbn [length] in Hfuel. rewrite length_app in Hfuel. lia. }
  rewrite Hbuf1.
  pose proof (IH r (out ++ [c]) stale1 T fuel) as IH'.
  rewrite length_app in IH'. cbn [length] in IH'.
  replace (length out + length stale + 1)%nat
    with (length out + 1 + length stale1)%nat by lia.
  rewrite IH'; [|cbn in Hn; lia|exact Hr|cbn in Hfuel; lia].
  rewrite <- !app_assoc. cbn [app length]. f_equal; [|lia].
  do 3 f_equal. rewrite Hdrop1. reflexivity.
Qed.

Lemma kept_nonzero m s : Forall nonzero s -> Forall nonzero (kept m s).
Proof.
  remember (length s) as n eqn:Hn.
  revert m s Hn. induction n as [n IH] using lt_wf_ind.
  intros m [|c r] -> Hnz; [destruct m; constructor|].
  inversion Hnz as [|? ? Hc Hr]; subst.
  assert (Hrec : forall m' s', (length s' <= length r)%nat ->
                   Forall nonzero s' -> Forall nonzero (kept m' s')).
  { intros m' s' Hle Hs'. eapply IH; [|reflexivity|exact Hs'].
    cbn [length]. lia. }
  destruct m; cbn [kept]; repeat case_match; subst;
    repeat match goal with
    | H : Forall nonzero (_ :: _) |- _ =>
        let a := fresh in let b := fresh in
        inversion H as [|? ? a b]; subst; clear H
    end;
    repeat constructor; try assumption;
    apply Hrec; try (cbn [length]; lia); repeat constructor; assumption.
Qed.

(** Inside a string the first byte is always kept. *)
Lemma kept_string_head c r : exists X, kept InString (c :: r) = c :: X.
Proof. cbn [kept]. repeat case_match; eauto. Qed.

(** Scanning the kept bytes again keeps all of them. *)
Lemma kept_idempotent (n : nat) :
  forall s, (length s <= n)%nat ->
    (forall m, m <> InString -> kept Outside (kept m s) = kept m s) /\
    kept InString (kept InString s) = kept InString s.
Proof.
  induction n as [|n IH]; intros s Hn.
  { destruct s; [|cbn in Hn; lia]. split; [intros [] _|]; reflexivity. }
  destruct s as [|c r]; [split; [intros [] _|]; reflexivity|].
  cbn [length] in Hn.
  assert (Hout : forall s' m, (length s' <= length r)%nat -> m <> InString ->
                   kept Outside (kept m s') = kept m s').
  { intros s' m Hle. apply IH. lia. }
  assert (Hstr : forall s', (length s' <= length r)%nat ->
                   kept InString (kept InString s') = kept InString s').
  { intros s' Hle. apply IH. lia. }
  split.
  - intros m Hm. destruct m; [|contradiction| |].
    + cbn [kept].
      destruct ((c =? 32) || (c =? 9) || (c =? 13) || (c =? 10)) eqn:Hws.
      { apply Hout; [lia|discriminate]. }
      destruct (Z.eqb_spec c 47) as [->|Hsl].
      { destruct r as [|c2 r']; [reflexivity|].
        repeat case_match;
          apply Hout; cbn [length]; try lia; discriminate. }
      destruct (Z.eqb_spec c 34) as [->|Hq].
      { cbn [kept Z.eqb Pos.eqb orb]. rewrite Hstr by lia. reflexivity. }
      cbn [kept]. rewrite Hws.
      destruct (Z.eqb_spec c 47); [contradiction|].
      destruct (Z.eqb_spec c 34); [contradiction|].
      rewrite Hout by (try lia; discriminate). reflexivity.
    + cbn [kept]. case_match; apply Hout; try lia; discriminate.
    + cbn [kept]. repeat case_match; subst; try reflexivity;
        apply Hout; cbn [length]; try lia; discriminate.
  - cbn [kept].
    destruct (Z.eqb_spec c 34) as [->|Hq].
    { cbn [kept Z.eqb Pos.eqb]. rewrite Hout by (try lia; discriminate).
      reflexivity. }
    destruct (Z.eqb_spec c 92) as [->|Hbs].
    + destruct r as [|c2 r']; [reflexivity|].
      destruct (Z.eqb_spec c2 34) as [->|Hq2].
      * cbn [kept Z.eqb Pos.eqb]. rewrite Hstr by (cbn [length]; lia).
        reflexivity.
      * pose proof (Hstr (c2 :: r') (Nat.le_refl _)) as Hrec.
        destruct (kept_string_head c2 r') as [X HX].
        rewrite HX in Hrec |- *.
        change (kept InString (92 :: c2 :: X))
          with (if c2 =? 34 then 92 :: c2 :: kept InString X
                else 92 :: kept InString (c2 :: X)).
        destruct (Z.eqb_spec c2 34); [contradiction|].
        rewrite Hrec. reflexivity.
    + cbn [kept].
      destruct (Z.eqb_spec c 34); [contradiction|].
      destruct (Z.eqb_spec c 92); [contradiction|].
      rewrite Hstr by lia. reflexivity.
Qed.

(** What [cJSON_Minify] leaves in a buffer holding the text [c]: the kept
    bytes, a nul, and the old bytes behind it untouched. *)
Lemma cJSON_Minify_spec (c T : list Z) :
  Forall nonzero c ->
  cJSON_Minify (c ++ 0 :: T)
  = kept Outside c ++ 0 :: drop (S (length (kept Outside c))) (c ++ 0 :: T).
Proof.
  intros Hc. unfold cJSON_Minify.
  pose proof (minify_loop_spec (length c) c [] [] T (length (c ++ 0 :: T))
                (Nat.le_refl _) Hc) as Hloop.
  cbn [app length Nat.add] in Hloop. rewrite Hloop.
  2:{ rewrite length_app. lia. }
  pose proof (kept_length Outside c) as Hlen.
  destruct (lookup_lt_is_Some_2 (c ++ 0 :: T) (length (kept Outside c)))
    as [x Hx].
  { rewrite length_app. cbn [length]. lia. }
  rewrite (drop_S _ _ _ Hx).
  apply insert_after.
Qed.

Lemma text_of_app_nul (c T : list Z) :
  Forall nonzero c -> text_of (c ++ 0 :: T) = c.
Proof.
  induction 1 as [|b c Hb _ IH]; [reflexivity|].
  cbn [app text_of]. destruct (Z.eqb_spec b 0); [contradiction|].
  rewrite IH. reflexivity.
Qed.

(** C9: minifying an already minified buffer leaves every byte of it
    unchanged.  This holds for any nul-terminated buffer, hence for valid
    JSON texts without comments. *)
Theorem cJSON_Minify_idempotent (text rest : list Z) :
  Forall nonzero text ->
  cJSON_Minify (cJSON_Minify (text ++ 0 :: rest))
    = cJSON_Minify (text ++ 0 :: rest) /\
  text_of (cJSON_Minify (text ++ 0 :: rest)) = kept Outside text.
Proof.
  intros Htext.
  rewrite (cJSON_Minify_spec text rest Htext).
  pose proof (kept_nonzero Outside text Htext) as HK.
  split; [|apply text_of_app_nul; exact HK].
  rewrite (cJSON_Minify_spec _ _ HK).
  destruct (kept_idempotent (length text) text (Nat.le_refl _)) as [Hidem _].
  rewrite (Hidem Outside) by discriminate.
  do 2 f_equal.
  set (K := kept Outside text).
  change (K ++ 0 :: drop (S (length K)) (text ++ 0 :: rest))
    with (K ++ [0] ++ drop (S (length K)) (text ++ 0 :: rest)).
  rewrite app_assoc.
  replace (S (length K)) with (length (K ++ [0])) at 1
    by (rewrite length_app; cbn [length]; lia).
  apply drop_app_length.
Qed.

(** The theorem at a text with white space, both kinds of comment and a
    string holding an escaped quote. *)
Lemma cJSON_Minify_idempotent_witness :
  cJSON_Minify
    (cJSON_Minify
       ([32; 91; 47; 42; 120; 42; 47; 34; 97; 32; 92; 34; 34; 32; 44; 49;
         47; 47; 10; 93] ++ 0 :: [7]))
  = cJSON_Minify
      ([32; 91; 47; 42; 120; 42; 47; 34; 97; 32; 92; 34; 34; 32; 44; 49;
        47; 47; 10; 93] ++ 0 :: [7]) /\
  text_of
    (cJSON_Minify
       ([32; 91; 47; 42; 120; 42; 47; 34; 97; 32; 92; 34; 34; 32; 44; 49;
         47; 47; 10; 93] ++ 0 :: [7]))
  = kept Outside
      [32; 91; 47; 42; 120; 42; 47; 34; 97; 32; 92; 34; 34; 32; 44; 49;
       47; 47; 10; 93].
Proof.
  apply (cJSON_Minify_idempotent
           [32; 91; 47; 42; 120; 42; 47; 34; 97; 32; 92; 34; 34; 32; 44; 49;
            47; 47; 10; 93] [7]).
  unfold nonzero. repeat constructor; lia.
Defined.

End MinifyFacts.

(** ** Numbers *)

Module NumberFacts.








Section Writers.
Context `{Header} `{Libc}.



End Writers.



End NumberFacts.

(** ** Kinds *)

Section Kinds.
Context `{Header}.

Definition kinds : list Z :=
  [cJSON_False; cJSON_True; cJSON_NULL; cJSON_Number; cJSON_String;
   cJSON_Array; cJSON_Object; cJSON_Raw].

(** Two kinds are equal exactly when they stand at the same place of
    the list. *)
Lemma kind_eqb (x y : Z) (i j : nat) :
  kinds !! i = Some x -> kinds !! j = Some y -> (x =? y) = Nat.eqb i j.
Proof.
  intros Hi Hj. destruct (Nat.eqb_spec i j) as [->|Hne].
  - rewrite Hi in Hj. injection Hj as ->. apply Z.eqb_refl.
  - apply Z.eqb_neq. intros ->.
    apply Hne. exact (NoDup_lookup _ _ _ _ kinds_distinct Hi Hj).
Qed.

Lemma kind_low_byte (i : nat) (x : Z) :
  kinds !! i = Some x -> Z.land x 255 = x.
Proof.
  intros Hi. pose proof kinds_low_byte as Hall.
  rewrite Forall_lookup in Hall. exact (Hall i x Hi).
Qed.

End Kinds.

Ltac kind_index k :=
  lazymatch k with
  | cJSON_False => constr:(0%nat)
  | cJSON_True => constr:(1%nat)
  | cJSON_NULL => constr:(2%nat)
  | cJSON_Number => constr:(3%nat)
  | cJSON_String => constr:(4%nat)
  | cJSON_Array => constr:(5%nat)
  | cJSON_Object => constr:(6%nat)
  | cJSON_Raw => constr:(7%nat)
  end.

(** Decide the comparisons between kinds that occur in the goal. *)
Ltac kind_tests :=
  repeat match goal with
  | |- context [?x =? ?y] =>
      let i := kind_index x in
      let j := kind_index y in
      rewrite (kind_eqb x y i j eq_refl eq_refl); cbn [Nat.eqb]
  end.

(** ** Printing numbers *)

Module PrintFacts.
Import Printer.

Section WithEnvironment.
Context `{Header} `{Libc}.

(** The text of a NaN or an infinity does not depend on the mirror. *)
Lemma number_text_nonfinite (node : cJSON) :
  isnan (valuedouble node) || isinf (valuedouble node) = true ->
  number_text node = [110; 117; 108; 108].
Proof. unfold number_text. intros ->. reflexivity. Qed.

(** [print_value] on a node whose kind is Number is [print_number]. *)
Lemma print_value_number (node : cJSON) (children : list tree)
    (p : printbuffer) :
  Z.land (type node) 255 = cJSON_Number ->
  print_value (Tree node children) p = print_number node p.
Proof.
  intros Hk. cbn [print_value]. rewrite Hk. kind_tests. reflexivity.
Qed.

(** C5: a Number node holding NaN or an infinity prints as [null], and
    the print succeeds, whatever the integer mirror holds.  The radix
    character of the locale is taken not to be a letter of [null]. *)
Theorem nonfinite_number_prints_null (node : cJSON) (children : list tree)
    (fmt : bool) :
  Z.land (type node) 255 = cJSON_Number ->
  isnan (valuedouble node) || isinf (valuedouble node) = true ->
  decimal_point <> 110 /\ decimal_point <> 117 /\ decimal_point <> 108 ->
  number_text node = [110; 117; 108; 108] /\
  print (Tree node children) fmt = Some [110; 117; 108; 108].
Proof.
  intros Hk Hnf (Hn & Hu & Hl).
  pose proof (number_text_nonfinite node Hnf) as Htext.
  split; [exact Htext|].
  unfold print. rewrite (print_value_number _ _ _ Hk).
  unfold print_number. rewrite Htext.
  cbn [List.length Nat.ltb Nat.leb map].
  destruct (Z.eqb_spec 110 decimal_point) as [E|_]; [congruence|].
  destruct (Z.eqb_spec 117 decimal_point) as [E|_]; [congruence|].
  destruct (Z.eqb_spec 108 decimal_point) as [E|_]; [congruence|].
  reflexivity.
Qed.

End WithEnvironment.

(** The theorem at a node holding NaN whose mirror holds 7, printed with
    formatting in the C locale. *)
Lemma nonfinite_number_prints_null_witness :
  @print Release.header CLocale.libc
    (Tree (mk_cJSON None None None 8 None 7 S754_nan None) []) true
  = Some [110; 117; 108; 108].
Proof.
  apply (@nonfinite_number_prints_null Release.header CLocale.libc
           (mk_cJSON None None None 8 None 7 S754_nan None) [] true).
  - reflexivity.
  - reflexivity.
  - cbn. repeat split; discriminate.
Defined.

End PrintFacts.

(** ** The byte order mark *)

Module BomFacts.
Import Parser.

(** [skip_utf8_bom] consumes the mark only when the buffer holds at
    least five bytes. *)
Lemma skip_utf8_bom_needs_five_bytes (content : list Z) (n : nat) :
  (n < 5)%nat ->
  skip_utf8_bom (mk_parse_buffer content n 0 0)
  = Some (mk_parse_buffer content n 0 0).
Proof.
  intros Hn. unfold skip_utf8_bom, can_access_at_index.
  cbn [offset length Nat.eqb negb Nat.add].
  destruct (Nat.ltb_spec 4 n); [lia|]. reflexivity.
Qed.

(** C8 at the four bytes EF BB BF 31 handed over with their length: the
    mark is not consumed and the parse fails, while the byte 31 alone
    parses to the number 1, and so does the marked text when it is
    handed over as a C string, whose nul counts as a fifth byte. *)
Lemma bom_before_one_byte_value :
  @cJSON_ParseWithLength Release.header CLocale.libc [239; 187; 191; 49] 4
    = None /\
  @cJSON_ParseWithLength Release.header CLocale.libc [49] 1
    = Some (Tree (mk_cJSON None None None 8 None 1
                    (S754_finite false 4503599627370496 (-52)) None) []) /\
  @cJSON_Parse Release.header CLocale.libc [239; 187; 191; 49]
    = Some (Tree (mk_cJSON None None None 8 None 1
                    (S754_finite false 4503599627370496 (-52)) None) []).
Proof. vm_compute. repeat split. Qed.

End BomFacts.

(** ** Sibling lists in memory *)

Module StoreFacts.
Import Store.

(** *** Running heap computations *)

Lemma bind_load {B} (a : addr) (n : cJSON) (k : cJSON -> M B) (h : heap) :
  h !! a = Some n -> bind (load (Some a)) k h = k n h.
Proof. intros Hn. unfold bind, load. rewrite Hn. reflexivity. Qed.

Lemma bind_store {B} (a : addr) (n : cJSON) (f : cJSON -> cJSON)
    (k : unit -> M B) (h : heap) :
  h !! a = Some n -> bind (store (Some a) f) k h = k tt (<[a := f n]> h).
Proof. intros Hn. unfold bind, store. rewrite Hn. reflexivity. Qed.

Lemma bind_ret {A B} (x : A) (k : A -> M B) (h : heap) :
  bind (ret x) k h = k x h.
Proof. reflexivity. Qed.

Lemma bind_assoc {A B C} (c : M A) (k1 : A -> M B) (k2 : B -> M C) (h : heap) :
  bind (bind c k1) k2 h = bind c (fun x => bind (k1 x) k2) h.
Proof. unfold bind. destruct (c h) as [[x h']|]; reflexivity. Qed.

(** *** Segments *)

Lemma dseg_frame (h h' : heap) (pp p : option addr) (l : list addr)
    (qn : option addr) :
  (forall a, a ∈ l -> h' !! a = h !! a) ->
  dseg h pp p l qn -> dseg h' pp p l qn.
Proof.
  revert pp p. induction l as [|a l IH]; intros pp p Hsame Hseg; [exact Hseg|].
  destruct Hseg as (-> & n & Hn & Hprev & Hrest).
  split; [reflexivity|]. exists n. split.
  - rewrite Hsame by set_solver. exact Hn.
  - split; [exact Hprev|]. apply IH; [|exact Hrest].
    intros b Hb. apply Hsame. set_solver.
Qed.

Lemma dseg_insert_ne (h : heap) (pp p : option addr) (l : list addr)
    (qn : option addr) (a : addr) (n : cJSON) :
  a ∉ l -> dseg h pp p l qn -> dseg (<[a := n]> h) pp p l qn.
Proof.
  intros Ha. apply dseg_frame. intros b Hb.
  apply lookup_insert_ne. intros ->. contradiction.
Qed.

Lemma dseg_delete_ne (h : heap) (pp p : option addr) (l : list addr)
    (qn : option addr) (a : addr) :
  a ∉ l -> dseg h pp p l qn -> dseg (delete a h) pp p l qn.
Proof.
  intros Ha. apply dseg_frame. intros b Hb.
  apply lookup_delete_ne. intros ->. contradiction.
Qed.

Lemma last_or_cons (pp : option addr) (a : addr) (l : list addr) :
  last_or pp (a :: l) = last_or (Some a) l.
Proof.
  unfold last_or. destruct l as [|b l]; [reflexivity|].
  rewrite last_cons_cons. destruct (last (b :: l)) eqn:E; [reflexivity|].
  apply last_None in E. discriminate.
Qed.

Lemma dseg_app (h : heap) (pp p : option addr) (l1 l2 : list addr)
    (qn : option addr) :
  dseg h pp p (l1 ++ l2) qn <->
  exists m, dseg h pp p l1 m /\ dseg h (last_or pp l1) m l2 qn.
Proof.
  revert pp p. induction l1 as [|a l1 IH]; intros pp p.
  - cbn [app dseg]. unfold last_or. cbn [last]. split.
    + intros Hseg. exists p. split; [reflexivity|exact Hseg].
    + intros (m & -> & Hseg). exact Hseg.
  - cbn [app dseg]. rewrite last_or_cons. split.
    + intros (-> & n & Hn & Hprev & Hrest).
      apply IH in Hrest as (m & H1 & H2).
      exists m. split; [|exact H2].
      split; [reflexivity|]. exists n. auto.
    + intros (m & (-> & n & Hn & Hprev & H1) & H2).
      split; [reflexivity|]. exists n. split; [exact Hn|].
      split; [exact Hprev|]. apply IH. exists m. auto.
Qed.

(** A segment fixes the nodes [next] visits. *)
Lemma dseg_next_chain (h : heap) (pp p : option addr) (l : list addr) :
  dseg h pp p l None -> next_chain h p l.
Proof.
  revert pp p. induction l as [|a l IH]; intros pp p Hseg; [exact Hseg|].
  destruct Hseg as (-> & n & Hn & _ & Hrest).
  split; [reflexivity|]. split; [rewrite Hn; eauto|].
  unfold next_of. rewrite Hn. eapply IH. exact Hrest.
Qed.

Lemma next_chain_functional (h : heap) (p : option addr) (l1 l2 : list addr) :
  next_chain h p l1 -> next_chain h p l2 -> l1 = l2.
Proof.
  revert p l2. induction l1 as [|a l1 IH]; intros p [|b l2] H1 H2.
  - reflexivity.
  - cbn in H1, H2. destruct H2 as [H2 _]. congruence.
  - cbn in H1, H2. destruct H1 as [H1 _]. congruence.
  - destruct H1 as (-> & _ & H1), H2 as ([= <-] & _ & H2).
    f_equal. eapply IH; eauto.
Qed.

Lemma next_chain_app (h : heap) (p : option addr) (l1 : list addr) (a : addr)
    (l2 : list addr) :
  next_chain h p (l1 ++ a :: l2) -> next_chain h (Some a) (a :: l2).
Proof.
  revert p. induction l1 as [|b l1 IH]; intros p Hc.
  - destruct Hc as (-> & Hc). split; [reflexivity|exact Hc].
  - destruct Hc as (_ & _ & Hc). eapply IH. exact Hc.
Qed.

(** A chain that ends in NULL visits no node twice. *)
Lemma next_chain_NoDup (h : heap) (p : option addr) (l : list addr) :
  next_chain h p l -> NoDup l.
Proof.
  revert p. induction l as [|a l IH]; intros p Hc; [constructor|].
  destruct Hc as (-> & Ha & Hc). constructor; [|eapply IH; exact Hc].
  intros Hin. apply list_elem_of_split in Hin as (l1 & l2 & ->).
  pose proof (next_chain_app _ _ _ _ _ Hc) as (_ & _ & Hc2).
  pose proof (next_chain_functional _ _ _ _ Hc Hc2) as Heq.
  apply (f_equal length) in Heq. rewrite length_app in Heq.
  cbn [length] in Heq. lia.
Qed.

Lemma dseg_NoDup (h : heap) (pp p : option addr) (l : list addr) :
  dseg h pp p l None -> NoDup l.
Proof. intros Hseg. eapply next_chain_NoDup, dseg_next_chain, Hseg. Qed.

(** Redirecting the [next] of the last node of a segment. *)
Lemma dseg_set_next_last (h : heap) (pp p : option addr) (l : list addr)
    (t : addr) (nt : cJSON) (q q' : option addr) :
  t ∉ l -> h !! t = Some nt ->
  dseg h pp p (l ++ [t]) q ->
  dseg (<[t := set_next q' nt]> h) pp p (l ++ [t]) q'.
Proof.
  intros Ht Hnt Hseg. apply dseg_app in Hseg as (m & H1 & H2).
  apply dseg_app. exists m. split.
  - apply dseg_insert_ne; assumption.
  - destruct H2 as (-> & n & Hn & Hprev & _).
    rewrite Hnt in Hn. injection Hn as <-.
    split; [reflexivity|]. exists (set_next q' nt).
    split; [apply lookup_insert_eq|]. split; [exact Hprev|reflexivity].
Qed.

(** Redirecting the [prev] of the first node of a segment. *)
Lemma dseg_set_prev_head (h : heap) (pp pp' : option addr) (a : addr)
    (n : cJSON) (l : list addr) (q : option addr) :
  a ∉ l -> h !! a = Some n ->
  dseg h pp (Some a) (a :: l) q ->
  dseg (<[a := set_prev pp' n]> h) pp' (Some a) (a :: l) q.
Proof.
  intros Ha Hn (_ & n' & Hn' & _ & Hrest).
  rewrite Hn in Hn'. injection Hn' as <-.
  split; [reflexivity|]. exists (set_prev pp' n).
  split; [apply lookup_insert_eq|]. split; [reflexivity|].
  apply dseg_insert_ne; assumption.
Qed.

End StoreFacts.

(** ** Reading a number *)

Module GetterFacts.
Import Store StoreFacts.

Section WithHeader.
Context `{Header}.

(** C10: on a NULL pointer and on a pointer to a node of the memory,
    [cJSON_GetNumberValue] returns and leaves the memory as it was.  It
    returns the double of the node when the kind of the node, in the low
    byte of [type], is Number, and otherwise, and for NULL, a NaN: a
    double that does not equal itself. *)
Theorem cJSON_GetNumberValue_reads_only (h : heap) (item : option addr) :
  (forall a, item = Some a -> is_Some (h !! a)) ->
  exists r,
    cJSON_GetNumberValue item h = Some (r, h) /\
    (forall a n, item = Some a -> h !! a = Some n ->
       Z.land (type n) 255 = cJSON_Number -> r = valuedouble n) /\
    (forall a n, item = Some a -> h !! a = Some n ->
       Z.land (type n) 255 <> cJSON_Number ->
       isnan r = true /\ d_eq r r = false) /\
    (item = None -> isnan r = true /\ d_eq r r = false).
Proof.
  intros Hvalid. unfold cJSON_GetNumberValue, cJSON_IsNumber.
  destruct item as [a|].
  - destruct (Hvalid a eq_refl) as [n Hn]. cbn [is_null].
    rewrite bind_assoc, (bind_load _ _ _ _ Hn), bind_ret.
    destruct (Z.eqb_spec (Z.land (type n) 255) cJSON_Number) as [Hk|Hk];
      cbn [negb].
    + rewrite (bind_load _ _ _ _ Hn). exists (valuedouble n).
      split; [reflexivity|]. split; [|split].
      * intros a' n' [= <-] Hn' _. rewrite Hn in Hn'. injection Hn' as <-.
        reflexivity.
      * intros a' n' [= <-] Hn' Hk'. rewrite Hn in Hn'. injection Hn' as <-.
        contradiction.
      * discriminate.
    + exists NAN. split; [reflexivity|]. split; [|split].
      * intros a' n' [= <-] Hn' Hk'. rewrite Hn in Hn'. injection Hn' as <-.
        contradiction.
      * intros _ _ _ _ _. split; reflexivity.
      * discriminate.
  - exists NAN. split; [reflexivity|]. split; [|split].
    + discriminate.
    + discriminate.
    + intros _. split; reflexivity.
Qed.

End WithHeader.

(** The theorem at a memory holding the number 1.5 at address 1 and a
    string node at address 2. *)
Lemma cJSON_GetNumberValue_reads_only_witness :
  let h : heap :=
    <[1%nat := set_valuedouble (S754_finite false 6755399441055744 (-52))
                 (set_type 8 cJSON_New_Item)]>
    (<[2%nat := set_valuedouble (S754_finite false 6755399441055744 (-52))
                  (set_type 16 cJSON_New_Item)]> ∅) in
  (exists r,
     @cJSON_GetNumberValue Release.header (Some 1%nat) h = Some (r, h) /\
     r = S754_finite false 6755399441055744 (-52)) /\
  (exists r,
     @cJSON_GetNumberValue Release.header (Some 2%nat) h = Some (r, h) /\
     isnan r = true).
Proof.
  intros h. split.
  - destruct (@cJSON_GetNumberValue_reads_only Release.header h (Some 1%nat))
      as (r & Hrun & Hnum & _).
    + intros a [= <-]. eexists. reflexivity.
    + exists r. split; [exact Hrun|].
      apply (Hnum 1%nat _ eq_refl eq_refl). reflexivity.
  - destruct (@cJSON_GetNumberValue_reads_only Release.header h (Some 2%nat))
      as (r & Hrun & _ & Hother & _).
    + intros a [= <-]. eexists. reflexivity.
    + exists r. split; [exact Hrun|].
      apply (Hother 2%nat _ eq_refl eq_refl). discriminate.
Defined.

End GetterFacts.

Module ListFacts.
Import Store StoreFacts.

(** The [next] of the last node of a segment is where the segment ends. *)
Lemma dseg_snoc_next (h : heap) (pp p : option addr) (l : list addr)
    (t : addr) (q : option addr) :
  dseg h pp p (l ++ [t]) q -> next_of h t = q.
Proof.
  intros Hseg. apply dseg_app in Hseg as (m & _ & (_ & n & Hn & _ & Hq)).
  unfold next_of. rewrite Hn. exact Hq.
Qed.

Lemma dseg_head_prev (h : heap) (pp p : option addr) (a : addr)
    (l : list addr) (q : option addr) :
  dseg h pp p (a :: l) q -> prev_of h a = pp /\ is_Some (h !! a).
Proof.
  intros (_ & n & Hn & Hprev & _). unfold prev_of. rewrite Hn. eauto.
Qed.

Lemma last_snoc_or (pp : option addr) (l : list addr) (t : addr) :
  last_or pp (l ++ [t]) = Some t.
Proof. unfold last_or. rewrite last_snoc. reflexivity. Qed.

(** The list form of the invariant gives the form the specification
    words. *)
Lemma sibling_list_invariant_of (h : heap) (parent : addr) (l : list addr) :
  sibling_list h parent l -> sibling_list_invariant h parent l.
Proof.
  intros (p & Hp & Hseg).
  assert (Hchild : child_of h parent = child p).
  { unfold child_of. rewrite Hp. reflexivity. }
  split; [rewrite Hp; eauto|].
  split; [rewrite Hchild; eapply dseg_next_chain; exact Hseg|].
  split; [|split; [|split]].
  - intros hd Hhd. destruct l as [|a l]; [discriminate|].
    injection Hhd as <-. eapply dseg_head_prev. exact Hseg.
  - intros N HN Hnothead.
    apply list_elem_of_split in HN as (l1 & l2 & ->).
    destruct l1 as [|b l1 _] using rev_ind; [cbn in Hnothead; congruence|].
    remember (last ((l1 ++ [b]) ++ N :: l2)) as pp eqn:Hpp. clear Hpp.
    apply dseg_app in Hseg as (m & H1 & H2).
    pose proof (dseg_snoc_next _ _ _ _ _ _ H1) as Hnext.
    destruct H2 as (-> & n & Hn & Hprev & _).
    rewrite last_snoc_or in Hprev.
    exists b. split; [unfold prev_of; rewrite Hn; exact Hprev|exact Hnext].
  - intros N HN Hnotlast.
    apply list_elem_of_split in HN as (l1 & l2 & ->).
    destruct l2 as [|b l2].
    { rewrite last_snoc in Hnotlast. congruence. }
    remember (last (l1 ++ N :: b :: l2)) as pp eqn:Hpp. clear Hpp.
    apply dseg_app in Hseg as (m & _ & (-> & n & Hn & _ & Hrest)).
    destruct Hrest as (Hb & nb & Hnb & Hprevb & _).
    exists b. split.
    + unfold next_of. rewrite Hn. exact Hb.
    + unfold prev_of. rewrite Hnb. exact Hprevb.
  - intros tl Htl. destruct l as [|a l _] using rev_ind; [discriminate|].
    rewrite last_snoc in Htl. injection Htl as <-.
    eapply dseg_snoc_next. exact Hseg.
Qed.

Lemma next_chain_dseg (h : heap) (l : list addr) :
  forall (pp p : option addr),
    next_chain h p l ->
    (forall hd, head l = Some hd -> prev_of h hd = pp) ->
    (forall N, (N ∈ l) -> last l <> Some N ->
       exists q, next_of h N = Some q /\ prev_of h q = Some N) ->
    dseg h pp p l None.
Proof.
  induction l as [|a l IH]; intros pp p Hchain Hhead Hmid; [exact Hchain|].
  pose proof (next_chain_NoDup _ _ _ Hchain) as Hnd.
  destruct Hchain as (-> & [n Hn] & Hchain).
  split; [reflexivity|]. exists n. split; [exact Hn|].
  split.
  { specialize (Hhead a eq_refl). unfold prev_of in Hhead.
    rewrite Hn in Hhead. exact Hhead. }
  unfold next_of in Hchain. rewrite Hn in Hchain.
  apply IH; [exact Hchain| |].
  - intros hd Hhd. destruct l as [|b l]; [discriminate|].
    injection Hhd as <-.
    destruct (Hmid a) as (q & Hq & Hprev); [apply list_elem_of_here| |].
    { rewrite last_cons_cons. intros Hlast.
      apply NoDup_cons in Hnd as [Ha _]. apply Ha.
      apply last_Some in Hlast as [l' Hl']. rewrite Hl'.
      apply elem_of_app. right. apply list_elem_of_here. }
    destruct Hchain as (Hb & _). unfold next_of in Hq. rewrite Hn in Hq.
    congruence.
  - intros N HN Hlast. apply Hmid; [apply list_elem_of_further; exact HN|].
    destruct l as [|b l]; [apply elem_of_nil in HN; contradiction|].
    rewrite last_cons_cons. exact Hlast.
Qed.

(** The form the specification words gives the list form. *)
Lemma sibling_list_of_invariant (h : heap) (parent : addr) (l : list addr) :
  sibling_list_invariant h parent l -> sibling_list h parent l.
Proof.
  intros ([p Hp] & Hchain & Hhead & _ & Hmid & _).
  exists p. split; [exact Hp|].
  unfold child_of in Hchain. rewrite Hp in Hchain.
  apply next_chain_dseg; assumption.
Qed.

End ListFacts.

Module AppendFacts.
Import Store StoreFacts ListFacts.

Lemma ptr_eq_ne (a b : addr) : a <> b -> ptr_eq (Some a) (Some b) = false.
Proof. intros Hne. apply bool_decide_eq_false_2. congruence. Qed.

Lemma ptr_eq_refl (p : option addr) : ptr_eq p p = true.
Proof. apply bool_decide_eq_true_2. reflexivity. Qed.

Lemma last_cons_Some (a : addr) (l : list addr) :
  exists t, last (a :: l) = Some t /\ exists lt, a :: l = lt ++ [t].
Proof.
  destruct (last (a :: l)) as [t|] eqn:Hlast.
  - exists t. split; [reflexivity|]. apply last_Some in Hlast. exact Hlast.
  - apply last_None in Hlast. discriminate.
Qed.

(** [add_item_to_array] in list form. *)
Lemma add_item_to_array_list (h : heap) (array item : addr) (l : list addr)
    (n : cJSON) :
  sibling_list h array l ->
  array ∉ l -> item <> array -> item ∉ l ->
  h !! item = Some n -> next n = None ->
  exists h',
    add_item_to_array (Some array) (Some item) h = Some (true, h') /\
    sibling_list h' array (l ++ [item]) /\
    (forall a, a <> array -> a <> item -> head l <> Some a ->
               last l <> Some a -> h' !! a = h !! a).
Proof.
  intros (p & Hp & Hseg) Harr Hne Hitem Hn Hnext.
  unfold add_item_to_array. cbn [is_null orb].
  rewrite (ptr_eq_ne array item) by congruence.
  rewrite (bind_load _ _ _ _ Hp).
  destruct l as [|a l].
  - (* the list is empty *)
    cbn in Hseg. rewrite Hseg. cbn [is_null].
    rewrite (bind_store array p) by exact Hp.
    rewrite (bind_store item n)
      by (rewrite lookup_insert_ne by congruence; exact Hn).
    rewrite (bind_store item (set_prev (Some item) n))
      by apply lookup_insert_eq.
    eexists. split; [reflexivity|]. split.
    + exists (set_child (Some item) p). split.
      * rewrite !lookup_insert_ne by congruence. apply lookup_insert_eq.
      * cbn. split; [reflexivity|]. eexists.
        split; [apply lookup_insert_eq|]. split; reflexivity.
    + intros b Hb1 Hb2 _ _. rewrite !lookup_insert_ne by congruence.
      reflexivity.
  - (* the list has a head [a] and a tail [t] *)
    pose proof (dseg_NoDup _ _ _ _ Hseg) as Hnd.
    destruct (last_cons_Some a l) as (t & Hlast & lt & Hlt).
    rewrite Hlast in Hseg.
    destruct Hseg as (Hchild & na & Hna & Hprev & Hrest).
    assert (Hseg : dseg h (Some t) (Some a) (a :: l) None).
    { split; [reflexivity|]. exists na. auto. }
    rewrite Hchild. cbn [is_null].
    rewrite (bind_load _ _ _ _ Hna). rewrite Hprev. cbn [is_null negb when].
    unfold suffix_object. rewrite !bind_assoc.
    (* t->next = item *)
    assert (Htl : t ∈ a :: l).
    { rewrite Hlt. apply elem_of_app. right. apply list_elem_of_here. }
    assert (Hnt : exists nt, h !! t = Some nt).
    { rewrite Hlt in Hseg. apply dseg_app in Hseg as (m & _ & H2).
      destruct H2 as (_ & nt & Hnt & _). eauto. }
    destruct Hnt as [nt Hnt].
    rewrite (bind_store t nt) by exact Hnt.
    assert (Htlt : t ∉ lt).
    { rewrite Hlt in Hnd. apply NoDup_app in Hnd as (_ & Hnd & _).
      intros Hin. apply (Hnd t Hin). apply list_elem_of_here. }
    assert (Hseg1 : dseg (<[t := set_next (Some item) nt]> h) (Some t) (Some a)
                      (a :: l) (Some item)).
    { rewrite Hlt in Hseg |- *.
      apply (dseg_set_next_last h (Some t) (Some a) lt t nt None);
        assumption. }
    (* item->prev = t *)
    assert (Hit : item <> t) by (intros ->; contradiction).
    rewrite (bind_store item n)
      by (rewrite lookup_insert_ne by congruence; exact Hn).
    cbv beta.
    set (h2 := <[item := set_prev (Some t) n]>
                 (<[t := set_next (Some item) nt]> h)).
    assert (Hseg2 : dseg h2 (Some t) (Some a) ((a :: l) ++ [item]) None).
    { apply dseg_app. exists (Some item). split.
      - apply dseg_insert_ne; assumption.
      - unfold last_or. rewrite Hlast.
        split; [reflexivity|]. exists (set_prev (Some t) n).
        split; [apply lookup_insert_eq|]. split; [reflexivity|exact Hnext]. }
    (* array->child->prev = item *)
    assert (Hp2 : h2 !! array = Some p).
    { unfold h2. rewrite !lookup_insert_ne; [exact Hp| |congruence].
      intros ->. contradiction. }
    rewrite bind_assoc, (bind_load _ _ _ _ Hp2). rewrite Hchild.
    destruct Hseg2 as (_ & na2 & Hna2 & Hprev2 & Hrest2).
    rewrite (bind_store a na2) by exact Hna2.
    eexists. split; [reflexivity|]. split.
    + exists p. split.
      * rewrite lookup_insert_ne; [exact Hp2|]. intros ->.
        apply Harr. apply list_elem_of_here.
      * rewrite Hchild. rewrite last_snoc. cbn [app].
        apply (dseg_set_prev_head h2 (Some t)).
        -- apply NoDup_cons in Hnd as [Hal _].
           intros Hin. apply elem_of_app in Hin as [Hin|Hin];
             [contradiction|].
           apply list_elem_of_singleton in Hin. subst a.
           apply Hitem. apply list_elem_of_here.
        -- exact Hna2.
        -- split; [reflexivity|]. exists na2. auto.
    + intros b Hb1 Hb2 Hb3 Hb4. cbn [head] in Hb3. rewrite Hlast in Hb4.
      unfold h2. rewrite !lookup_insert_ne by congruence. reflexivity.
Qed.

End AppendFacts.

Module DetachFacts.
Import Store StoreFacts ListFacts AppendFacts.

Ltac solve_lookup :=
  repeat first [ apply lookup_insert_eq
               | rewrite lookup_insert_ne by congruence ];
  eassumption.

Ltac run_load := erewrite bind_load by solve_lookup; cbv beta.
Ltac run_store := erewrite bind_store by solve_lookup; cbv beta.
Ltac solve_in := rewrite ?elem_of_app, ?elem_of_cons; auto 10.
Ltac solve_frame :=
  let a := fresh "a" in
  let Ha1 := fresh "Ha" in
  let Ha2 := fresh "Ha" in
  intros a Ha1 Ha2;
  repeat (rewrite lookup_insert_ne;
          [|first [congruence | intros ->; apply Ha2; solve_in]]);
  reflexivity.

Lemma last_app_cons (l1 l2 : list addr) (x : addr) :
  last (l1 ++ x :: l2) = last (x :: l2).
Proof.
  rewrite last_app. destruct (last (x :: l2)) eqn:E; [reflexivity|].
  apply last_None in E. discriminate.
Qed.

Lemma dseg_split (h : heap) (pp p : option addr) (l1 : list addr) (a : addr)
    (l2 : list addr) (qn : option addr) :
  dseg h pp p (l1 ++ a :: l2) qn <->
  exists n, dseg h pp p l1 (Some a) /\ h !! a = Some n /\
            prev n = last_or pp l1 /\ dseg h (Some a) (next n) l2 qn.
Proof.
  rewrite dseg_app. split.
  - intros (m & H1 & (-> & n & Hn & Hprev & H3)). exists n. auto.
  - intros (n & H1 & Hn & Hprev & H3). exists (Some a).
    split; [exact H1|]. split; [reflexivity|]. exists n. auto.
Qed.

Lemma filter_ne_notin (item : addr) (l : list addr) :
  item ∉ l -> filter (fun x => x <> item) l = l.
Proof.
  induction l as [|a l IH]; intros Hin; [reflexivity|].
  apply not_elem_of_cons in Hin as [Hne Hin].
  rewrite filter_cons_True by congruence. rewrite IH by exact Hin.
  reflexivity.
Qed.

Lemma filter_ne_middle (item : addr) (l1 l2 : list addr) :
  item ∉ l1 -> item ∉ l2 ->
  filter (fun x => x <> item) (l1 ++ item :: l2) = l1 ++ l2.
Proof.
  intros H1 H2. rewrite filter_app, filter_cons_False by auto.
  rewrite !filter_ne_notin by assumption. reflexivity.
Qed.

Lemma NoDup_middle (l1 l2 : list addr) (a : addr) :
  NoDup (l1 ++ a :: l2) ->
  (a ∉ l1) /\ (a ∉ l2) /\ (forall x, x ∈ l1 -> x ∉ l2) /\ NoDup l1 /\ NoDup l2.
Proof.
  intros Hnd. apply NoDup_app in Hnd as (Hl1 & Hdisj & Hnd).
  apply NoDup_cons in Hnd as [Ha Hl2].
  split; [|split; [exact Ha|split; [|split; assumption]]].
  - intros Hin. apply (Hdisj a Hin). apply list_elem_of_here.
  - intros x Hx Hx2. apply (Hdisj x Hx). apply list_elem_of_further.
    exact Hx2.
Qed.

(** [cJSON_DetachItemViaPointer] in list form. *)
Lemma detach_list (h : heap) (parent item : addr) (l1 l2 : list addr) :
  sibling_list h parent (l1 ++ item :: l2) ->
  (parent ∉ l1 ++ item :: l2) ->
  exists h' ni,
    cJSON_DetachItemViaPointer (Some parent) (Some item) h
      = Some (Some item, h') /\
    sibling_list h' parent (l1 ++ l2) /\
    h !! item = Some ni /\
    h' !! item = Some (set_next None (set_prev None ni)) /\
    (forall a, a <> parent -> (a ∉ l1 ++ item :: l2) -> h' !! a = h !! a).
Proof.
  intros (p & Hp & Hseg) Hpar.
  pose proof (dseg_NoDup _ _ _ _ Hseg) as Hnd.
  apply NoDup_middle in Hnd as (Hi1 & Hi2 & Hdisj & Hnd1 & Hnd2).
  assert (Hpi : parent <> item).
  { intros ->. apply Hpar. apply elem_of_app. right. apply list_elem_of_here. }
  assert (Hp1 : parent ∉ l1).
  { intros Hin. apply Hpar. apply elem_of_app. left. exact Hin. }
  assert (Hp2 : parent ∉ l2).
  { intros Hin. apply Hpar. apply elem_of_app. right.
    apply list_elem_of_further. exact Hin. }
  rewrite last_app_cons in Hseg.
  apply dseg_split in Hseg as (ni & H1 & Hni & Hprev & H3).
  unfold cJSON_DetachItemViaPointer. cbn [is_null orb].
  rewrite (bind_load _ _ _ _ Hp), (bind_load _ _ _ _ Hni).
  destruct l1 as [|q l1 _] using rev_ind.
  - (* the item is the first child *)
    cbn [dseg] in H1. rewrite H1, ptr_eq_refl. cbn [negb andb when].
    rewrite bind_ret. run_load.
    destruct l2 as [|b l2].
    + (* and the only one *)
      cbn [dseg] in H3. rewrite H3. cbn [is_null negb when].
      rewrite bind_ret. do 2 run_load. rewrite H1, ptr_eq_refl.
      do 3 run_store.
      eexists. exists ni. split; [reflexivity|].
      split; [|split; [exact Hni|split; [solve_lookup|solve_frame]]].
      eexists. split; [solve_lookup|]. cbn [child set_child].
      rewrite H3. reflexivity.
    + (* and [b] follows it *)
      destruct H3 as (Hnext & nb & Hnb & Hprevb & H3).
      rewrite Hnext. cbn [is_null negb when].
      assert (Hib : item <> b).
      { intros ->. apply Hi2. apply list_elem_of_here. }
      assert (Hpb : parent <> b).
      { intros ->. apply Hp2. apply list_elem_of_here. }
      run_store. do 2 run_load. rewrite H1, ptr_eq_refl.
      do 3 run_store.
      eexists. exists ni. split; [reflexivity|].
      split; [|split; [exact Hni|split; [solve_lookup|solve_frame]]].
      eexists. split; [solve_lookup|]. cbn [app child set_child].
      rewrite Hnext.
      do 3 (apply dseg_insert_ne; [assumption|]).
      rewrite Hprev. unfold last_or at 1. cbn [last].
      rewrite ?last_cons_cons.
      apply (dseg_set_prev_head h (Some item)); [|exact Hnb|].
      * apply NoDup_cons in Hnd2 as [Hb _]. exact Hb.
      * split; [reflexivity|]. exists nb. auto.
  - (* [q] precedes the item *)
    rewrite last_snoc_or in Hprev.
    apply not_elem_of_app in Hi1 as [Hi1 Hiq].
    apply not_elem_of_cons in Hiq as [Hiq _].
    apply not_elem_of_app in Hp1 as [Hp1 Hpq].
    apply not_elem_of_cons in Hpq as [Hpq _].
    apply NoDup_app in Hnd1 as (Hnd1 & Hq1 & _).
    assert (Hql : q ∉ l1).
    { intros Hin. apply (Hq1 q Hin). apply list_elem_of_here. }
    assert (Hnq : exists nq, h !! q = Some nq).
    { apply dseg_app in H1 as (m & _ & (_ & nq & Hnq & _)). eauto. }
    destruct Hnq as [nq Hnq].
    assert (Hhd : exists hd rest, l1 ++ [q] = hd :: rest).
    { destruct l1 as [|hd l1]; cbn [app]; eauto. }
    destruct Hhd as (hd & rest & Hrest).
    assert (Hchild : child p = Some hd).
    { rewrite Hrest in H1. apply H1. }
    assert (Hhd : hd ∈ l1 ++ [q]).
    { rewrite Hrest. apply list_elem_of_here. }
    assert (Hndq : NoDup (l1 ++ [q])).
    { apply NoDup_app. split; [exact Hnd1|]. split; [exact Hq1|].
      apply NoDup_singleton. }
    assert (Hhr : hd ∉ rest).
    { rewrite Hrest in Hndq. apply NoDup_cons in Hndq as [Hhr _]. exact Hhr. }
    assert (Hiq1 : item ∉ l1 ++ [q]).
    { intros Hin. apply elem_of_app in Hin as [Hin|Hin]; [contradiction|].
      apply list_elem_of_singleton in Hin. congruence. }
    assert (Hpq1 : parent ∉ l1 ++ [q]).
    { intros Hin. apply elem_of_app in Hin as [Hin|Hin]; [contradiction|].
      apply list_elem_of_singleton in Hin. congruence. }
    assert (Hih : item <> hd) by (intros ->; contradiction).
    assert (Hph : parent <> hd) by (intros ->; contradiction).
    rewrite Hchild, (ptr_eq_ne item hd Hih), Hprev.
    cbn [negb andb is_null when].
    run_store. run_load.
    pose proof (dseg_set_next_last h _ _ l1 q nq _ (next ni) Hql Hnq H1)
      as H1'.
    destruct l2 as [|b l2].
    + (* the item is the last child *)
      cbn [dseg] in H3. rewrite H3 in H1' |- *. cbn [is_null negb when].
      rewrite bind_ret. do 2 run_load.
      rewrite Hchild, (ptr_eq_ne item hd Hih), H3. cbn [is_null when].
      rewrite Hrest, Hchild in H1'.
      pose proof H1' as (_ & nh & Hnh & _).
      run_store. do 2 run_store.
      eexists. exists ni. split; [reflexivity|].
      split; [|split; [exact Hni|split; [solve_lookup|]]].
      * exists p. split; [solve_lookup|].
        rewrite app_nil_r, last_snoc, Hchild, Hprev.
        do 2 (apply dseg_insert_ne; [assumption|]).
        rewrite Hrest.
        apply (dseg_set_prev_head _ (last [item])); assumption.
      * intros a Ha1 Ha2.
        assert (a <> hd).
        { intros ->. apply Ha2. apply elem_of_app. left. exact Hhd. }
        assert (a <> item) by (intros ->; apply Ha2; solve_in).
        assert (a <> q) by (intros ->; apply Ha2; solve_in).
        rewrite !lookup_insert_ne by congruence. reflexivity.
    + (* [b] follows the item *)
      destruct H3 as (Hnext & nb & Hnb & Hprevb & H3).
      assert (Hib : item <> b).
      { intros ->. apply Hi2. apply list_elem_of_here. }
      assert (Hpb : parent <> b).
      { intros ->. apply Hp2. apply list_elem_of_here. }
      assert (Hbq : b ∉ l1 ++ [q]).
      { intros Hin. apply (Hdisj b Hin). apply list_elem_of_here. }
      assert (Hqb : q <> b).
      { intros ->. apply Hbq. apply elem_of_app. right.
        apply list_elem_of_here. }
      assert (Hqbl : q ∉ b :: l2).
      { apply Hdisj. apply elem_of_app. right. apply list_elem_of_here. }
      rewrite Hnext in H1' |- *. cbn [is_null negb when].
      run_store. do 2 run_load.
      rewrite Hchild, (ptr_eq_ne item hd Hih), Hnext. cbn [is_null when].
      rewrite bind_ret. do 2 run_store.
      eexists. exists ni. split; [reflexivity|].
      split; [|split; [exact Hni|split; [solve_lookup|solve_frame]]].
      exists p. split; [solve_lookup|].
      rewrite last_app_cons, Hchild. rewrite last_cons_cons, Hchild in H1'.
      apply dseg_app. exists (Some b). split.
      * do 3 (apply dseg_insert_ne; [assumption|]). exact H1'.
      * rewrite last_snoc_or.
        do 2 (apply dseg_insert_ne; [assumption|]). rewrite Hprev.
        apply (dseg_set_prev_head _ (Some item)).
        -- apply NoDup_cons in Hnd2 as [Hb _]. exact Hb.
        -- solve_lookup.
        -- apply dseg_insert_ne; [exact Hqbl|].
           split; [reflexivity|]. exists nb. auto.
Qed.

End DetachFacts.

Module IndexFacts.
Import Store StoreFacts ListFacts AppendFacts DetachFacts.

Lemma get_array_item_loop_spec (h : heap) (l : list addr) :
  forall (pp p : option addr) (n : nat),
    dseg h pp p l None -> get_array_item_loop n p h = Some (l !! n, h).
Proof.
  induction l as [|a l IH]; intros pp p n Hseg.
  - cbn [dseg] in Hseg. subst p. destruct n; reflexivity.
  - destruct Hseg as (-> & na & Hna & _ & Hrest).
    destruct n as [|n]; [reflexivity|].
    cbn [get_array_item_loop]. rewrite (bind_load _ _ _ _ Hna).
    apply (IH _ _ n Hrest).
Qed.

Lemma get_array_item_list (h : heap) (array : addr) (l : list addr) (n : nat) :
  sibling_list h array l ->
  get_array_item (Some array) n h = Some (l !! n, h).
Proof.
  intros (p & Hp & Hseg). unfold get_array_item. cbn [is_null].
  rewrite (bind_load _ _ _ _ Hp).
  eapply get_array_item_loop_spec. exact Hseg.
Qed.

Lemma array_size_loop_spec (h : heap) (l : list addr) :
  forall (pp p : option addr) (fuel k : nat),
    dseg h pp p l None -> (length l < fuel)%nat ->
    array_size_loop fuel p k h = Some ((k + length l)%nat, h).
Proof.
  induction l as [|a l IH]; intros pp p fuel k Hseg Hfuel.
  - cbn [dseg] in Hseg. subst p. destruct fuel; [cbn in Hfuel; lia|].
    cbn [array_size_loop is_null length]. rewrite Nat.add_0_r. reflexivity.
  - destruct Hseg as (-> & na & Hna & _ & Hrest).
    destruct fuel; [cbn in Hfuel; lia|]. cbn [length] in Hfuel.
    cbn [array_size_loop is_null]. rewrite (bind_load _ _ _ _ Hna).
    rewrite (IH _ _ fuel (S k) Hrest) by lia.
    cbn [length]. replace (k + S (length l))%nat with (S k + length l)%nat
      by lia. reflexivity.
Qed.

(** A heap has at least as many nodes as any list of distinct allocated
    addresses. *)
Lemma length_le_size (l : list addr) :
  forall h : heap,
    NoDup l -> (forall a, a ∈ l -> is_Some (h !! a)) ->
    (length l <= size h)%nat.
Proof.
  induction l as [|a l IH]; intros h Hnd Hall; [cbn; lia|].
  apply NoDup_cons in Hnd as [Ha Hnd].
  assert (Hsize : size (delete a h) = Nat.pred (size h)).
  { apply map_size_delete_Some. apply Hall. apply list_elem_of_here. }
  assert (Hpos : (size h <> 0)%nat).
  { intros Hz. apply map_size_empty_inv in Hz. subst h.
    destruct (Hall a) as [x Hx]; [apply list_elem_of_here|].
    rewrite lookup_empty in Hx. discriminate. }
  specialize (IH (delete a h) Hnd). cbn [length].
  enough (length l <= size (delete a h))%nat by lia.
  apply IH. intros b Hb. rewrite lookup_delete_ne.
  - apply Hall. apply list_elem_of_further. exact Hb.
  - intros ->. contradiction.
Qed.

Lemma dseg_allocated (h : heap) (l : list addr) :
  forall (pp p q : option addr) (a : addr),
    dseg h pp p l q -> a ∈ l -> is_Some (h !! a).
Proof.
  induction l as [|b l IH]; intros pp p q a Hseg Hin.
  - apply elem_of_nil in Hin. contradiction.
  - destruct Hseg as (_ & nb & Hnb & _ & Hrest).
    apply elem_of_cons in Hin as [->|Hin]; [eauto|].
    eapply IH; eassumption.
Qed.

(** [cJSON_InsertItemInArray] before an existing child, in list form. *)
Lemma insert_before_list (h : heap) (array newitem : addr)
    (l1 : list addr) (x : addr) (l2 : list addr) (nn : cJSON) :
  sibling_list h array (l1 ++ x :: l2) ->
  (array ∉ l1 ++ x :: l2) -> newitem <> array ->
  (newitem ∉ l1 ++ x :: l2) ->
  h !! newitem = Some nn ->
  exists h',
    cJSON_InsertItemInArray (Some array) (Z.of_nat (length l1)) (Some newitem) h
      = Some (true, h') /\
    sibling_list h' array (l1 ++ newitem :: x :: l2) /\
    (forall a, a <> array -> a <> newitem -> (a ∉ l1 ++ x :: l2) ->
               h' !! a = h !! a).
Proof.
  intros Hlist Harr Hna Hnew Hnn.
  unfold cJSON_InsertItemInArray.
  assert (Hneg : (Z.of_nat (length l1) <? 0) = false) by (apply Z.ltb_ge; lia).
  rewrite Hneg. cbn [is_null orb]. rewrite Nat2Z.id.
  unfold bind at 1. rewrite (get_array_item_list _ _ _ _ Hlist).
  rewrite list_lookup_middle by reflexivity. cbn [is_null].
  destruct Hlist as (p & Hp & Hseg).
  pose proof (dseg_NoDup _ _ _ _ Hseg) as Hnd.
  apply NoDup_middle in Hnd as (Hx1 & Hx2 & Hdisj & Hnd1 & Hnd2).
  apply not_elem_of_app in Harr as [Ha1 Ha2].
  apply not_elem_of_cons in Ha2 as [Hax Ha2].
  apply not_elem_of_app in Hnew as [Hn1 Hn2].
  apply not_elem_of_cons in Hn2 as [Hnx Hn2].
  rewrite last_app_cons in Hseg.
  apply dseg_split in Hseg as (nx & H1 & Hnx' & Hprev & H3).
  assert (Hsegx : dseg h (prev nx) (Some x) (x :: l2) None).
  { split; [reflexivity|]. exists nx. auto. }
  assert (Hnxl : newitem ∉ x :: l2).
  { apply not_elem_of_cons. auto. }
  do 2 run_load.
  destruct l1 as [|q l1 _] using rev_ind.
  - (* before the first child *)
    cbn [dseg] in H1. unfold last_or in Hprev. cbn [last] in Hprev.
    destruct (last_cons_Some x l2) as (t & Hlast & _).
    rewrite H1, ptr_eq_refl, Hprev, Hlast. cbn [negb andb].
    do 3 run_store. run_load. cbn [child]. rewrite H1, ptr_eq_refl.
    run_store.
    eexists. split; [reflexivity|]. split.
    + eexists. split; [solve_lookup|]. cbn [child set_child app].
      rewrite last_cons_cons, Hlast.
      split; [reflexivity|]. eexists. split; [solve_lookup|].
      split; [reflexivity|]. cbn [next set_prev set_next].
      apply dseg_insert_ne; [apply not_elem_of_cons; auto|].
      apply (dseg_set_prev_head _ (prev nx)); [exact Hx2|solve_lookup|].
      do 2 (apply dseg_insert_ne; [exact Hnxl|]). exact Hsegx.
    + intros a Hb1 Hb2 Hb3. cbn [app] in Hb3.
      apply not_elem_of_cons in Hb3 as [Hb3 _].
      rewrite !lookup_insert_ne by congruence. reflexivity.
  - (* after the child [q] *)
    rewrite last_snoc_or in Hprev.
    apply not_elem_of_app in Hx1 as [Hx1 Hxq].
    apply not_elem_of_cons in Hxq as [Hxq _].
    apply not_elem_of_app in Hn1 as [Hn1 Hnq].
    apply not_elem_of_cons in Hnq as [Hnq _].
    apply not_elem_of_app in Ha1 as [Ha1 Haq].
    apply not_elem_of_cons in Haq as [Haq _].
    apply NoDup_app in Hnd1 as (Hnd1 & Hq1 & _).
    assert (Hql : q ∉ l1).
    { intros Hin. apply (Hq1 q Hin). apply list_elem_of_here. }
    assert (Hqx : q ∉ x :: l2).
    { apply not_elem_of_cons. split; [congruence|].
      apply Hdisj. apply elem_of_app. right. apply list_elem_of_here. }
    assert (Hnq' : exists nq, h !! q = Some nq).
    { apply dseg_app in H1 as (m & _ & (_ & nq & Hnq' & _)). eauto. }
    destruct Hnq' as [nq Hnq'].
    assert (Hhd : exists hd rest, l1 ++ [q] = hd :: rest).
    { destruct l1 as [|hd l1]; cbn [app]; eauto. }
    destruct Hhd as (hd & rest & Hrest).
    assert (Hchild : child p = Some hd).
    { rewrite Hrest in H1. apply H1. }
    assert (Hxh : x <> hd).
    { intros ->. assert (Hin : hd ∈ l1 ++ [q]).
      { rewrite Hrest. apply list_elem_of_here. }
      apply elem_of_app in Hin as [Hin|Hin]; [contradiction|].
      apply list_elem_of_singleton in Hin. congruence. }
    rewrite Hchild, (ptr_eq_ne x hd Hxh), Hprev. cbn [negb andb is_null].
    do 3 run_store. run_load. cbn [child].
    rewrite Hchild, (ptr_eq_ne x hd Hxh).
    rewrite bind_assoc. run_load. cbn [prev set_prev set_next]. run_store.
    eexists. split; [reflexivity|]. split.
    + exists p. split; [solve_lookup|].
      rewrite last_app_cons, last_cons_cons.
      apply dseg_app. exists (Some newitem). split.
      * apply dseg_set_next_last with (q := Some x);
          [exact Hql|solve_lookup|].
        apply dseg_insert_ne.
        { intros Hin. apply elem_of_app in Hin as [Hin|Hin];
            [contradiction|].
          apply list_elem_of_singleton in Hin. congruence. }
        do 2 (apply dseg_insert_ne;
              [intros Hin; apply elem_of_app in Hin as [Hin|Hin];
               [contradiction|];
               apply list_elem_of_singleton in Hin; congruence|]).
        exact H1.
      * rewrite last_snoc_or.
        split; [reflexivity|]. eexists. split; [solve_lookup|].
        split; [reflexivity|]. cbn [next set_prev set_next].
        apply dseg_insert_ne; [exact Hqx|].
        apply (dseg_set_prev_head _ (prev nx)); [exact Hx2|solve_lookup|].
        do 2 (apply dseg_insert_ne; [exact Hnxl|]). exact Hsegx.
    + intros a Hb1 Hb2 Hb3.
      assert (a <> q) by (intros ->; apply Hb3; solve_in).
      assert (a <> x) by (intros ->; apply Hb3; solve_in).
      rewrite !lookup_insert_ne by congruence. reflexivity.
Qed.

(** [cJSON_InsertItemInArray] in list form. *)
Lemma insert_list (h : heap) (array newitem : addr)
    (which : Z) (l : list addr) (n : cJSON) :
  0 <= which ->
  sibling_list h array l ->
  (array ∉ l) -> newitem <> array -> (newitem ∉ l) ->
  h !! newitem = Some n -> next n = None ->
  exists h',
    cJSON_InsertItemInArray (Some array) which (Some newitem) h
      = Some (true, h') /\
    sibling_list h' array
      (take (Z.to_nat which) l ++ newitem :: drop (Z.to_nat which) l) /\
    (forall a, a <> array -> a <> newitem -> (a ∉ l) -> h' !! a = h !! a).
Proof.
  intros Hwhich Hlist Harr Hne Hnew Hn Hnext.
  destruct (l !! Z.to_nat which) as [x|] eqn:Hx.
  - (* there is a child at the position *)
    pose proof (take_drop_middle _ _ _ Hx) as Hl.
    assert (Hlen : length (take (Z.to_nat which) l) = Z.to_nat which).
    { apply length_take_le. apply lookup_lt_Some in Hx. lia. }
    rewrite (drop_S _ _ _ Hx).
    rewrite <- Hl in Hlist, Harr, Hnew.
    destruct (insert_before_list h array newitem _ x _ n
                Hlist Harr Hne Hnew Hn) as (h' & Hrun & Hlist' & Hframe).
    rewrite Hlen, Z2Nat.id in Hrun by exact Hwhich.
    exists h'. split; [exact Hrun|]. split; [exact Hlist'|].
    intros a Ha1 Ha2 Ha3. apply Hframe; [assumption..|].
    rewrite Hl. exact Ha3.
  - (* the position is past the end *)
    apply lookup_ge_None in Hx.
    rewrite take_ge, drop_ge by exact Hx.
    destruct (add_item_to_array_list h array newitem l n
                Hlist Harr Hne Hnew Hn Hnext) as (h' & Hrun & Hlist' & Hframe).
    exists h'. split; [|split; [exact Hlist'|]].
    + unfold cJSON_InsertItemInArray.
      assert (Hneg : (which <? 0) = false) by (apply Z.ltb_ge; exact Hwhich).
      rewrite Hneg. cbn [is_null orb].
      unfold bind at 1. rewrite (get_array_item_list _ _ _ _ Hlist).
      apply lookup_ge_None in Hx. rewrite Hx. cbn [is_null]. exact Hrun.
    + intros a Ha1 Ha2 Ha3. apply Hframe; [assumption..| |].
      * intros Hhd. apply Ha3. destruct l; [discriminate|].
        injection Hhd as ->. apply list_elem_of_here.
      * intros Hlast. apply Ha3. apply last_Some in Hlast as [l' ->].
        apply elem_of_app. right. apply list_elem_of_here.
Qed.

End IndexFacts.

Module DeleteFacts.
Import Store StoreFacts ListFacts AppendFacts DetachFacts IndexFacts.

Section WithHeader.
Context `{Header}.

Lemma owned_null_inv (h : heap) (fp : list addr) : owned h None fp -> fp = [].
Proof. intros Hown. inversion Hown. reflexivity. Qed.

Lemma owned_NoDup (h : heap) (p : option addr) (fp : list addr) :
  owned h p fp -> NoDup fp.
Proof.
  induction 1 as [|a n fc fn Hn _ IHc _ IHn Ha Hdisj]; [constructor|].
  apply NoDup_cons. split; [exact Ha|].
  apply NoDup_app. split; [exact IHc|]. split; [|exact IHn].
  intros x Hc Hn'. exact (Hdisj x Hc Hn').
Qed.

Lemma owned_allocated (h : heap) (p : option addr) (fp : list addr) :
  owned h p fp -> forall x, x ∈ fp -> is_Some (h !! x).
Proof.
  induction 1 as [|a n fc fn Hn _ IHc _ IHn Ha Hdisj]; intros x Hx.
  - apply elem_of_nil in Hx. contradiction.
  - apply elem_of_cons in Hx as [->|Hx]; [eauto|].
    apply elem_of_app in Hx as [Hx|Hx]; auto.
Qed.

(** What [cJSON_Delete] releases depends on the released nodes only. *)
Lemma owned_frame (h h' : heap) (p : option addr) (fp : list addr) :
  owned h p fp -> (forall x, x ∈ fp -> h' !! x = h !! x) -> owned h' p fp.
Proof.
  induction 1 as [|a n fc fn Hn _ IHc _ IHn Ha Hdisj]; intros Hsame.
  - constructor.
  - apply owned_node with (n := n); try assumption.
    + rewrite Hsame by apply list_elem_of_here. exact Hn.
    + apply IHc. intros x Hx. apply Hsame. apply list_elem_of_further.
      apply elem_of_app. left. exact Hx.
    + apply IHn. intros x Hx. apply Hsame. apply list_elem_of_further.
      apply elem_of_app. right. exact Hx.
Qed.

Lemma cJSON_Delete_loop_spec (h : heap) (p : option addr) (fp : list addr) :
  owned h p fp ->
  forall (fuel : nat) (h' : heap),
    (forall x, x ∈ fp -> h' !! x = h !! x) ->
    (length fp < fuel)%nat ->
    exists h'',
      cJSON_Delete_loop fuel p h' = Some (tt, h'') /\
      forall x, h'' !! x = if decide (x ∈ fp) then None else h' !! x.
Proof.
  induction 1 as [|a n fc fn Hn Hc IHc Hnx IHn Ha Hdisj];
    intros fuel h' Hsame Hfuel.
  - destruct fuel; [cbn in Hfuel; lia|]. exists h'.
    split; [reflexivity|]. intros x.
    destruct (decide (x ∈ [])) as [Hin|_]; [|reflexivity].
    apply elem_of_nil in Hin. contradiction.
  - destruct fuel; [cbn in Hfuel; lia|].
    cbn [length] in Hfuel. rewrite length_app in Hfuel.
    apply not_elem_of_app in Ha as [Hac Han].
    assert (Hn' : h' !! a = Some n).
    { rewrite Hsame by apply list_elem_of_here. exact Hn. }
    cbn [cJSON_Delete_loop is_null]. rewrite (bind_load _ _ _ _ Hn').
    cbv zeta.
    (* the children *)
    assert (Hstep : exists h1,
      when ((Z.land (type n) cJSON_IsReference =? 0)
            && negb (is_null (child n)))
        (cJSON_Delete_loop fuel (child n)) h' = Some (tt, h1) /\
      forall x, h1 !! x = if decide (x ∈ fc) then None else h' !! x).
    { assert (Hnone : fc = [] -> exists h1, ret tt h' = Some (tt, h1) /\
        forall x, h1 !! x = if decide (x ∈ fc) then None else h' !! x).
      { intros ->. exists h'. split; [reflexivity|]. intros x.
        destruct (decide (x ∈ [])) as [Hin|_]; [|reflexivity].
        apply elem_of_nil in Hin. contradiction. }
      unfold owned_child in Hc, IHc.
      destruct (Z.land (type n) cJSON_IsReference =? 0).
      - destruct (child n) as [c|].
        + cbn [andb is_null negb when]. apply IHc; [|lia].
          intros x Hx. apply Hsame. apply list_elem_of_further.
          apply elem_of_app. left. exact Hx.
        + apply Hnone. eapply owned_null_inv. exact Hc.
      - apply Hnone. eapply owned_null_inv. exact Hc. }
    destruct Hstep as (h1 & Hrun1 & Hh1).
    unfold bind at 1. rewrite Hrun1.
    (* the node itself *)
    assert (Hn1 : h1 !! a = Some n).
    { rewrite Hh1. destruct (decide (a ∈ fc)); [contradiction|exact Hn']. }
    unfold bind at 1. unfold free. rewrite Hn1.
    (* its successors *)
    destruct (IHn fuel (delete a h1)) as (h2 & Hrun2 & Hh2); [|lia|].
    { intros x Hx. rewrite lookup_delete_ne by (intros ->; contradiction).
      rewrite Hh1. destruct (decide (x ∈ fc)) as [Hxc|_].
      - destruct (Hdisj x Hxc Hx).
      - apply Hsame. apply list_elem_of_further. apply elem_of_app.
        right. exact Hx. }
    exists h2. split; [exact Hrun2|]. intros x. rewrite Hh2.
    destruct (decide (x ∈ fn)) as [Hxn|Hxn].
    + rewrite decide_True; [reflexivity|]. apply list_elem_of_further.
      apply elem_of_app. right. exact Hxn.
    + destruct (decide (x = a)) as [->|Hxa].
      * rewrite lookup_delete_eq.
        rewrite decide_True by apply list_elem_of_here. reflexivity.
      * rewrite lookup_delete_ne by congruence. rewrite Hh1.
        destruct (decide (x ∈ fc)) as [Hxc|Hxc].
        -- rewrite decide_True; [reflexivity|]. apply list_elem_of_further.
           apply elem_of_app. left. exact Hxc.
        -- rewrite decide_False; [reflexivity|]. intros Hin.
           apply elem_of_cons in Hin as [->|Hin]; [congruence|].
           apply elem_of_app in Hin as [Hin|Hin]; contradiction.
Qed.

(** [cJSON_Delete] releases the nodes it owns and nothing else. *)
Lemma cJSON_Delete_owned (h : heap) (p : option addr) (fp : list addr) :
  owned h p fp ->
  exists h',
    cJSON_Delete p h = Some (tt, h') /\
    forall x, h' !! x = if decide (x ∈ fp) then None else h !! x.
Proof.
  intros Hown. unfold cJSON_Delete.
  apply (cJSON_Delete_loop_spec h p fp Hown); [reflexivity|].
  pose proof (length_le_size fp h (owned_NoDup _ _ _ Hown)
                (owned_allocated _ _ _ Hown)).
  lia.
Qed.

(** Releasing a node that has been unlinked from a sibling list [L]
    leaves the list as it is. *)
Lemma delete_detached (h h5 : heap) (parent item : addr) (L fc : list addr)
    (ni n5 : cJSON) :
  h5 !! item = Some n5 -> next n5 = None ->
  owned_child n5 = owned_child ni ->
  owned h (owned_child ni) fc ->
  (forall x, x ∈ fc -> h5 !! x = h !! x) ->
  (item ∉ fc) -> item <> parent -> (item ∉ L) -> (parent ∉ fc) ->
  (forall x, x ∈ L -> x ∉ fc) ->
  sibling_list h5 parent L ->
  exists h',
    cJSON_Delete (Some item) h5 = Some (tt, h') /\
    sibling_list h' parent L /\
    (forall x, x ∈ item :: fc -> h' !! x = None) /\
    (forall a, a <> item -> (a ∉ fc) -> h' !! a = h5 !! a).
Proof.
  intros Hn5 Hnext Hchild Hown Hsame Hifc Hip HiL Hpfc HLfc (p & Hp & Hseg).
  assert (Hown5 : owned h5 (Some item) (item :: fc ++ [])).
  { apply owned_node with (n := n5).
    - exact Hn5.
    - rewrite Hchild. eapply owned_frame; eassumption.
    - rewrite Hnext. constructor.
    - rewrite app_nil_r. exact Hifc.
    - intros x _ Hx. apply elem_of_nil in Hx. contradiction. }
  rewrite app_nil_r in Hown5.
  destruct (cJSON_Delete_owned _ _ _ Hown5) as (h' & Hrun & Hh').
  assert (Hkeep : forall a, a <> item -> (a ∉ fc) -> h' !! a = h5 !! a).
  { intros a Ha1 Ha2. rewrite Hh'. rewrite decide_False; [reflexivity|].
    intros Hin. apply elem_of_cons in Hin as [->|Hin]; [congruence|].
    contradiction. }
  exists h'. split; [exact Hrun|].
  split; [|split; [|exact Hkeep]].
  - exists p. split; [rewrite Hkeep by auto; exact Hp|].
    eapply dseg_frame; [|exact Hseg]. intros a Ha. apply Hkeep.
    + intros ->. contradiction.
    + apply HLfc. exact Ha.
  - intros x Hx. rewrite Hh'. rewrite decide_True by exact Hx. reflexivity.
Qed.

Lemma delete_unlinked (h h5 : heap) (parent item : addr) (L fc : list addr)
    (ni n5 : cJSON) :
  h5 !! item = Some n5 -> next n5 = None ->
  owned_child n5 = owned_child ni ->
  owned h (owned_child ni) fc ->
  (forall x, x ∈ fc -> h5 !! x = h !! x) ->
  (item ∉ fc) -> item <> parent -> (item ∉ L) -> (parent ∉ fc) ->
  (forall x, x ∈ L -> x ∉ fc) ->
  sibling_list h5 parent L ->
  exists h',
    (cJSON_Delete (Some item) ;; ret true) h5 = Some (true, h') /\
    sibling_list h' parent L /\
    (forall x, x ∈ item :: fc -> h' !! x = None) /\
    (forall a, a <> item -> (a ∉ fc) -> h' !! a = h5 !! a).
Proof.
  intros Hn5 Hnext Hchild Hown Hsame Hifc Hip HiL Hpfc HLfc Hlist.
  destruct (delete_detached h h5 parent item L fc ni n5)
    as (h' & Hrun & Hrest); try assumption.
  exists h'. split; [unfold bind; rewrite Hrun; reflexivity|exact Hrest].
Qed.

(** [cJSON_ReplaceItemViaPointer] in list form. *)
Lemma replace_list (h : heap) (parent item r : addr) (l1 l2 fc : list addr)
    (nr ni : cJSON) :
  sibling_list h parent (l1 ++ item :: l2) ->
  (parent ∉ l1 ++ item :: l2) -> r <> parent -> (r ∉ l1 ++ item :: l2) ->
  h !! r = Some nr -> h !! item = Some ni ->
  owned h (owned_child ni) fc ->
  (item ∉ fc) -> (parent ∉ fc) -> (r ∉ fc) ->
  (forall x, (x ∈ l1 ++ item :: l2) -> x ∉ fc) ->
  exists h',
    cJSON_ReplaceItemViaPointer (Some parent) (Some item) (Some r) h
      = Some (true, h') /\
    sibling_list h' parent (l1 ++ r :: l2) /\
    (forall x, x ∈ item :: fc -> h' !! x = None) /\
    (forall a, a <> parent -> a <> r -> (a ∉ l1 ++ item :: l2) -> (a ∉ fc) ->
               h' !! a = h !! a).
Proof.
  intros (p & Hp & Hseg) Hpar Hrp Hrl Hnr Hni Hown Hifc Hpfc Hrfc Hlfc.
  pose proof (dseg_NoDup _ _ _ _ Hseg) as Hnd.
  apply NoDup_middle in Hnd as (Hi1 & Hi2 & Hdisj & Hnd1 & Hnd2).
  apply not_elem_of_app in Hpar as [Hp1 Hp2].
  apply not_elem_of_cons in Hp2 as [Hpi Hp2].
  apply not_elem_of_app in Hrl as [Hr1 Hr2].
  apply not_elem_of_cons in Hr2 as [Hri Hr2].
  assert (Hfc1 : forall x, x ∈ l1 -> x ∉ fc).
  { intros x Hx. apply Hlfc. apply elem_of_app. left. exact Hx. }
  assert (Hfc2 : forall x, x ∈ l2 -> x ∉ fc).
  { intros x Hx. apply Hlfc. apply elem_of_app. right.
    apply list_elem_of_further. exact Hx. }
  assert (HLfc : forall x, (x ∈ l1 ++ r :: l2) -> x ∉ fc).
  { intros x Hx. apply elem_of_app in Hx as [Hx|Hx]; [auto|].
    apply elem_of_cons in Hx as [->|Hx]; auto. }
  assert (HiL : item ∉ l1 ++ r :: l2).
  { intros Hx. apply elem_of_app in Hx as [Hx|Hx]; [auto|].
    apply elem_of_cons in Hx as [->|Hx]; auto. }
  rewrite last_app_cons in Hseg.
  apply dseg_split in Hseg as (ni' & H1 & Hni' & Hprev & H3).
  rewrite Hni in Hni'. injection Hni' as <-.
  unfold cJSON_ReplaceItemViaPointer. cbn [is_null].
  rewrite (bind_load _ _ _ _ Hp).
  destruct l1 as [|q l1 _] using rev_ind.
  - (* the item is the first child *)
    cbn [dseg] in H1. unfold last_or in Hprev. cbn [last] in Hprev.
    rewrite H1. cbn [is_null orb]. rewrite (ptr_eq_ne r item Hri).
    run_load. do 2 run_store. run_load. cbn [next set_next set_prev].
    destruct l2 as [|b l2].
    + (* and the only one *)
      cbn [dseg] in H3. rewrite H3. cbn [is_null negb when].
      rewrite bind_ret. run_load. rewrite H1, ptr_eq_refl.
      rewrite !bind_assoc. run_load. rewrite Hprev. cbn [last].
      rewrite ptr_eq_refl. cbn [when]. rewrite !bind_assoc.
      do 4 run_store.
      match goal with |- context [bind _ _ ?h5] =>
        edestruct (delete_unlinked h h5 parent item ([] ++ [r]) fc ni)
          as (h' & Hrun & Hlist & Hgone & Hkeep)
      end; [solve_lookup|reflexivity|reflexivity|exact Hown| |exact Hifc
           |congruence|exact HiL|exact Hpfc|exact HLfc| |].
      * intros x Hx.
        rewrite !lookup_insert_ne by (intros ->; contradiction).
        reflexivity.
      * eexists. split; [solve_lookup|]. cbn [child set_child app last].
        split; [reflexivity|]. eexists. split; [solve_lookup|].
        split; [reflexivity|]. reflexivity.
      * exists h'. split; [exact Hrun|]. split; [exact Hlist|].
        split; [exact Hgone|]. intros a Ha1 Ha2 Ha3 Ha4.
        cbn [app] in Ha3. apply not_elem_of_cons in Ha3 as [Ha3 _].
        rewrite Hkeep by assumption.
        rewrite !lookup_insert_ne by congruence. reflexivity.
    + (* and [b] follows it *)
      destruct H3 as (Hnext & nb & Hnb & Hprevb & H3).
      apply not_elem_of_cons in Hi2 as [Hib Hi2].
      apply not_elem_of_cons in Hp2 as [Hpb Hp2].
      apply not_elem_of_cons in Hr2 as [Hrb Hr2].
      apply NoDup_cons in Hnd2 as [Hbl Hnd2].
      assert (Hbfc : b ∉ fc) by (apply Hfc2, list_elem_of_here).
      destruct (last_cons_Some b l2) as (t & Hlast & lt & Hlt).
      assert (Hti : t <> item).
      { intros ->. assert (Hin : item ∈ b :: l2).
        { rewrite Hlt. apply elem_of_app. right. apply list_elem_of_here. }
        apply elem_of_cons in Hin as [Hin|Hin]; [congruence|contradiction]. }
      rewrite last_cons_cons, Hlast in Hprev.
      rewrite Hnext. cbn [is_null negb when].
      run_store. run_load. rewrite H1, ptr_eq_refl.
      rewrite !bind_assoc. run_load. rewrite Hprev.
      rewrite (ptr_eq_ne t item Hti). cbn [when]. rewrite !bind_assoc, bind_ret.
      do 3 run_store.
      match goal with |- context [bind _ _ ?h5] =>
        edestruct (delete_unlinked h h5 parent item ([] ++ r :: b :: l2) fc ni)
          as (h' & Hrun & Hlist & Hgone & Hkeep)
      end; [solve_lookup|reflexivity|reflexivity|exact Hown| |exact Hifc
           |congruence|exact HiL|exact Hpfc|exact HLfc| |].
      * intros x Hx.
        rewrite !lookup_insert_ne by (intros ->; contradiction).
        reflexivity.
      * eexists. split; [solve_lookup|]. cbn [child set_child app].
        rewrite !last_cons_cons, Hlast.
        split; [reflexivity|]. eexists. split; [solve_lookup|].
        split; [reflexivity|]. cbn [next set_next set_prev].
        do 3 (apply dseg_insert_ne; [apply not_elem_of_cons; auto|]).
        apply (dseg_set_prev_head _ (Some item)); [exact Hbl|solve_lookup|].
        do 2 (apply dseg_insert_ne; [apply not_elem_of_cons; auto|]).
        split; [reflexivity|]. exists nb. auto.
      * exists h'. split; [exact Hrun|]. split; [exact Hlist|].
        split; [exact Hgone|]. intros a Ha1 Ha2 Ha3 Ha4.
        cbn [app] in Ha3. apply not_elem_of_cons in Ha3 as [Ha3 Ha5].
        apply not_elem_of_cons in Ha5 as [Ha5 _].
        rewrite Hkeep by assumption.
        rewrite !lookup_insert_ne by congruence. reflexivity.
  - (* [q] precedes the item *)
    rewrite last_snoc_or in Hprev.
    apply not_elem_of_app in Hi1 as [Hi1 Hiq].
    apply not_elem_of_cons in Hiq as [Hiq _].
    apply not_elem_of_app in Hp1 as [Hp1 Hpq].
    apply not_elem_of_cons in Hpq as [Hpq _].
    apply not_elem_of_app in Hr1 as [Hr1 Hrq].
    apply not_elem_of_cons in Hrq as [Hrq _].
    assert (Hndq : NoDup (l1 ++ [q])) by exact Hnd1.
    apply NoDup_app in Hnd1 as (Hnd1 & Hq1 & _).
    assert (Hql : q ∉ l1).
    { intros Hin. apply (Hq1 q Hin). apply list_elem_of_here. }
    assert (Hqfc : q ∉ fc).
    { apply Hfc1. apply elem_of_app. right. apply list_elem_of_here. }
    assert (Hnq : exists nq, h !! q = Some nq).
    { apply dseg_app in H1 as (m & _ & (_ & nq & Hnq & _)). eauto. }
    destruct Hnq as [nq Hnq].
    assert (Hhd : exists hd rest, l1 ++ [q] = hd :: rest).
    { destruct l1 as [|hd l1]; cbn [app]; eauto. }
    destruct Hhd as (hd & rest & Hrest).
    assert (Hchild : child p = Some hd).
    { rewrite Hrest in H1. apply H1. }
    assert (Hhd : hd ∈ l1 ++ [q]).
    { rewrite Hrest. apply list_elem_of_here. }
    assert (Hhr : hd ∉ rest).
    { rewrite Hrest in Hndq. apply NoDup_cons in Hndq as [Hhr _]. exact Hhr. }
    assert (Hiq1 : item ∉ l1 ++ [q]).
    { apply not_elem_of_app. split; [exact Hi1|].
      apply not_elem_of_cons. split; [exact Hiq|apply not_elem_of_nil]. }
    assert (Hpq1 : parent ∉ l1 ++ [q]).
    { apply not_elem_of_app. split; [exact Hp1|].
      apply not_elem_of_cons. split; [exact Hpq|apply not_elem_of_nil]. }
    assert (Hrq1 : r ∉ l1 ++ [q]).
    { apply not_elem_of_app. split; [exact Hr1|].
      apply not_elem_of_cons. split; [exact Hrq|apply not_elem_of_nil]. }
    assert (Hhi : hd <> item) by (intros ->; contradiction).
    assert (Hhp : hd <> parent) by (intros ->; contradiction).
    assert (Hhr' : hd <> r) by (intros ->; contradiction).
    assert (Hhfc : hd ∉ fc) by (apply Hfc1; exact Hhd).
    rewrite Hchild. cbn [is_null orb]. rewrite (ptr_eq_ne r item Hri).
    run_load. do 2 run_store. run_load. cbn [next set_next set_prev].
    destruct l2 as [|b l2].
    + (* the item is the last child *)
      cbn [dseg] in H3. rewrite H3. cbn [is_null negb when].
      rewrite bind_ret. run_load. rewrite Hchild, (ptr_eq_ne hd item Hhi).
      rewrite !bind_assoc. run_load. cbn [prev set_prev]. rewrite Hprev.
      cbn [is_null negb when]. rewrite !bind_assoc. run_store.
      rewrite !bind_assoc. run_load.
      cbn [next set_next set_prev is_null when].
      rewrite !bind_assoc. run_load. rewrite Hchild.
      match goal with |- context [bind _ _ ?h3] =>
        assert (H1' : dseg h3 (last [item]) (Some hd) (hd :: rest) (Some r))
      end.
      { rewrite <- Hrest, <- Hchild.
        apply dseg_set_next_last with (q := Some item);
          [exact Hql|solve_lookup|].
        do 2 (apply dseg_insert_ne; [exact Hrq1|]). exact H1. }
      pose proof H1' as (_ & nh & Hnh & _).
      rewrite (bind_store hd nh) by exact Hnh. do 2 run_store.
      match goal with |- context [bind _ _ ?h5] =>
        edestruct (delete_unlinked h h5 parent item ((l1 ++ [q]) ++ [r]) fc ni)
          as (h' & Hrun & Hlist & Hgone & Hkeep)
      end; [solve_lookup|reflexivity|reflexivity|exact Hown| |exact Hifc
           |congruence|exact HiL|exact Hpfc|exact HLfc| |].
      * intros x Hx.
        rewrite !lookup_insert_ne by (intros ->; contradiction).
        reflexivity.
      * exists p. split; [solve_lookup|]. rewrite last_snoc, Hchild.
        do 2 (apply dseg_insert_ne; [exact HiL|]).
        apply dseg_app. exists (Some r). split.
        -- rewrite Hrest.
           apply (dseg_set_prev_head _ (last [item])); assumption.
        -- rewrite last_snoc_or. split; [reflexivity|].
           eexists. split; [solve_lookup|]. split; reflexivity.
      * exists h'. split; [exact Hrun|]. split; [exact Hlist|].
        split; [exact Hgone|]. intros a Ha1 Ha2 Ha3 Ha4.
        assert (a <> hd).
        { intros ->. apply Ha3. apply elem_of_app. left. exact Hhd. }
        assert (a <> item) by (intros ->; apply Ha3; solve_in).
        assert (a <> q) by (intros ->; apply Ha3; solve_in).
        rewrite Hkeep by assumption.
        rewrite !lookup_insert_ne by congruence. reflexivity.
    + (* [b] follows the item *)
      destruct H3 as (Hnext & nb & Hnb & Hprevb & H3).
      apply not_elem_of_cons in Hi2 as [Hib Hi2].
      apply not_elem_of_cons in Hp2 as [Hpb Hp2].
      apply not_elem_of_cons in Hr2 as [Hrb Hr2].
      apply NoDup_cons in Hnd2 as [Hbl Hnd2].
      assert (Hbfc : b ∉ fc) by (apply Hfc2, list_elem_of_here).
      assert (Hbq : b ∉ l1 ++ [q]).
      { intros Hin. apply (Hdisj b Hin). apply list_elem_of_here. }
      assert (Hqb : q <> b).
      { intros ->. apply Hbq. apply elem_of_app. right.
        apply list_elem_of_here. }
      assert (Hqbl : q ∉ b :: l2).
      { apply Hdisj. apply elem_of_app. right. apply list_elem_of_here. }
      rewrite Hnext. cbn [is_null negb when].
      run_store. run_load. rewrite Hchild, (ptr_eq_ne hd item Hhi).
      rewrite !bind_assoc. run_load. cbn [prev set_prev]. rewrite Hprev.
      cbn [is_null negb when]. rewrite !bind_assoc. run_store.
      rewrite !bind_assoc. run_load.
      cbn [next set_next set_prev is_null when].
      rewrite bind_ret. do 2 run_store.
      match goal with |- context [bind _ _ ?h5] =>
        edestruct (delete_unlinked h h5 parent item
                     ((l1 ++ [q]) ++ r :: b :: l2) fc ni)
          as (h' & Hrun & Hlist & Hgone & Hkeep)
      end; [solve_lookup|reflexivity|reflexivity|exact Hown| |exact Hifc
           |congruence|exact HiL|exact Hpfc|exact HLfc| |].
      * intros x Hx.
        rewrite !lookup_insert_ne by (intros ->; contradiction).
        reflexivity.
      * exists p. split; [solve_lookup|].
        rewrite last_app_cons, last_cons_cons, Hchild.
        rewrite last_cons_cons, Hchild in H1.
        do 2 (apply dseg_insert_ne; [exact HiL|]).
        apply dseg_app. exists (Some r). split.
        -- apply dseg_set_next_last with (q := Some item);
             [exact Hql|solve_lookup|].
           apply dseg_insert_ne; [exact Hbq|].
           do 2 (apply dseg_insert_ne; [exact Hrq1|]). exact H1.
        -- rewrite last_snoc_or. split; [reflexivity|].
           eexists. split; [solve_lookup|].
           split; [reflexivity|]. cbn [next set_next set_prev].
           apply dseg_insert_ne; [exact Hqbl|].
           apply (dseg_set_prev_head _ (Some item));
             [exact Hbl|solve_lookup|].
           do 2 (apply dseg_insert_ne; [apply not_elem_of_cons; auto|]).
           split; [reflexivity|]. exists nb. auto.
      * exists h'. split; [exact Hrun|]. split; [exact Hlist|].
        split; [exact Hgone|]. intros a Ha1 Ha2 Ha3 Ha4.
        assert (a <> item) by (intros ->; apply Ha3; solve_in).
        assert (a <> q) by (intros ->; apply Ha3; solve_in).
        assert (a <> b) by (intros ->; apply Ha3; solve_in).
        rewrite Hkeep by assumption.
        rewrite !lookup_insert_ne by congruence. reflexivity.
Qed.

End WithHeader.

End DeleteFacts.

(** ** The operations on the children of a node *)

Module ChildrenFacts.
Import Store StoreFacts ListFacts AppendFacts DetachFacts IndexFacts.
Import DeleteFacts Samples.

Ltac decide_it := apply (bool_decide_unpack _); vm_compute; exact I.

Lemma three_children_list : sibling_list three_children 0%nat [1; 2; 3]%nat.
Proof.
  eexists. split; [reflexivity|].
  repeat (split; [reflexivity|]; eexists; split; [reflexivity|];
          split; [reflexivity|]).
  reflexivity.
Qed.

(** X1: appending a detached node to the children of an array makes it
    the last child and returns true; the array, the node, the first and
    the last child are the only nodes written. *)
Theorem cJSON_AddItemToArray_appends (h : heap) (array item : addr)
    (l : list addr) (n : cJSON) :
  sibling_list h array l ->
  (array ∉ l) -> item <> array -> (item ∉ l) ->
  h !! item = Some n -> next n = None ->
  exists h',
    cJSON_AddItemToArray (Some array) (Some item) h = Some (true, h') /\
    sibling_list h' array (l ++ [item]) /\
    (forall a, a <> array -> a <> item -> head l <> Some a ->
               last l <> Some a -> h' !! a = h !! a).
Proof. apply add_item_to_array_list. Qed.

Lemma cJSON_AddItemToArray_appends_witness :
  exists h',
    cJSON_AddItemToArray (Some 0%nat) (Some 4%nat) three_children
      = Some (true, h') /\
    sibling_list h' 0%nat ([1; 2; 3] ++ [4])%nat /\
    (forall a, a <> 0%nat -> a <> 4%nat -> head [1; 2; 3]%nat <> Some a ->
               last [1; 2; 3]%nat <> Some a ->
               h' !! a = three_children !! a).
Proof.
  apply (cJSON_AddItemToArray_appends three_children 0%nat 4%nat
           [1; 2; 3]%nat (linked None None None)).
  - exact three_children_list.
  - decide_it.
  - discriminate.
  - decide_it.
  - reflexivity.
  - reflexivity.
Defined.

(** X2: detaching a child through its pointer returns it, takes it out
    of the children of its parent with the order of the others kept,
    and clears its [prev] and [next]; nodes outside the list are not
    written. *)
Theorem cJSON_DetachItemViaPointer_detaches (h : heap) (parent item : addr)
    (l1 l2 : list addr) :
  sibling_list h parent (l1 ++ item :: l2) ->
  (parent ∉ l1 ++ item :: l2) ->
  exists h' ni,
    cJSON_DetachItemViaPointer (Some parent) (Some item) h
      = Some (Some item, h') /\
    sibling_list h' parent (l1 ++ l2) /\
    h !! item = Some ni /\
    h' !! item = Some (set_next None (set_prev None ni)) /\
    (forall a, a <> parent -> (a ∉ l1 ++ item :: l2) -> h' !! a = h !! a).
Proof. apply detach_list. Qed.

Lemma cJSON_DetachItemViaPointer_detaches_witness :
  exists h' ni,
    cJSON_DetachItemViaPointer (Some 0%nat) (Some 2%nat) three_children
      = Some (Some 2%nat, h') /\
    sibling_list h' 0%nat ([1] ++ [3])%nat /\
    three_children !! 2%nat = Some ni /\
    h' !! 2%nat = Some (set_next None (set_prev None ni)) /\
    (forall a, a <> 0%nat -> (a ∉ ([1] ++ 2 :: [3])%nat) ->
               h' !! a = three_children !! a).
Proof.
  apply (cJSON_DetachItemViaPointer_detaches three_children 0%nat 2%nat
           [1%nat] [3%nat]).
  - exact three_children_list.
  - decide_it.
Defined.

(** X3: inserting a detached node at a position that is not negative
    puts it before the child at that position, and at the end when
    there is no such child; the result is true and nodes outside the
    list are not written. *)
Theorem cJSON_InsertItemInArray_inserts (h : heap) (array newitem : addr)
    (which : Z) (l : list addr) (n : cJSON) :
  0 <= which ->
  sibling_list h array l ->
  (array ∉ l) -> newitem <> array -> (newitem ∉ l) ->
  h !! newitem = Some n -> next n = None ->
  exists h',
    cJSON_InsertItemInArray (Some array) which (Some newitem) h
      = Some (true, h') /\
    sibling_list h' array
      (take (Z.to_nat which) l ++ newitem :: drop (Z.to_nat which) l) /\
    (forall a, a <> array -> a <> newitem -> (a ∉ l) -> h' !! a = h !! a).
Proof. apply insert_list. Qed.

Lemma cJSON_InsertItemInArray_inserts_witness :
  exists h',
    cJSON_InsertItemInArray (Some 0%nat) 1 (Some 4%nat) three_children
      = Some (true, h') /\
    sibling_list h' 0%nat
      (take (Z.to_nat 1) [1; 2; 3] ++ 4 :: drop (Z.to_nat 1) [1; 2; 3])%nat /\
    (forall a, a <> 0%nat -> a <> 4%nat -> (a ∉ [1; 2; 3]%nat) ->
               h' !! a = three_children !! a).
Proof.
  apply (cJSON_InsertItemInArray_inserts three_children 0%nat 4%nat 1
           [1; 2; 3]%nat (linked None None None)).
  - lia.
  - exact three_children_list.
  - decide_it.
  - discriminate.
  - decide_it.
  - reflexivity.
  - reflexivity.
Defined.

(** X4: looking up a child by index gives the child at that position,
    and NULL for a negative index or one past the end; nothing is
    written. *)
Theorem cJSON_GetArrayItem_index (h : heap) (array : addr) (l : list addr)
    (index : Z) :
  sibling_list h array l ->
  cJSON_GetArrayItem (Some array) index h
    = Some ((if index <? 0 then None else l !! Z.to_nat index), h).
Proof.
  intros Hlist. unfold cJSON_GetArrayItem.
  destruct (index <? 0); [reflexivity|].
  apply get_array_item_list. exact Hlist.
Qed.

Lemma cJSON_GetArrayItem_index_witness :
  cJSON_GetArrayItem (Some 0%nat) 2 three_children
    = Some ((if 2 <? 0 then None else [1; 2; 3]%nat !! Z.to_nat 2),
            three_children).
Proof.
  apply (cJSON_GetArrayItem_index three_children 0%nat [1; 2; 3]%nat 2).
  exact three_children_list.
Defined.

(** X5: the size of an array is the number of its children, as long as
    that number fits an [int]; nothing is written. *)
Theorem cJSON_GetArraySize_length (h : heap) (array : addr) (l : list addr) :
  sibling_list h array l ->
  Z.of_nat (length l) <= INT_MAX ->
  cJSON_GetArraySize (Some array) h = Some (Z.of_nat (length l), h).
Proof.
  intros (p & Hp & Hseg) Hmax. unfold cJSON_GetArraySize. cbn [is_null].
  rewrite (bind_load _ _ _ _ Hp).
  assert (Hfuel : (length l < S (size h))%nat).
  { pose proof (length_le_size l h (dseg_NoDup _ _ _ _ Hseg)) as Hle.
    enough (length l <= size h)%nat by lia. apply Hle.
    intros a Ha. eapply dseg_allocated; eassumption. }
  unfold bind.
  rewrite (array_size_loop_spec h l _ _ (S (size h)) 0%nat Hseg Hfuel).
  cbn [Nat.add]. unfold ret, to_int. do 2 f_equal.
  unfold INT_MAX in Hmax. rewrite Z.mod_small by lia. lia.
Qed.

Lemma cJSON_GetArraySize_length_witness :
  cJSON_GetArraySize (Some 0%nat) three_children
    = Some (Z.of_nat (length [1; 2; 3]%nat), three_children).
Proof.
  apply (cJSON_GetArraySize_length three_children 0%nat [1; 2; 3]%nat).
  - exact three_children_list.
  - vm_compute. discriminate.
Defined.

(** X6: after a node is appended to an array, it is the child at the
    index that was the size of the array, and the size is one more. *)
Theorem append_then_index (h : heap) (array item : addr) (l : list addr)
    (n : cJSON) :
  sibling_list h array l ->
  (array ∉ l) -> item <> array -> (item ∉ l) ->
  h !! item = Some n -> next n = None ->
  Z.of_nat (length l) < INT_MAX ->
  exists h',
    cJSON_AddItemToArray (Some array) (Some item) h = Some (true, h') /\
    cJSON_GetArrayItem (Some array) (Z.of_nat (length l)) h'
      = Some (Some item, h') /\
    cJSON_GetArraySize (Some array) h'
      = Some (Z.of_nat (length l) + 1, h').
Proof.
  intros Hlist Harr Hne Hitem Hn Hnext Hmax.
  destruct (add_item_to_array_list h array item l n
              Hlist Harr Hne Hitem Hn Hnext) as (h' & Hrun & Hlist' & _).
  exists h'. split; [exact Hrun|]. split.
  - unfold cJSON_GetArrayItem.
    assert (Hneg : (Z.of_nat (length l) <? 0) = false)
      by (apply Z.ltb_ge; lia).
    rewrite Hneg, Nat2Z.id, (get_array_item_list _ _ _ _ Hlist').
    rewrite list_lookup_middle by reflexivity. reflexivity.
  - destruct Hlist' as (p & Hp & Hseg).
    unfold cJSON_GetArraySize. cbn [is_null].
    rewrite (bind_load _ _ _ _ Hp).
    assert (Hfuel : (length (l ++ [item]) < S (size h'))%nat).
    { pose proof (length_le_size _ h' (dseg_NoDup _ _ _ _ Hseg)) as Hle.
      enough (length (l ++ [item]) <= size h')%nat by lia. apply Hle.
      intros a Ha. eapply dseg_allocated; eassumption. }
    unfold bind.
    rewrite (array_size_loop_spec h' _ _ _ (S (size h')) 0%nat Hseg Hfuel).
    cbn [Nat.add]. rewrite length_app. cbn [length].
    unfold ret, to_int. do 2 f_equal.
    unfold INT_MAX in Hmax. rewrite Z.mod_small by lia. lia.
Qed.

Lemma append_then_index_witness :
  exists h',
    cJSON_AddItemToArray (Some 0%nat) (Some 4%nat) three_children
      = Some (true, h') /\
    cJSON_GetArrayItem (Some 0%nat) (Z.of_nat (length [1; 2; 3]%nat)) h'
      = Some (Some 4%nat, h') /\
    cJSON_GetArraySize (Some 0%nat) h'
      = Some (Z.of_nat (length [1; 2; 3]%nat) + 1, h').
Proof.
  apply (append_then_index three_children 0%nat 4%nat [1; 2; 3]%nat
           (linked None None None)).
  - exact three_children_list.
  - decide_it.
  - discriminate.
  - decide_it.
  - reflexivity.
  - reflexivity.
  - vm_compute. reflexivity.
Defined.

(** X7: detaching by index takes out the child at that position and
    returns it; for a negative index or one past the end the result is
    NULL and nothing is written. *)
Theorem cJSON_DetachItemFromArray_index (h : heap) (array : addr)
    (l : list addr) (which : Z) :
  sibling_list h array l ->
  (array ∉ l) ->
  match (if which <? 0 then None else l !! Z.to_nat which) with
  | None => cJSON_DetachItemFromArray (Some array) which h = Some (None, h)
  | Some item =>
      exists h',
        cJSON_DetachItemFromArray (Some array) which h
          = Some (Some item, h') /\
        sibling_list h' array
          (take (Z.to_nat which) l ++ drop (S (Z.to_nat which)) l) /\
        (forall a, a <> array -> (a ∉ l) -> h' !! a = h !! a)
  end.
Proof.
  intros Hlist Harr.
  assert (Hrun0 : cJSON_DetachItemFromArray (Some array) which h =
            if which <? 0 then Some (None, h)
            else cJSON_DetachItemViaPointer (Some array)
                   (l !! Z.to_nat which) h).
  { unfold cJSON_DetachItemFromArray. destruct (which <? 0); [reflexivity|].
    unfold bind. rewrite (get_array_item_list _ _ _ _ Hlist). reflexivity. }
  rewrite Hrun0. clear Hrun0.
  destruct (which <? 0); [reflexivity|].
  destruct (l !! Z.to_nat which) as [item|] eqn:Hitem; [|reflexivity].
  pose proof (take_drop_middle _ _ _ Hitem) as Hl.
  rewrite <- Hl in Hlist, Harr.
  destruct (detach_list h array item _ _ Hlist Harr)
    as (h' & ni & Hrun & Hlist' & _ & _ & Hframe).
  exists h'. split; [exact Hrun|]. split; [exact Hlist'|].
  intros a Ha1 Ha2. apply Hframe; [exact Ha1|]. rewrite Hl. exact Ha2.
Qed.

Lemma cJSON_DetachItemFromArray_index_witness :
  match (if 0 <? 0 then None else [1; 2; 3]%nat !! Z.to_nat 0) with
  | None =>
      cJSON_DetachItemFromArray (Some 0%nat) 0 three_children
        = Some (None, three_children)
  | Some item =>
      exists h',
        cJSON_DetachItemFromArray (Some 0%nat) 0 three_children
          = Some (Some item, h') /\
        sibling_list h' 0%nat
          (take (Z.to_nat 0) [1; 2; 3] ++ drop (S (Z.to_nat 0)) [1; 2; 3])%nat
        /\
        (forall a, a <> 0%nat -> (a ∉ [1; 2; 3]%nat) ->
                   h' !! a = three_children !! a)
  end.
Proof.
  apply (cJSON_DetachItemFromArray_index three_children 0%nat
           [1; 2; 3]%nat 0).
  - exact three_children_list.
  - decide_it.
Defined.

Section WithHeader.
Context `{Header}.

(** X8: [cJSON_Delete] releases the node it is given, the nodes that
    follow it through [next] and, below each of them that is not a
    reference, its children, and no other node; they are taken to be
    distinct nodes. *)
Theorem cJSON_Delete_releases_owned (h : heap) (p : option addr)
    (fp : list addr) :
  owned h p fp ->
  exists h',
    cJSON_Delete p h = Some (tt, h') /\
    forall x, h' !! x = if decide (x ∈ fp) then None else h !! x.
Proof. apply cJSON_Delete_owned. Qed.

(** X9: replacing a child through its pointer puts the replacement at
    its position and returns true; the replaced node and what is below
    it are released; other nodes outside the list are not written. *)
Theorem cJSON_ReplaceItemViaPointer_replaces (h : heap)
    (parent item r : addr) (l1 l2 fc : list addr) (nr ni : cJSON) :
  sibling_list h parent (l1 ++ item :: l2) ->
  (parent ∉ l1 ++ item :: l2) -> r <> parent -> (r ∉ l1 ++ item :: l2) ->
  h !! r = Some nr -> h !! item = Some ni ->
  owned h (owned_child ni) fc ->
  (item ∉ fc) -> (parent ∉ fc) -> (r ∉ fc) ->
  (forall x, (x ∈ l1 ++ item :: l2) -> x ∉ fc) ->
  exists h',
    cJSON_ReplaceItemViaPointer (Some parent) (Some item) (Some r) h
      = Some (true, h') /\
    sibling_list h' parent (l1 ++ r :: l2) /\
    (forall x, x ∈ item :: fc -> h' !! x = None) /\
    (forall a, a <> parent -> a <> r -> (a ∉ l1 ++ item :: l2) -> (a ∉ fc) ->
               h' !! a = h !! a).
Proof. apply replace_list. Qed.

End WithHeader.

(** The examples below run with the header of release 1.7.19. *)
Import Release.

Lemma three_children_owned :
  owned three_children (Some 5%nat) [5%nat].
Proof.
  apply (owned_node three_children 5%nat (linked (Some 5%nat) None None)
           [] []).
  - reflexivity.
  - constructor.
  - constructor.
  - decide_it.
  - intros x Hx. apply elem_of_nil in Hx. contradiction.
Qed.

Lemma cJSON_Delete_releases_owned_witness :
  exists h',
    cJSON_Delete (Some 5%nat) three_children = Some (tt, h') /\
    forall x, h' !! x
              = if decide (x ∈ [5%nat]) then None else three_children !! x.
Proof.
  apply (cJSON_Delete_releases_owned three_children (Some 5%nat) [5%nat]).
  exact three_children_owned.
Defined.

Lemma cJSON_ReplaceItemViaPointer_replaces_witness :
  exists h',
    cJSON_ReplaceItemViaPointer (Some 0%nat) (Some 2%nat) (Some 4%nat)
      three_children = Some (true, h') /\
    sibling_list h' 0%nat ([1] ++ 4 :: [3])%nat /\
    (forall x, x ∈ [2; 5]%nat -> h' !! x = None) /\
    (forall a, a <> 0%nat -> a <> 4%nat -> (a ∉ ([1] ++ 2 :: [3])%nat) ->
               (a ∉ [5%nat]) -> h' !! a = three_children !! a).
Proof.
  apply (cJSON_ReplaceItemViaPointer_replaces three_children 0%nat 2%nat
           4%nat [1%nat] [3%nat] [5%nat] (linked None None None)
           (linked (Some 1%nat) (Some 3%nat) (Some 5%nat))).
  - exact three_children_list.
  - decide_it.
  - discriminate.
  - decide_it.
  - reflexivity.
  - reflexivity.
  - exact three_children_owned.
  - decide_it.
  - decide_it.
  - decide_it.
  - intros x Hx. revert x Hx. apply Forall_forall. decide_it.
Defined.

Lemma elem_of_take_drop (a x : addr) (n : nat) (l : list addr) :
  a ∈ take n l ++ x :: drop n l <-> a = x \/ a ∈ l.
Proof.
  rewrite elem_of_app, elem_of_cons.
  rewrite <- (take_drop n l) at 3. rewrite elem_of_app. tauto.
Qed.

(** X10: detaching a child and appending it again moves it to the end
    of the children. *)
Theorem detach_then_append_moves_last (h : heap) (parent item : addr)
    (l1 l2 : list addr) :
  sibling_list h parent (l1 ++ item :: l2) ->
  (parent ∉ l1 ++ item :: l2) ->
  exists h' h'',
    cJSON_DetachItemViaPointer (Some parent) (Some item) h
      = Some (Some item, h') /\
    cJSON_AddItemToArray (Some parent) (Some item) h' = Some (true, h'') /\
    sibling_list h'' parent ((l1 ++ l2) ++ [item]).
Proof.
  intros Hlist Hpar.
  assert (Hnd : NoDup (l1 ++ item :: l2)).
  { destruct Hlist as (p & _ & Hseg). eapply dseg_NoDup. exact Hseg. }
  apply NoDup_middle in Hnd as (Hi1 & Hi2 & _).
  destruct (detach_list h parent item l1 l2 Hlist Hpar)
    as (h' & ni & Hrun & Hlist' & _ & Hitem & _).
  destruct (add_item_to_array_list h' parent item (l1 ++ l2)
              (set_next None (set_prev None ni)))
    as (h'' & Hrun' & Hlist'' & _); try assumption.
  - intros Hin. apply Hpar. apply elem_of_app in Hin as [Hin|Hin];
      apply elem_of_app; [left|right; apply list_elem_of_further]; exact Hin.
  - intros ->. apply Hpar. apply elem_of_app. right. apply list_elem_of_here.
  - intros Hin. apply elem_of_app in Hin as [Hin|Hin]; contradiction.
  - reflexivity.
  - exists h', h''. auto.
Qed.

Lemma detach_then_append_moves_last_witness :
  exists h' h'',
    cJSON_DetachItemViaPointer (Some 0%nat) (Some 1%nat) three_children
      = Some (Some 1%nat, h') /\
    cJSON_AddItemToArray (Some 0%nat) (Some 1%nat) h' = Some (true, h'') /\
    sibling_list h'' 0%nat (([] ++ [2; 3]) ++ [1])%nat.
Proof.
  apply (detach_then_append_moves_last three_children 0%nat 1%nat
           [] [2; 3]%nat).
  - exact three_children_list.
  - decide_it.
Defined.

(** X11: detaching a node that has just been inserted gives back the
    children as they were, and the nodes outside the list are as they
    were. *)
Theorem insert_then_detach_restores (h : heap) (array newitem : addr)
    (which : Z) (l : list addr) (n : cJSON) :
  0 <= which ->
  sibling_list h array l ->
  (array ∉ l) -> newitem <> array -> (newitem ∉ l) ->
  h !! newitem = Some n -> next n = None ->
  exists h' h'',
    cJSON_InsertItemInArray (Some array) which (Some newitem) h
      = Some (true, h') /\
    cJSON_DetachItemViaPointer (Some array) (Some newitem) h'
      = Some (Some newitem, h'') /\
    sibling_list h'' array l /\
    (forall a, a <> array -> a <> newitem -> (a ∉ l) -> h'' !! a = h !! a).
Proof.
  intros Hwhich Hlist Harr Hne Hnew Hn Hnext.
  destruct (insert_list h array newitem which l n
              Hwhich Hlist Harr Hne Hnew Hn Hnext)
    as (h' & Hrun & Hlist' & Hframe).
  destruct (detach_list h' array newitem _ _ Hlist')
    as (h'' & ni & Hrun' & Hlist'' & _ & _ & Hframe').
  { intros Hin. apply elem_of_take_drop in Hin as [Hin|Hin];
      [congruence|contradiction]. }
  rewrite take_drop in Hlist''.
  exists h', h''. split; [exact Hrun|]. split; [exact Hrun'|].
  split; [exact Hlist''|].
  intros a Ha1 Ha2 Ha3. rewrite Hframe'; [apply Hframe; assumption|exact Ha1|].
  intros Hin. apply elem_of_take_drop in Hin as [Hin|Hin];
    [congruence|contradiction].
Qed.

Lemma insert_then_detach_restores_witness :
  exists h' h'',
    cJSON_InsertItemInArray (Some 0%nat) 1 (Some 4%nat) three_children
      = Some (true, h') /\
    cJSON_DetachItemViaPointer (Some 0%nat) (Some 4%nat) h'
      = Some (Some 4%nat, h'') /\
    sibling_list h'' 0%nat [1; 2; 3]%nat /\
    (forall a, a <> 0%nat -> a <> 4%nat -> (a ∉ [1; 2; 3]%nat) ->
               h'' !! a = three_children !! a).
Proof.
  apply (insert_then_detach_restores three_children 0%nat 4%nat 1
           [1; 2; 3]%nat (linked None None None)).
  - lia.
  - exact three_children_list.
  - decide_it.
  - discriminate.
  - decide_it.
  - reflexivity.
  - reflexivity.
Defined.

End ChildrenFacts.

(** ** Comparison *)

Module CompareFacts.
Import Compare.

(** The sign given to [binary_round] shows in the sign of its result
    only. *)
Lemma SFabs_binary_round (sx sy : bool) (m : positive) (e : Z) :
  SFabs (binary_round dbl_prec dbl_emax sx m e)
  = SFabs (binary_round dbl_prec dbl_emax sy m e).
Proof.
  unfold binary_round.
  destruct (shl_align m e _) as [mz ez].
  unfold binary_round_aux.
  destruct (shr_fexp dbl_prec dbl_emax (Z.pos mz) ez loc_Exact) as [mrs' e'].
  destruct (shr_fexp dbl_prec dbl_emax _ e' loc_Exact) as [mrs'' e''].
  destruct (shr_m mrs''); [reflexivity| |reflexivity].
  destruct (e'' <=? dbl_emax - dbl_prec); reflexivity.
Qed.

Lemma SFabs_binary_normalize_opp (z e : Z) :
  SFabs (binary_normalize dbl_prec dbl_emax (- z) e false)
  = SFabs (binary_normalize dbl_prec dbl_emax z e false).
Proof.
  destruct z; cbn [Z.opp binary_normalize];
    [reflexivity|apply SFabs_binary_round..].
Qed.

(** [fabs(a - b)] is [fabs(b - a)]. *)
Lemma fabs_d_sub_sym (a b : double) :
  fabs (d_sub a b) = fabs (d_sub b a).
Proof.
  unfold fabs, d_sub.
  destruct a as [sa|sa| |sa ma ea], b as [sb|sb| |sb mb eb];
    try reflexivity;
    try (destruct sa, sb; reflexivity).
  unfold SFsub. rewrite (Z.min_comm eb ea).
  rewrite <- SFabs_binary_normalize_opp. f_equal. f_equal. lia.
Qed.

Lemma SFleb_nan_l (d : double) : SFleb S754_nan d = false.
Proof. reflexivity. Qed.

Lemma d_sub_nan (a b : double) :
  isnan a || isnan b = true -> d_sub a b = S754_nan.
Proof. destruct a, b; cbn; congruence. Qed.

(** The larger of [fabs(a)] and [fabs(b)] does not depend on the order. *)
Lemma maxVal_sym (a b : double) :
  isnan a || isnan b = false ->
  (if d_gt (fabs a) (fabs b) then fabs a else fabs b)
  = (if d_gt (fabs b) (fabs a) then fabs b else fabs a).
Proof.
  unfold d_gt, fabs, SFltb.
  destruct a as [sa|sa| |sa ma ea], b as [sb|sb| |sb mb eb];
    cbn; try reflexivity; try discriminate.
  intros _. rewrite (Z.compare_antisym ea eb).
  destruct (ea ?= eb) eqn:He; cbn [CompOpp]; try reflexivity.
  apply Z.compare_eq in He. subst eb.
  rewrite !Pos.compare_cont_spec. cbn [Pos.switch_Eq].
  rewrite (Pos.compare_antisym ma mb).
  destruct (ma ?= mb)%positive eqn:Hm; cbn [CompOpp]; try reflexivity.
  apply Pos.compare_eq in Hm. subst mb. reflexivity.
Qed.

Lemma compare_double_sym (a b : double) :
  compare_double a b = compare_double b a.
Proof.
  unfold compare_double.
  destruct (isnan a || isnan b) eqn:Hnan.
  - rewrite (d_sub_nan a b Hnan).
    rewrite orb_comm in Hnan. rewrite (d_sub_nan b a Hnan). reflexivity.
  - rewrite (fabs_d_sub_sym a b), (maxVal_sym a b Hnan). reflexivity.
Qed.

Section WithEnvironment.
Context `{Header} `{Libc}.

Lemma strcmp_eq_sym (a b : list Z) : strcmp_eq a b = strcmp_eq b a.
Proof.
  unfold strcmp_eq. apply bool_decide_ext. split; intros Heq; symmetry;
    exact Heq.
Qed.

Lemma compare_sym (fuel : nat) :
  forall (a b : tree) (case_sensitive : bool),
    compare fuel a b case_sensitive = compare fuel b a case_sensitive.
Proof.
  induction fuel as [|fuel IH]; intros a b cs; [reflexivity|].
  cbn [compare].
  rewrite (Z.eqb_sym (Z.land (type (node_of b)) 255)).
  destruct (Z.land (type (node_of a)) 255 =? Z.land (type (node_of b)) 255)
    eqn:Hk; cbn [negb]; [|reflexivity].
  apply Z.eqb_eq in Hk. rewrite <- Hk.
  set (ka := Z.land (type (node_of a)) 255).
  destruct (valid_kind ka); cbn [negb]; [|reflexivity].
  destruct ((ka =? cJSON_False) || (ka =? cJSON_True) || (ka =? cJSON_NULL));
    [reflexivity|].
  destruct (ka =? cJSON_Number); [apply compare_double_sym|].
  destruct ((ka =? cJSON_String) || (ka =? cJSON_Raw)).
  { destruct (valuestring (node_of a)), (valuestring (node_of b));
      try reflexivity. apply strcmp_eq_sym. }
  destruct (ka =? cJSON_Array).
  { generalize (children_of b). generalize (children_of a).
    induction l as [|x xs IHxs]; intros [|y ys]; try reflexivity.
    rewrite (IH x y cs). destruct (compare fuel y x cs); [|reflexivity].
    apply IHxs. }
  destruct (ka =? cJSON_Object); [apply andb_comm|reflexivity].
Qed.

(** X12: the result of [cJSON_Compare] does not depend on the order of
    its two arguments. *)
Theorem cJSON_Compare_symmetric (a b : tree) (case_sensitive : bool) :
  cJSON_Compare a b case_sensitive = cJSON_Compare b a case_sensitive.
Proof.
  unfold cJSON_Compare. rewrite (Nat.add_comm (height b)).
  apply compare_sym.
Qed.

Lemma get_object_item_cons (m : tree) (rest : list tree) (n : list Z)
    (cs : bool) :
  get_object_item (m :: rest) (Some n) cs =
    if key_matches cs n m then Some m
    else if cs && bool_decide (string (node_of m) = None) then None
    else get_object_item rest (Some n) cs.
Proof.
  unfold key_matches. cbn [get_object_item case_insensitive_strcmp_eq].
  destruct cs, (string (node_of m)) as [k|]; reflexivity.
Qed.

(** X13: [get_object_item] returns the first member whose key matches
    the name; the case-sensitive search gives up at a member without a
    key, the other one passes over it. *)
Theorem get_object_item_first_match (members : list tree) (n : list Z)
    (cs : bool) (t : tree) :
  get_object_item members (Some n) cs = Some t <->
  exists pre post,
    members = pre ++ t :: post /\
    key_matches cs n t = true /\
    Forall (fun m => key_matches cs n m = false /\
                     (cs = true -> string (node_of m) <> None)) pre.
Proof.
  induction members as [|m rest IH].
  - split; [discriminate|]. intros (pre & post & Heq & _).
    destruct pre; discriminate.
  - rewrite get_object_item_cons. split.
    + destruct (key_matches cs n m) eqn:Hm.
      * intros [= <-]. exists [], rest. auto.
      * destruct (cs && bool_decide (string (node_of m) = None)) eqn:Hstop;
          [discriminate|].
        intros Hrest. apply IH in Hrest as (pre & post & -> & Ht & Hpre).
        exists (m :: pre), post. split; [reflexivity|]. split; [exact Ht|].
        constructor; [|exact Hpre]. split; [exact Hm|].
        intros -> Hnone. cbn [andb] in Hstop.
        apply bool_decide_eq_false in Hstop. contradiction.
    + intros (pre & post & Heq & Ht & Hpre).
      destruct pre as [|m' pre].
      * injection Heq as -> ->. rewrite Ht. reflexivity.
      * injection Heq as <- ->.
        apply Forall_cons in Hpre as [[Hm Hkey] Hpre]. rewrite Hm.
        assert (Hstop : cs && bool_decide (string (node_of m) = None) = false).
        { destruct cs; [|reflexivity]. cbn [andb].
          apply bool_decide_eq_false. auto. }
        rewrite Hstop. apply IH. exists pre, post. auto.
Qed.

End WithEnvironment.

End CompareFacts.

(** ** More on the minifier *)

Module MinifyShape.
Import Minify MinifyFacts.

Lemma minified_text (text rest : list Z) :
  Forall nonzero text ->
  text_of (cJSON_Minify (text ++ 0 :: rest)) = kept Outside text.
Proof.
  intros Htext. rewrite (cJSON_Minify_spec text rest Htext).
  apply text_of_app_nul. apply kept_nonzero. exact Htext.
Qed.

(** X14: the minifier works within the buffer: the buffer keeps its
    length, the text does not get longer, and the bytes behind the new
    terminating nul are the ones that were there. *)
Theorem cJSON_Minify_in_place (text rest : list Z) :
  Forall nonzero text ->
  let buf := text ++ 0 :: rest in
  let n := strlen (cJSON_Minify buf) in
  length (cJSON_Minify buf) = length buf /\
  (n <= strlen buf)%nat /\
  drop (S n) (cJSON_Minify buf) = drop (S n) buf.
Proof.
  intros Htext buf n. subst n. unfold strlen.
  subst buf. rewrite (minified_text text rest Htext).
  rewrite (text_of_app_nul text rest Htext).
  rewrite (cJSON_Minify_spec text rest Htext).
  pose proof (kept_length Outside text) as Hlen.
  set (K := kept Outside text) in *.
  split; [|split; [exact Hlen|]].
  - rewrite length_app. cbn [length]. rewrite length_drop, !length_app.
    cbn [length]. lia.
  - change (K ++ 0 :: drop (S (length K)) (text ++ 0 :: rest))
      with (K ++ [0] ++ drop (S (length K)) (text ++ 0 :: rest)).
    rewrite app_assoc.
    replace (S (length K)) with (length (K ++ [0])) at 1
      by (rewrite length_app; cbn [length]; lia).
    apply drop_app_length.
Qed.

Lemma cJSON_Minify_in_place_witness :
  let buf := [32; 49; 32] ++ 0 :: [7; 7] in
  let n := strlen (cJSON_Minify buf) in
  length (cJSON_Minify buf) = length buf /\
  (n <= strlen buf)%nat /\
  drop (S n) (cJSON_Minify buf) = drop (S n) buf.
Proof.
  apply (cJSON_Minify_in_place [32; 49; 32] [7; 7]).
  repeat constructor; discriminate.
Defined.

Lemma kept_plain (text : list Z) :
  Forall (fun c => c <> 34 /\ c <> 47) text ->
  kept Outside text = List.filter (fun c => negb (is_blank c)) text.
Proof.
  induction 1 as [|c r [Hq Hs] _ IH]; [reflexivity|].
  cbn [kept List.filter]. fold (is_blank c).
  destruct (is_blank c); cbn [negb]; [exact IH|].
  destruct (Z.eqb_spec c 47); [contradiction|].
  destruct (Z.eqb_spec c 34); [contradiction|].
  rewrite IH. reflexivity.
Qed.

(** X15: from a text without quotes and slashes the minifier removes
    the bytes space, tab, carriage return and line feed, and nothing
    else. *)
Theorem cJSON_Minify_strips_blanks (text rest : list Z) :
  Forall nonzero text ->
  Forall (fun c => c <> 34 /\ c <> 47) text ->
  text_of (cJSON_Minify (text ++ 0 :: rest))
  = List.filter (fun c => negb (is_blank c)) text.
Proof.
  intros Htext Hplain. rewrite (minified_text text rest Htext).
  apply kept_plain. exact Hplain.
Qed.

Lemma cJSON_Minify_strips_blanks_witness :
  text_of (cJSON_Minify ([91; 32; 49; 44; 10; 9; 50; 32; 93] ++ 0 :: []))
  = List.filter (fun c => negb (is_blank c))
      [91; 32; 49; 44; 10; 9; 50; 32; 93].
Proof.
  apply (cJSON_Minify_strips_blanks [91; 32; 49; 44; 10; 9; 50; 32; 93] []).
  - repeat constructor; discriminate.
  - repeat constructor; discriminate.
Defined.

Lemma kept_string_body (body post : list Z) :
  Forall (fun c => c <> 34 /\ c <> 92) body ->
  kept InString (body ++ 34 :: post) = body ++ 34 :: kept Outside post.
Proof.
  induction 1 as [|c r [Hq Hb] _ IH]; [reflexivity|].
  cbn [app kept].
  destruct (Z.eqb_spec c 34); [contradiction|].
  destruct (Z.eqb_spec c 92); [contradiction|].
  rewrite IH. reflexivity.
Qed.

Lemma Forall_nonzero_app (a b : list Z) :
  Forall nonzero a -> Forall nonzero b -> Forall nonzero (a ++ b).
Proof. intros Ha Hb. apply Forall_app. split; assumption. Qed.

(** X16: a string literal without backslashes is kept byte for byte,
    white space included, and the minifier goes on behind its closing
    quote as it does at the start of a text. *)
Theorem cJSON_Minify_keeps_strings (body post rest rest' : list Z) :
  Forall nonzero body -> Forall nonzero post ->
  Forall (fun c => c <> 34 /\ c <> 92) body ->
  text_of (cJSON_Minify ((34 :: body ++ 34 :: post) ++ 0 :: rest))
  = 34 :: body ++ 34 :: text_of (cJSON_Minify (post ++ 0 :: rest')).
Proof.
  intros Hbody Hpost Hplain.
  rewrite minified_text.
  2:{ constructor; [discriminate|]. apply Forall_nonzero_app; [exact Hbody|].
      constructor; [discriminate|exact Hpost]. }
  rewrite (minified_text post rest' Hpost).
  cbn [kept Z.eqb Pos.eqb orb]. rewrite (kept_string_body body post Hplain).
  reflexivity.
Qed.

Lemma cJSON_Minify_keeps_strings_witness :
  text_of (cJSON_Minify ((34 :: [97; 32; 98] ++ 34 :: [32; 49]) ++ 0 :: []))
  = 34 :: [97; 32; 98] ++ 34 :: text_of (cJSON_Minify ([32; 49] ++ 0 :: [])).
Proof.
  apply (cJSON_Minify_keeps_strings [97; 32; 98] [32; 49] [] []).
  - repeat constructor; discriminate.
  - repeat constructor; discriminate.
  - repeat constructor; discriminate.
Defined.

Lemma kept_line_comment (line post : list Z) :
  Forall (fun c => c <> 10) line ->
  kept LineComment (line ++ 10 :: post) = kept Outside post.
Proof.
  induction 1 as [|c r Hc _ IH]; [reflexivity|].
  cbn [app kept]. destruct (Z.eqb_spec c 10); [contradiction|exact IH].
Qed.

Lemma kept_block_comment (body post : list Z) :
  Forall (fun c => c <> 42) body ->
  kept BlockComment (body ++ 42 :: 47 :: post) = kept Outside post.
Proof.
  induction 1 as [|c r Hc _ IH]; [reflexivity|].
  cbn [app kept]. destruct (Z.eqb_spec c 42); [contradiction|exact IH].
Qed.

(** X17: a comment from two slashes through the next line feed leaves
    nothing in the minified text. *)
Theorem cJSON_Minify_drops_line_comment (comment post rest rest' : list Z) :
  Forall nonzero comment -> Forall nonzero post ->
  Forall (fun c => c <> 10) comment ->
  text_of (cJSON_Minify ((47 :: 47 :: comment ++ 10 :: post) ++ 0 :: rest))
  = text_of (cJSON_Minify (post ++ 0 :: rest')).
Proof.
  intros Hcomment Hpost Hshape.
  rewrite (minified_text post rest' Hpost).
  rewrite minified_text.
  2:{ do 2 (constructor; [discriminate|]).
      apply Forall_nonzero_app; [exact Hcomment|].
      constructor; [discriminate|exact Hpost]. }
  cbn [kept Z.eqb Pos.eqb orb]. apply kept_line_comment. exact Hshape.
Qed.

Lemma cJSON_Minify_drops_line_comment_witness :
  text_of (cJSON_Minify ((47 :: 47 :: [120; 32; 42] ++ 10 :: [49])
                         ++ 0 :: []))
  = text_of (cJSON_Minify ([49] ++ 0 :: [])).
Proof.
  apply (cJSON_Minify_drops_line_comment [120; 32; 42] [49] [] []).
  - repeat constructor; discriminate.
  - repeat constructor; discriminate.
  - repeat constructor; discriminate.
Defined.

(** X18: a comment from slash-star through the next star-slash leaves
    nothing in the minified text, line feeds inside it included. *)
Theorem cJSON_Minify_drops_block_comment (comment post rest rest' : list Z) :
  Forall nonzero comment -> Forall nonzero post ->
  Forall (fun c => c <> 42) comment ->
  text_of (cJSON_Minify ((47 :: 42 :: comment ++ 42 :: 47 :: post)
                         ++ 0 :: rest))
  = text_of (cJSON_Minify (post ++ 0 :: rest')).
Proof.
  intros Hcomment Hpost Hshape.
  rewrite (minified_text post rest' Hpost).
  rewrite minified_text.
  2:{ do 2 (constructor; [discriminate|]).
      apply Forall_nonzero_app; [exact Hcomment|].
      do 2 (constructor; [discriminate|]). exact Hpost. }
  cbn [kept Z.eqb Pos.eqb orb]. apply kept_block_comment. exact Hshape.
Qed.

Lemma cJSON_Minify_drops_block_comment_witness :
  text_of (cJSON_Minify ((47 :: 42 :: [120; 10; 121] ++ 42 :: 47 :: [49])
                         ++ 0 :: []))
  = text_of (cJSON_Minify ([49] ++ 0 :: [])).
Proof.
  apply (cJSON_Minify_drops_block_comment [120; 10; 121] [49] [] []).
  - repeat constructor; discriminate.
  - repeat constructor; discriminate.
  - repeat constructor; discriminate.
Defined.

(** X19: two backslashes before the closing quote of a string literal
    make the minifier take the quote for an escaped one: what follows
    is kept as if it were inside the literal, white space included. *)
Theorem cJSON_Minify_escaped_backslash (body post rest : list Z) :
  Forall nonzero body -> Forall nonzero post ->
  Forall (fun c => c <> 34 /\ c <> 92) body ->
  Forall (fun c => c <> 34 /\ c <> 92) post ->
  let text := 34 :: body ++ 92 :: 92 :: 34 :: post in
  text_of (cJSON_Minify (text ++ 0 :: rest)) = text.
Proof.
  intros Hbody Hpost Hplain Hplain' text. subst text.
  rewrite minified_text.
  2:{ constructor; [discriminate|]. apply Forall_nonzero_app; [exact Hbody|].
      do 3 (constructor; [discriminate|]). exact Hpost. }
  cbn [kept Z.eqb Pos.eqb orb]. f_equal.
  clear Hbody Hpost.
  induction Hplain as [|c r [Hq Hb] _ IH].
  - cbn [app kept Z.eqb Pos.eqb]. do 3 f_equal.
    induction Hplain' as [|c r [Hq Hb] _ IH]; [reflexivity|].
    cbn [kept].
    destruct (Z.eqb_spec c 34); [contradiction|].
    destruct (Z.eqb_spec c 92); [contradiction|].
    rewrite IH. reflexivity.
  - cbn [app kept].
    destruct (Z.eqb_spec c 34); [contradiction|].
    destruct (Z.eqb_spec c 92); [contradiction|].
    rewrite IH. reflexivity.
Qed.

Lemma cJSON_Minify_escaped_backslash_witness :
  let text := 34 :: [97] ++ 92 :: 92 :: 34 :: [32; 44; 32; 49] in
  text_of (cJSON_Minify (text ++ 0 :: [])) = text.
Proof.
  apply (cJSON_Minify_escaped_backslash [97] [32; 44; 32; 49] []).
  - repeat constructor; discriminate.
  - repeat constructor; discriminate.
  - repeat constructor; discriminate.
  - repeat constructor; discriminate.
Defined.

End MinifyShape.

(** ** Strings: printing and parsing *)

Module StringFacts.
Import Hex HexFacts.

Lemma hex_digit_hex_char (v : Z) :
  0 <= v < 16 -> hex_digit (Printer.hex_char v) = Some v.
Proof.
  intros Hv. unfold Printer.hex_char, hex_digit.
  destruct (Z.ltb_spec v 10).
  - destruct (Z.leb_spec 48 (48 + v)); [|lia].
    destruct (Z.leb_spec (48 + v) 57); [|lia].
    cbn [andb]. f_equal. lia.
  - destruct (Z.leb_spec 48 (97 + (v - 10))); [|lia].
    destruct (Z.leb_spec (97 + (v - 10)) 57); [lia|].
    destruct (Z.leb_spec 65 (97 + (v - 10))); [|lia].
    destruct (Z.leb_spec (97 + (v - 10)) 70); [lia|].
    destruct (Z.leb_spec 97 (97 + (v - 10))); [|lia].
    destruct (Z.leb_spec (97 + (v - 10)) 102); [|lia].
    cbn [andb]. f_equal. lia.
Qed.

Lemma hex_char_plain (v : Z) :
  0 <= v < 16 ->
  Printer.hex_char v <> 34 /\ Printer.hex_char v <> 92 /\
  Printer.hex_char v <> 0.
Proof.
  intros Hv. unfold Printer.hex_char. destruct (Z.ltb_spec v 10); lia.
Qed.

Lemma to_uint_small (z : Z) : 0 <= z < 4294967296 -> to_uint z = z.
Proof.
  intros Hz. unfold to_uint, UINT_MODULUS.
  change (2 ^ 32) with 4294967296. apply Z.mod_small. exact Hz.
Qed.

(** The four digits [sprintf] writes for [%04x]. *)
Lemma parse_hex4_digits (v : Z) (rest : list Z) :
  0 <= v < 65536 ->
  parse_hex4 (Printer.hex_char (v / 4096 mod 16)
              :: Printer.hex_char (v / 256 mod 16)
              :: Printer.hex_char (v / 16 mod 16)
              :: Printer.hex_char (v mod 16) :: rest) = v.
Proof.
  intros Hv.
  assert (H3 : 0 <= v / 4096 mod 16 < 16) by (apply Z.mod_pos_bound; lia).
  assert (H2 : 0 <= v / 256 mod 16 < 16) by (apply Z.mod_pos_bound; lia).
  assert (H1 : 0 <= v / 16 mod 16 < 16) by (apply Z.mod_pos_bound; lia).
  assert (H0 : 0 <= v mod 16 < 16) by (apply Z.mod_pos_bound; lia).
  assert (Hsum : v = 4096 * (v / 4096 mod 16) + 256 * (v / 256 mod 16)
                     + 16 * (v / 16 mod 16) + v mod 16).
  { clear H3 H2 H1 H0. Z.div_mod_to_equations. lia. }
  set (d3 := v / 4096 mod 16) in *. set (d2 := v / 256 mod 16) in *.
  set (d1 := v / 16 mod 16) in *. set (d0 := v mod 16) in *.
  unfold parse_hex4, hex4_loop.
  rewrite (hex4_step_digit _ 0 _ d3)
    by (apply hex_digit_hex_char; exact H3).
  rewrite (hex4_step_digit _ 1 _ d2)
    by (apply hex_digit_hex_char; exact H2).
  rewrite (hex4_step_digit _ 2 _ d1)
    by (apply hex_digit_hex_char; exact H1).
  rewrite (hex4_step_digit _ 3 _ d0)
    by (apply hex_digit_hex_char; exact H0).
  cbn [Nat.ltb Nat.leb]. rewrite !Z.shiftl_mul_pow2 by lia.
  change (2 ^ 4) with 16.
  rewrite (to_uint_small (0 + d3)) by lia.
  rewrite (to_uint_small ((0 + d3) * 16)) by lia.
  rewrite (to_uint_small ((0 + d3) * 16 + d2)) by lia.
  rewrite (to_uint_small (((0 + d3) * 16 + d2) * 16)) by lia.
  rewrite (to_uint_small (((0 + d3) * 16 + d2) * 16 + d1)) by lia.
  rewrite (to_uint_small ((((0 + d3) * 16 + d2) * 16 + d1) * 16)) by lia.
  rewrite to_uint_small by lia. lia.
Qed.

(** *** What the printer writes for one byte *)

Lemma escape_byte_cases (c : Z) :
  1 <= c < 256 ->
  (Printer.escape_byte c = [c] /\ c <> 34 /\ c <> 92 /\ 31 < c) \/
  (exists x, Printer.escape_byte c = [92; x] /\
     ((c = 92 /\ x = 92) \/ (c = 34 /\ x = 34) \/ (c = 8 /\ x = 98) \/
      (c = 12 /\ x = 102) \/ (c = 10 /\ x = 110) \/ (c = 13 /\ x = 114) \/
      (c = 9 /\ x = 116))) \/
  (c < 32 /\
   Printer.escape_byte c
   = [92; 117; Printer.hex_char (c / 4096 mod 16);
      Printer.hex_char (c / 256 mod 16); Printer.hex_char (c / 16 mod 16);
      Printer.hex_char (c mod 16)]).
Proof.
  intros Hc.
  destruct (Z.eq_dec c 34) as [->|H34].
  { right. left. exists 34. split; [reflexivity|]. tauto. }
  destruct (Z.eq_dec c 92) as [->|H92].
  { right. left. exists 92. split; [reflexivity|]. tauto. }
  unfold Printer.escape_byte.
  destruct (Z.eqb_spec c 34); [contradiction|].
  destruct (Z.eqb_spec c 92); [contradiction|].
  destruct (Z.ltb_spec 31 c) as [Hhigh|Hlow]; cbn [andb negb].
  - left. tauto.
  - destruct (Z.eqb_spec c 8) as [->|H8].
    { right. left. exists 98. split; [reflexivity|]. tauto. }
    destruct (Z.eqb_spec c 12) as [->|H12].
    { right. left. exists 102. split; [reflexivity|]. tauto. }
    destruct (Z.eqb_spec c 10) as [->|H10].
    { right. left. exists 110. split; [reflexivity|]. tauto. }
    destruct (Z.eqb_spec c 13) as [->|H13].
    { right. left. exists 114. split; [reflexivity|]. tauto. }
    destruct (Z.eqb_spec c 9) as [->|H9].
    { right. left. exists 116. split; [reflexivity|]. tauto. }
    right. right. split; [lia|reflexivity].
Qed.

Lemma escape_cost_le (c : Z) : (Printer.escape_cost c <= 5)%nat.
Proof. unfold Printer.escape_cost. repeat case_match; lia. Qed.

Lemma escape_cost_zero (c : Z) :
  Printer.escape_cost c = 0%nat -> Printer.escape_byte c = [c].
Proof.
  unfold Printer.escape_cost, Printer.escape_byte.
  destruct (Z.eqb_spec c 34); [discriminate|].
  destruct (Z.eqb_spec c 92); [discriminate|].
  destruct (Z.eqb_spec c 8); [discriminate|].
  destruct (Z.eqb_spec c 12); [discriminate|].
  destruct (Z.eqb_spec c 10); [discriminate|].
  destruct (Z.eqb_spec c 13); [discriminate|].
  destruct (Z.eqb_spec c 9); [discriminate|].
  cbn [orb andb negb].
  destruct (Z.ltb_spec c 32); [discriminate|].
  destruct (Z.ltb_spec 31 c); [reflexivity|lia].
Qed.

Lemma escapes_none (s : list Z) :
  list_sum (map Printer.escape_cost s) = 0%nat ->
  concat (map Printer.escape_byte s) = s.
Proof.
  induction s as [|c r IH]; [reflexivity|].
  change (list_sum (map Printer.escape_cost (c :: r)))
    with (Printer.escape_cost c + list_sum (map Printer.escape_cost r))%nat.
  cbn [map concat]. intros Hsum.
  rewrite escape_cost_zero by lia. rewrite IH by lia. reflexivity.
Qed.

Lemma escapes_sum_le (s : list Z) :
  (list_sum (map Printer.escape_cost s) <= 5 * List.length s)%nat.
Proof.
  induction s as [|c r IH]; [cbn; lia|].
  change (list_sum (map Printer.escape_cost (c :: r)))
    with (Printer.escape_cost c + list_sum (map Printer.escape_cost r))%nat.
  cbn [List.length]. pose proof (escape_cost_le c). lia.
Qed.

Lemma escape_byte_nonzero (c : Z) :
  1 <= c < 256 -> Forall (fun b => b <> 0) (Printer.escape_byte c).
Proof.
  intros Hc.
  destruct (escape_byte_cases c Hc)
    as [(-> & _)|[(x & -> & Hx)|(Hlow & ->)]].
  - repeat constructor. lia.
  - repeat constructor; lia.
  - repeat constructor; try discriminate;
      apply hex_char_plain; apply Z.mod_pos_bound; lia.
Qed.

Lemma escaped_nonzero (s : list Z) :
  c_string s ->
  Forall (fun b => b <> 0) (concat (map Printer.escape_byte s)).
Proof.
  induction 1 as [|c r Hc _ IH]; [constructor|].
  cbn [map concat]. apply Forall_app. split; [|exact IH].
  apply escape_byte_nonzero. exact Hc.
Qed.

Lemma text_of_nonzero (s : list Z) :
  Forall (fun b => b <> 0) s -> text_of s = s.
Proof.
  induction 1 as [|c r Hc _ IH]; [reflexivity|].
  cbn [text_of]. destruct (Z.eqb_spec c 0); [contradiction|].
  rewrite IH. reflexivity.
Qed.

Lemma text_of_nul (s rest : list Z) :
  Forall (fun b => b <> 0) s -> text_of (s ++ 0 :: rest) = s.
Proof.
  induction 1 as [|c r Hc _ IH]; [reflexivity|].
  cbn [app text_of]. destruct (Z.eqb_spec c 0); [contradiction|].
  rewrite IH. reflexivity.
Qed.

Lemma c_string_nonzero (s : list Z) :
  c_string s -> Forall (fun b => b <> 0) s.
Proof.
  induction 1 as [|c r Hc _ IH]; constructor; [lia|exact IH].
Qed.

(** *** Finding the closing quote *)

Lemma byte_at_middle (pre post : list Z) (c : Z) :
  byte_at (pre ++ c :: post) (List.length pre) = c.
Proof. rewrite byte_at_app_r0. reflexivity. Qed.

Lemma byte_at_middle1 (pre post : list Z) (c x : Z) :
  byte_at (pre ++ c :: x :: post) (List.length pre + 1) = x.
Proof. rewrite byte_at_app_r. reflexivity. Qed.

Lemma string_end_plain (b : Parser.parse_buffer) (pre post : list Z) (c : Z)
    (fuel : nat) :
  Parser.content b = pre ++ c :: post -> c <> 34 -> c <> 92 ->
  (List.length pre < Parser.length b)%nat ->
  Parser.string_end_loop (S fuel) b (List.length pre)
  = Parser.string_end_loop fuel b (List.length pre + 1).
Proof.
  intros Hcontent H34 H92 Hlen. cbn [Parser.string_end_loop].
  rewrite Hcontent, byte_at_middle.
  destruct (Nat.ltb_spec (List.length pre) (Parser.length b)); [|lia].
  destruct (Z.eqb_spec c 34); [contradiction|].
  destruct (Z.eqb_spec c 92); [contradiction|].
  reflexivity.
Qed.

Lemma string_end_escape (b : Parser.parse_buffer) (pre post : list Z) (x : Z)
    (fuel : nat) :
  Parser.content b = pre ++ 92 :: x :: post ->
  (List.length pre + 1 < Parser.length b)%nat ->
  Parser.string_end_loop (S fuel) b (List.length pre)
  = Parser.string_end_loop fuel b (List.length pre + 2).
Proof.
  intros Hcontent Hlen. cbn [Parser.string_end_loop].
  rewrite Hcontent, byte_at_middle.
  destruct (Nat.ltb_spec (List.length pre) (Parser.length b)); [|lia].
  cbn [Z.eqb Pos.eqb negb andb].
  destruct (Nat.leb_spec (Parser.length b) (List.length pre + 1)); [lia|].
  rewrite <- Nat.add_assoc. reflexivity.
Qed.

(** The scan passes over what the printer wrote for one byte. *)
Lemma string_end_chunk (b : Parser.parse_buffer) (pre post : list Z) (c : Z) :
  1 <= c < 256 ->
  Parser.content b = pre ++ Printer.escape_byte c ++ post ->
  (List.length pre + List.length (Printer.escape_byte c)
   <= Parser.length b)%nat ->
  exists k,
    (1 <= k <= List.length (Printer.escape_byte c))%nat /\
    forall fuel,
      Parser.string_end_loop (k + fuel) b (List.length pre)
      = Parser.string_end_loop fuel b
          (List.length pre + List.length (Printer.escape_byte c)).
Proof.
  intros Hc Hcontent Hlen.
  destruct (escape_byte_cases c Hc)
    as [(Heq & H34 & H92 & _)|[(x & Heq & _)|(Hlow & Heq)]];
    rewrite Heq in Hcontent, Hlen |- *; cbn [List.length app] in *.
  - exists 1%nat. split; [lia|]. intros fuel.
    apply (string_end_plain b pre post c fuel); [assumption..|lia].
  - exists 1%nat. split; [lia|]. intros fuel.
    apply (string_end_escape b pre post x fuel); [assumption|lia].
  - exists 5%nat. split; [lia|]. intros fuel.
    set (h3 := Printer.hex_char (c / 4096 mod 16)) in *.
    set (h2 := Printer.hex_char (c / 256 mod 16)) in *.
    set (h1 := Printer.hex_char (c / 16 mod 16)) in *.
    set (h0 := Printer.hex_char (c mod 16)) in *.
    assert (P3 : h3 <> 34 /\ h3 <> 92 /\ h3 <> 0)
      by (apply hex_char_plain, Z.mod_pos_bound; lia).
    assert (P2 : h2 <> 34 /\ h2 <> 92 /\ h2 <> 0)
      by (apply hex_char_plain, Z.mod_pos_bound; lia).
    assert (P1 : h1 <> 34 /\ h1 <> 92 /\ h1 <> 0)
      by (apply hex_char_plain, Z.mod_pos_bound; lia).
    assert (P0 : h0 <> 34 /\ h0 <> 92 /\ h0 <> 0)
      by (apply hex_char_plain, Z.mod_pos_bound; lia).
    change (5 + fuel)%nat with (S (S (S (S (S fuel))))).
    rewrite (string_end_escape b pre (h3 :: h2 :: h1 :: h0 :: post) 117)
      by (assumption || lia).
    assert (Hstep : forall (q : list Z) (h : Z) (rest : list Z) (f : nat),
      pre ++ 92 :: 117 :: h3 :: h2 :: h1 :: h0 :: post = q ++ h :: rest ->
      h <> 34 -> h <> 92 ->
      (List.length q < Parser.length b)%nat ->
      Parser.string_end_loop (S f) b (List.length q)
      = Parser.string_end_loop f b (List.length q + 1)).
    { intros q h rest f Hq. apply (string_end_plain b q rest h f).
      rewrite Hcontent. exact Hq. }
    replace (List.length pre + 2)%nat
      with (List.length (pre ++ [92; 117]))
      by (rewrite length_app; reflexivity).
    rewrite (Hstep (pre ++ [92; 117]) h3 (h2 :: h1 :: h0 :: post));
      [|rewrite <- app_assoc; reflexivity|tauto|tauto
       |rewrite length_app; cbn [List.length]; lia].
    replace (List.length (pre ++ [92%Z; 117%Z]) + 1)%nat
      with (List.length (pre ++ [92; 117; h3]))
      by (rewrite !length_app; cbn [List.length]; lia).
    rewrite (Hstep (pre ++ [92; 117; h3]) h2 (h1 :: h0 :: post));
      [|rewrite <- app_assoc; reflexivity|tauto|tauto
       |rewrite length_app; cbn [List.length]; lia].
    replace (List.length (pre ++ [92%Z; 117%Z; h3]) + 1)%nat
      with (List.length (pre ++ [92; 117; h3; h2]))
      by (rewrite !length_app; cbn [List.length]; lia).
    rewrite (Hstep (pre ++ [92; 117; h3; h2]) h1 (h0 :: post));
      [|rewrite <- app_assoc; reflexivity|tauto|tauto
       |rewrite length_app; cbn [List.length]; lia].
    replace (List.length (pre ++ [92%Z; 117%Z; h3; h2]) + 1)%nat
      with (List.length (pre ++ [92; 117; h3; h2; h1]))
      by (rewrite !length_app; cbn [List.length]; lia).
    rewrite (Hstep (pre ++ [92; 117; h3; h2; h1]) h0 post);
      [|rewrite <- app_assoc; reflexivity|tauto|tauto
       |rewrite length_app; cbn [List.length]; lia].
    f_equal. rewrite length_app. cbn [List.length]. lia.
Qed.

Lemma string_end_printed (b : Parser.parse_buffer) (post : list Z)
    (s : list Z) :
  c_string s ->
  forall (pre : list Z) (fuel : nat),
    Parser.content b
    = pre ++ concat (map Printer.escape_byte s) ++ 34 :: post ->
    (List.length pre + List.length (concat (map Printer.escape_byte s))
     < Parser.length b)%nat ->
    (List.length (concat (map Printer.escape_byte s)) < fuel)%nat ->
    Parser.string_end_loop fuel b (List.length pre)
    = Some (List.length pre
            + List.length (concat (map Printer.escape_byte s)))%nat.
Proof.
  induction 1 as [|c r Hc _ IH]; intros pre fuel Hcontent Hlen Hfuel.
  - cbn [map concat List.length app] in *.
    destruct fuel; [lia|]. cbn [Parser.string_end_loop].
    rewrite Hcontent, byte_at_middle. cbn [Z.eqb Pos.eqb negb].
    rewrite andb_false_r, Nat.add_0_r. reflexivity.
  - cbn [map concat] in *. rewrite length_app in Hlen, Hfuel |- *.
    rewrite <- app_assoc in Hcontent.
    destruct (string_end_chunk b pre _ c Hc Hcontent) as (k & Hk & Hrun);
      [lia|].
    replace fuel with (k + (fuel - k))%nat by lia.
    rewrite Hrun.
    replace (List.length pre + List.length (Printer.escape_byte c))%nat
      with (List.length (pre ++ Printer.escape_byte c))
      by apply length_app.
    rewrite (IH (pre ++ Printer.escape_byte c) (fuel - k)%nat).
    + f_equal. rewrite length_app. lia.
    + rewrite Hcontent, <- app_assoc. reflexivity.
    + rewrite length_app. lia.
    + lia.
Qed.

(** *** Decoding *)

Lemma skipn_middle (pre rest : list Z) (a b : Z) :
  skipn (List.length pre + 2) (pre ++ a :: b :: rest) = rest.
Proof.
  replace (List.length pre + 2)%nat with (List.length (pre ++ [a; b]))
    by (rewrite length_app; reflexivity).
  change (pre ++ a :: b :: rest) with (pre ++ [a; b] ++ rest).
  rewrite app_assoc. apply drop_app_length.
Qed.

(** The escape the printer writes for a control byte is read back as
    that byte. *)
Lemma utf16_literal_small (pre post : list Z) (c : Z) (input_end : nat) :
  0 <= c < 128 ->
  (List.length pre + 6 <= input_end)%nat ->
  Parser.utf16_literal_to_utf8
    (pre ++ 92 :: 117 :: Printer.hex_char (c / 4096 mod 16)
         :: Printer.hex_char (c / 256 mod 16)
         :: Printer.hex_char (c / 16 mod 16)
         :: Printer.hex_char (c mod 16) :: post)
    (List.length pre) input_end
  = Some (6%nat, [c]).
Proof.
  intros Hc Hend. unfold Parser.utf16_literal_to_utf8.
  destruct (Nat.ltb_spec (input_end - List.length pre) 6); [lia|].
  rewrite skipn_middle, parse_hex4_digits by lia.
  destruct (Z.leb_spec 56320 c); [lia|]. cbn [andb].
  destruct (Z.leb_spec 55296 c); [lia|]. cbn [andb].
  destruct (Z.ltb_spec c 128); [|lia].
  cbn [Nat.sub Parser.utf8_continuation Nat.ltb Nat.leb].
  do 3 f_equal. change 127 with (Z.ones 7).
  rewrite Z.land_ones by lia. apply Z.mod_small.
  change (2 ^ 7) with 128. lia.
Qed.

Lemma string_decode_chunk (content pre post : list Z) (c : Z)
    (input_end fuel : nat) (output : list Z) :
  1 <= c < 256 ->
  content = pre ++ Printer.escape_byte c ++ post ->
  (List.length pre + List.length (Printer.escape_byte c) <= input_end)%nat ->
  Parser.string_decode_loop (S fuel) content (List.length pre) input_end
    output
  = Parser.string_decode_loop fuel content
      (List.length pre + List.length (Printer.escape_byte c)) input_end
      (output ++ [c]).
Proof.
  intros Hc -> Hend. cbn [Parser.string_decode_loop].
  destruct (escape_byte_cases c Hc)
    as [(Heq & H34 & H92 & _)|[(x & Heq & Hx)|(Hlow & Heq)]];
    rewrite Heq in Hend |- *; cbn [List.length app] in *.
  - destruct (Nat.ltb_spec (List.length pre) input_end); [|lia].
    cbn [negb]. rewrite byte_at_middle.
    destruct (Z.eqb_spec c 92); [contradiction|]. reflexivity.
  - destruct (Nat.ltb_spec (List.length pre) input_end); [|lia].
    cbn [negb]. rewrite byte_at_middle, byte_at_middle1.
    cbn [Z.eqb Pos.eqb negb].
    destruct (Nat.ltb_spec (input_end - List.length pre) 1); [lia|].
    destruct Hx as [Hx|[Hx|[Hx|[Hx|[Hx|[Hx|Hx]]]]]];
      destruct Hx as [-> ->]; reflexivity.
  - destruct (Nat.ltb_spec (List.length pre) input_end); [|lia].
    cbn [negb]. rewrite byte_at_middle, byte_at_middle1.
    cbn [Z.eqb Pos.eqb negb orb].
    destruct (Nat.ltb_spec (input_end - List.length pre) 1); [lia|].
    rewrite utf16_literal_small by lia. reflexivity.
Qed.

Lemma string_decode_printed (content post : list Z) (input_end : nat)
    (s : list Z) :
  c_string s ->
  forall (pre output : list Z) (fuel : nat),
    content = pre ++ concat (map Printer.escape_byte s) ++ post ->
    input_end
    = (List.length pre
       + List.length (concat (map Printer.escape_byte s)))%nat ->
    (List.length s <= fuel)%nat ->
    Parser.string_decode_loop fuel content (List.length pre) input_end output
    = Some (output ++ s).
Proof.
  induction 1 as [|c r Hc _ IH]; intros pre output fuel Hcontent Hend Hfuel.
  - cbn [map concat List.length] in Hend. rewrite Nat.add_0_r in Hend.
    subst input_end. rewrite app_nil_r.
    destruct fuel; cbn [Parser.string_decode_loop];
      rewrite Nat.ltb_irrefl; reflexivity.
  - cbn [map concat List.length] in *. rewrite length_app in Hend.
    rewrite <- app_assoc in Hcontent.
    destruct fuel; [lia|].
    rewrite (string_decode_chunk content pre _ c input_end fuel output
               Hc Hcontent) by lia.
    replace (List.length pre + List.length (Printer.escape_byte c))%nat
      with (List.length (pre ++ Printer.escape_byte c))
      by apply length_app.
    rewrite (IH (pre ++ Printer.escape_byte c) (output ++ [c]) fuel).
    + rewrite <- app_assoc. reflexivity.
    + rewrite Hcontent, <- app_assoc. reflexivity.
    + rewrite length_app. lia.
    + lia.
Qed.

Lemma escaped_length_ge (s : list Z) :
  c_string s ->
  (List.length s <= List.length (concat (map Printer.escape_byte s)))%nat.
Proof.
  induction 1 as [|c r Hc _ IH]; [cbn; lia|].
  cbn [map concat List.length]. rewrite length_app.
  enough (1 <= List.length (Printer.escape_byte c))%nat by lia.
  destruct (escape_byte_cases c Hc) as [(-> & _)|[(x & -> & _)|(_ & ->)]];
    cbn [List.length]; lia.
Qed.

(** [ensure] on the buffer [print] starts with. *)
Lemma ensure_fresh (format : bool) (needed : Z) :
  0 <= needed -> needed + 1 <= INT_MAX ->
  exists p1,
    Printer.ensure (Printer.mk_printbuffer [] 256 0 0 false format) needed
      = Some p1 /\
    Printer.buffer p1 = [] /\ Printer.offset p1 = 0%nat.
Proof.
  intros Hpos Hmax. unfold Printer.ensure.
  cbn [Printer.length Printer.offset Printer.noalloc Z.of_nat].
  unfold INT_MAX in *.
  destruct (Z.ltb_spec 2147483647 needed); [lia|].
  cbn [Z.ltb Z.leb Z.compare andb].
  assert (Hdone : forall p1 : Printer.printbuffer,
    Printer.buffer p1 = [] -> Printer.offset p1 = 0%nat ->
    exists p2, Some p1 = Some p2 /\
               Printer.buffer p2 = [] /\ Printer.offset p2 = 0%nat)
    by eauto.
  change (Z.of_nat 0) with 0. change (256 <=? 0) with false. cbv iota.
  destruct (needed + 0 + 1 <=? 256); [apply Hdone; reflexivity|].
  destruct (2147483647 / 2 <? needed + 0 + 1);
    [|apply Hdone; reflexivity].
  destruct (Z.leb_spec (needed + 0 + 1) 2147483647);
    [apply Hdone; reflexivity|lia].
Qed.

(** What [print_string_ptr] writes into the buffer [print] starts with. *)
Lemma print_string_ptr_fresh (s : list Z) (format : bool) :
  c_string s ->
  6 * Z.of_nat (List.length s) + 4 <= INT_MAX ->
  exists p',
    Printer.print_string_ptr (Some s)
      (Printer.mk_printbuffer [] 256 0 0 false format) = Some p' /\
    Printer.buffer p' = 34 :: concat (map Printer.escape_byte s) ++ [34; 0].
Proof.
  intros Hs Hmax. unfold Printer.print_string_ptr.
  rewrite (text_of_nonzero s (c_string_nonzero s Hs)).
  pose proof (escapes_sum_le s) as Hsum.
  destruct (ensure_fresh format
              (Z.of_nat (List.length s
                         + list_sum (map Printer.escape_cost s)) + 3))
    as (p1 & -> & Hbuf & Hoff); [lia|lia|].
  destruct (Nat.eqb_spec (list_sum (map Printer.escape_cost s)) 0)
    as [Hnone|_].
  - eexists. split; [reflexivity|]. unfold Printer.write.
    cbn [Printer.buffer Printer.set_buffer]. rewrite Hbuf, Hoff.
    rewrite (escapes_none s Hnone). reflexivity.
  - eexists. split; [reflexivity|]. unfold Printer.write.
    cbn [Printer.buffer Printer.set_buffer]. rewrite Hbuf, Hoff.
    reflexivity.
Qed.

Section WithHeader.
Context `{Header}.

(** Parsing a text that starts with what the printer writes for [s]. *)
Lemma parse_string_printed (s post : list Z) (item : cJSON)
    (b : Parser.parse_buffer) :
  c_string s ->
  Parser.content b
  = 34 :: concat (map Printer.escape_byte s) ++ 34 :: post ->
  Parser.offset b = 0%nat ->
  (List.length (concat (map Printer.escape_byte s)) + 2
   <= Parser.length b)%nat ->
  Parser.parse_string item b
  = Some (set_valuestring (Some s) (set_type cJSON_String item),
          Parser.set_offset
            (List.length (concat (map Printer.escape_byte s)) + 2) b).
Proof.
  intros Hs Hcontent Hoff Hlen.
  set (E := concat (map Printer.escape_byte s)) in *.
  assert (Hopen : byte_at (Parser.content b) 0 = 34)
    by (rewrite Hcontent; reflexivity).
  assert (Hquote : byte_at (Parser.content b) (1 + List.length E) = 34).
  { rewrite Hcontent.
    change (34 :: E ++ 34 :: post) with (([34] ++ E) ++ 34 :: post).
    replace (1 + List.length E)%nat with (List.length ([34] ++ E))
      by reflexivity.
    apply byte_at_middle. }
  pose proof (string_end_printed b post s Hs [34] (Parser.length b)) as Hend.
  pose proof (string_decode_printed (Parser.content b) (34 :: post)
                (1 + List.length E) s Hs [34] [] (Parser.length b)) as Hdec.
  fold E in Hend, Hdec. cbn [List.length app] in Hend, Hdec.
  pose proof (escaped_length_ge s Hs) as Hge. fold E in Hge.
  unfold Parser.parse_string, Parser.buffer_at_offset.
  rewrite Hoff. cbn [Nat.add]. rewrite Hopen. cbn [Z.eqb Pos.eqb negb].
  rewrite Hend by (assumption || lia).
  destruct (Nat.leb_spec (Parser.length b) (1 + List.length E)); [lia|].
  rewrite Hquote. cbn [Z.eqb Pos.eqb negb orb].
  rewrite Hdec by (assumption || reflexivity || lia).
  unfold Parser.as_c_string.
  rewrite (text_of_nonzero s (c_string_nonzero s Hs)).
  do 3 f_equal. lia.
Qed.

End WithHeader.

(** X20: [parse_hex4] reads back the four digits the printer writes
    with [%04x] for a 16-bit value, whatever follows them. *)
Theorem parse_hex4_reads_back (v : Z) (rest : list Z) :
  0 <= v < 65536 ->
  parse_hex4 (Printer.hex_char (v / 4096 mod 16)
              :: Printer.hex_char (v / 256 mod 16)
              :: Printer.hex_char (v / 16 mod 16)
              :: Printer.hex_char (v mod 16) :: rest) = v.
Proof. apply parse_hex4_digits. Qed.

Lemma parse_hex4_reads_back_witness :
  parse_hex4 (Printer.hex_char (43981 / 4096 mod 16)
              :: Printer.hex_char (43981 / 256 mod 16)
              :: Printer.hex_char (43981 / 16 mod 16)
              :: Printer.hex_char (43981 mod 16) :: [34; 0]) = 43981.
Proof. apply (parse_hex4_reads_back 43981 [34; 0]). lia. Defined.

Lemma escape_byte_printable (c : Z) :
  1 <= c < 256 -> Forall (fun b => 32 <= b < 256) (Printer.escape_byte c).
Proof.
  intros Hc.
  assert (Hhex : forall v, 0 <= v < 16 -> 32 <= Printer.hex_char v < 256).
  { intros v Hv. unfold Printer.hex_char. destruct (v <? 10); lia. }
  destruct (escape_byte_cases c Hc)
    as [(-> & _ & _ & Hhigh)|[(x & -> & Hx)|(Hlow & ->)]].
  - repeat constructor; lia.
  - repeat constructor; lia.
  - repeat constructor; try lia; apply Hhex, Z.mod_pos_bound; lia.
Qed.

(** X21: what [print_string_ptr] writes for a C string is a quote, a
    body, a quote and a nul, and the body has no byte below 32: control
    bytes are written as escapes only. *)
Theorem print_string_ptr_no_control_bytes (s : list Z) (format : bool) :
  c_string s ->
  6 * Z.of_nat (List.length s) + 4 <= INT_MAX ->
  exists p' body,
    Printer.print_string_ptr (Some s)
      (Printer.mk_printbuffer [] 256 0 0 false format) = Some p' /\
    Printer.buffer p' = 34 :: body ++ [34; 0] /\
    Forall (fun b => 32 <= b < 256) body.
Proof.
  intros Hs Hmax.
  destruct (print_string_ptr_fresh s format Hs Hmax) as (p' & Hrun & Hbuf).
  exists p', (concat (map Printer.escape_byte s)).
  split; [exact Hrun|]. split; [exact Hbuf|].
  clear Hmax Hrun Hbuf. induction Hs as [|c r Hc _ IH]; [constructor|].
  cbn [map concat]. apply Forall_app. split; [|exact IH].
  apply escape_byte_printable. exact Hc.
Qed.

Lemma print_string_ptr_no_control_bytes_witness :
  exists p' body,
    Printer.print_string_ptr (Some [97; 10; 34; 1; 200])
      (Printer.mk_printbuffer [] 256 0 0 false false) = Some p' /\
    Printer.buffer p' = 34 :: body ++ [34; 0] /\
    Forall (fun b => 32 <= b < 256) body.
Proof.
  apply (print_string_ptr_no_control_bytes [97; 10; 34; 1; 200] false).
  - repeat constructor; lia.
  - vm_compute. discriminate.
Defined.

Section RoundTrip.
Context `{Header}.

(** X22: the text [print_string_ptr] writes for a C string is parsed
    by [parse_string] into that string, with the kind set to string and
    the whole text consumed. *)
Theorem parse_string_of_printed_string (s : list Z) (item : cJSON)
    (format : bool) :
  c_string s ->
  6 * Z.of_nat (List.length s) + 4 <= INT_MAX ->
  exists p',
    Printer.print_string_ptr (Some s)
      (Printer.mk_printbuffer [] 256 0 0 false format) = Some p' /\
    let text := Printer.buffer p' in
    Parser.parse_string item
      (Parser.mk_parse_buffer text (strlen text + 1) 0 0)
    = Some (set_valuestring (Some s) (set_type cJSON_String item),
            Parser.mk_parse_buffer text (strlen text + 1) (strlen text) 0).
Proof.
  intros Hs Hmax.
  destruct (print_string_ptr_fresh s format Hs Hmax) as (p' & Hrun & Hbuf).
  exists p'. split; [exact Hrun|]. cbv zeta. rewrite Hbuf.
  set (E := concat (map Printer.escape_byte s)).
  assert (Hlen : strlen (34 :: E ++ [34; 0]) = (List.length E + 2)%nat).
  { unfold strlen.
    replace (34 :: E ++ [34; 0]) with ((34 :: E ++ [34]) ++ 0 :: [])
      by (cbn [app]; rewrite <- app_assoc; reflexivity).
    rewrite text_of_nul.
    - cbn [List.length]. rewrite length_app. cbn [List.length]. lia.
    - constructor; [discriminate|]. apply Forall_app. split.
      + apply escaped_nonzero. exact Hs.
      + repeat constructor. discriminate. }
  rewrite Hlen.
  rewrite (parse_string_printed s [0] item); [reflexivity|exact Hs|..].
  - reflexivity.
  - reflexivity.
  - cbn [Parser.length]. fold E. lia.
Qed.

End RoundTrip.

Lemma parse_string_of_printed_string_witness :
  exists p',
    Printer.print_string_ptr (Some [97; 10; 34; 1; 200])
      (Printer.mk_printbuffer [] 256 0 0 false false) = Some p' /\
    let text := Printer.buffer p' in
    @Parser.parse_string Release.header cJSON_New_Item
      (Parser.mk_parse_buffer text (strlen text + 1) 0 0)
    = Some (set_valuestring (Some [97; 10; 34; 1; 200])
              (set_type (@cJSON_String Release.header) cJSON_New_Item),
            Parser.mk_parse_buffer text (strlen text + 1) (strlen text) 0).
Proof.
  apply (@parse_string_of_printed_string Release.header
           [97; 10; 34; 1; 200] cJSON_New_Item false).
  - repeat constructor; lia.
  - vm_compute. discriminate.
Defined.

(** *** Escapes that decode to a nul byte *)

Lemma parse_hex4_prefix (h1 h2 h3 h4 : Z) (rest : list Z) :
  parse_hex4 (h1 :: h2 :: h3 :: h4 :: rest) = parse_hex4 [h1; h2; h3; h4].
Proof. reflexivity. Qed.

Lemma utf16_literal_zero (pre post : list Z) (h1 h2 h3 h4 : Z)
    (input_end : nat) :
  parse_hex4 [h1; h2; h3; h4] = 0 ->
  (List.length pre + 6 <= input_end)%nat ->
  Parser.utf16_literal_to_utf8
    (pre ++ 92 :: 117 :: h1 :: h2 :: h3 :: h4 :: post)
    (List.length pre) input_end
  = Some (6%nat, [0]).
Proof.
  intros Hzero Hend. unfold Parser.utf16_literal_to_utf8.
  destruct (Nat.ltb_spec (input_end - List.length pre) 6); [lia|].
  rewrite skipn_middle, parse_hex4_prefix, Hzero. reflexivity.
Qed.

(** The scan for the closing quote passes over printed bytes. *)
Lemma string_end_over (b : Parser.parse_buffer) (s : list Z) :
  c_string s ->
  forall pre post : list Z,
    Parser.content b = pre ++ concat (map Printer.escape_byte s) ++ post ->
    (List.length pre + List.length (concat (map Printer.escape_byte s))
     <= Parser.length b)%nat ->
    exists k,
      (k <= List.length (concat (map Printer.escape_byte s)))%nat /\
      forall fuel,
        Parser.string_end_loop (k + fuel) b (List.length pre)
        = Parser.string_end_loop fuel b
            (List.length pre
             + List.length (concat (map Printer.escape_byte s))).
Proof.
  induction 1 as [|c r Hc _ IH]; intros pre post Hcontent Hlen.
  - exists 0%nat. split; [cbn; lia|]. intros fuel.
    cbn [map concat List.length Nat.add]. rewrite Nat.add_0_r. reflexivity.
  - cbn [map concat] in *. rewrite length_app in Hlen |- *.
    rewrite <- app_assoc in Hcontent.
    destruct (string_end_chunk b pre _ c Hc Hcontent) as (k & Hk & Hrun);
      [lia|].
    destruct (IH (pre ++ Printer.escape_byte c) post) as (k' & Hk' & Hrun').
    { rewrite Hcontent, <- app_assoc. reflexivity. }
    { rewrite length_app. lia. }
    exists (k + k')%nat. split; [lia|]. intros fuel.
    rewrite <- Nat.add_assoc, Hrun.
    replace (List.length pre + List.length (Printer.escape_byte c))%nat
      with (List.length (pre ++ Printer.escape_byte c))
      by apply length_app.
    rewrite Hrun'. f_equal. rewrite length_app. lia.
Qed.

(** The decoder reads printed bytes back one input byte at a time. *)
Lemma string_decode_over (content post : list Z) (input_end : nat)
    (s : list Z) :
  c_string s ->
  forall (pre output : list Z) (fuel : nat),
    content = pre ++ concat (map Printer.escape_byte s) ++ post ->
    (List.length pre + List.length (concat (map Printer.escape_byte s))
     <= input_end)%nat ->
    Parser.string_decode_loop (List.length s + fuel) content
      (List.length pre) input_end output
    = Parser.string_decode_loop fuel content
        (List.length pre + List.length (concat (map Printer.escape_byte s)))
        input_end (output ++ s).
Proof.
  induction 1 as [|c r Hc _ IH]; intros pre output fuel Hcontent Hend.
  - cbn [map concat List.length Nat.add].
    rewrite Nat.add_0_r, app_nil_r. reflexivity.
  - cbn [map concat List.length] in *. rewrite length_app in Hend |- *.
    rewrite <- app_assoc in Hcontent. cbn [Nat.add].
    rewrite (string_decode_chunk content pre _ c input_end _ output
               Hc Hcontent) by lia.
    replace (List.length pre + List.length (Printer.escape_byte c))%nat
      with (List.length (pre ++ Printer.escape_byte c))
      by apply length_app.
    rewrite (IH (pre ++ Printer.escape_byte c) (output ++ [c]) fuel).
    + rewrite <- app_assoc. f_equal. rewrite length_app. lia.
    + rewrite Hcontent, <- app_assoc. reflexivity.
    + rewrite length_app. lia.
Qed.

Lemma string_end_u_escape (b : Parser.parse_buffer) (pre post : list Z)
    (h1 h2 h3 h4 : Z) (fuel : nat) :
  Parser.content b = pre ++ 92 :: 117 :: h1 :: h2 :: h3 :: h4 :: post ->
  Forall (fun h => h <> 34 /\ h <> 92) [h1; h2; h3; h4] ->
  (List.length pre + 6 <= Parser.length b)%nat ->
  Parser.string_end_loop (5 + fuel) b (List.length pre)
  = Parser.string_end_loop fuel b (List.length pre + 6).
Proof.
  intros Hcontent Hplain Hlen.
  apply Forall_cons in Hplain as [P1 Hplain].
  apply Forall_cons in Hplain as [P2 Hplain].
  apply Forall_cons in Hplain as [P3 Hplain].
  apply Forall_cons in Hplain as [P4 _].
  change (5 + fuel)%nat with (S (S (S (S (S fuel))))).
  rewrite (string_end_escape b pre (h1 :: h2 :: h3 :: h4 :: post) 117)
    by (assumption || lia).
  assert (Hstep : forall (q : list Z) (h : Z) (rest : list Z) (f : nat),
    pre ++ 92 :: 117 :: h1 :: h2 :: h3 :: h4 :: post = q ++ h :: rest ->
    h <> 34 -> h <> 92 ->
    (List.length q < Parser.length b)%nat ->
    Parser.string_end_loop (S f) b (List.length q)
    = Parser.string_end_loop f b (List.length q + 1)).
  { intros q h rest f Hq. apply (string_end_plain b q rest h f).
    rewrite Hcontent. exact Hq. }
  replace (List.length pre + 2)%nat
    with (List.length (pre ++ [92%Z; 117%Z]))
    by (rewrite length_app; reflexivity).
  rewrite (Hstep (pre ++ [92; 117]) h1 (h2 :: h3 :: h4 :: post));
    [|rewrite <- app_assoc; reflexivity|tauto|tauto
     |rewrite length_app; cbn [List.length]; lia].
  replace (List.length (pre ++ [92%Z; 117%Z]) + 1)%nat
    with (List.length (pre ++ [92%Z; 117%Z; h1]))
    by (rewrite !length_app; cbn [List.length]; lia).
  rewrite (Hstep (pre ++ [92; 117; h1]) h2 (h3 :: h4 :: post));
    [|rewrite <- app_assoc; reflexivity|tauto|tauto
     |rewrite length_app; cbn [List.length]; lia].
  replace (List.length (pre ++ [92%Z; 117%Z; h1]) + 1)%nat
    with (List.length (pre ++ [92%Z; 117%Z; h1; h2]))
    by (rewrite !length_app; cbn [List.length]; lia).
  rewrite (Hstep (pre ++ [92; 117; h1; h2]) h3 (h4 :: post));
    [|rewrite <- app_assoc; reflexivity|tauto|tauto
     |rewrite length_app; cbn [List.length]; lia].
  replace (List.length (pre ++ [92%Z; 117%Z; h1; h2]) + 1)%nat
    with (List.length (pre ++ [92%Z; 117%Z; h1; h2; h3]))
    by (rewrite !length_app; cbn [List.length]; lia).
  rewrite (Hstep (pre ++ [92; 117; h1; h2; h3]) h4 post);
    [|rewrite <- app_assoc; reflexivity|tauto|tauto
     |rewrite length_app; cbn [List.length]; lia].
  f_equal. rewrite length_app. cbn [List.length]. lia.
Qed.

Lemma string_decode_u_zero (content pre post : list Z) (h1 h2 h3 h4 : Z)
    (input_end fuel : nat) (output : list Z) :
  content = pre ++ 92 :: 117 :: h1 :: h2 :: h3 :: h4 :: post ->
  parse_hex4 [h1; h2; h3; h4] = 0 ->
  (List.length pre + 6 <= input_end)%nat ->
  Parser.string_decode_loop (S fuel) content (List.length pre) input_end
    output
  = Parser.string_decode_loop fuel content (List.length pre + 6) input_end
      (output ++ [0]).
Proof.
  intros -> Hzero Hend. cbn [Parser.string_decode_loop].
  destruct (Nat.ltb_spec (List.length pre) input_end); [|lia].
  cbn [negb]. rewrite byte_at_middle, byte_at_middle1.
  cbn [Z.eqb Pos.eqb negb orb].
  destruct (Nat.ltb_spec (input_end - List.length pre) 1); [lia|].
  rewrite (utf16_literal_zero pre post h1 h2 h3 h4 input_end Hzero Hend).
  reflexivity.
Qed.

Section NulEscape.
Context `{Header}.

(** X23: [parse_string] accepts an escape [\u] followed by four bytes
    for which [parse_hex4] returns 0, be it [0000] or bytes that are not
    hex digits, and decodes it as a nul byte: the string it stores ends
    there, while the whole literal is consumed. *)
Theorem parse_string_nul_escape (s1 s2 post : list Z) (h1 h2 h3 h4 : Z)
    (item : cJSON) (b : Parser.parse_buffer) :
  c_string s1 -> c_string s2 ->
  Forall (fun h => h <> 34 /\ h <> 92) [h1; h2; h3; h4] ->
  parse_hex4 [h1; h2; h3; h4] = 0 ->
  let E1 := concat (map Printer.escape_byte s1) in
  let E2 := concat (map Printer.escape_byte s2) in
  Parser.content b
  = 34 :: E1 ++ 92 :: 117 :: h1 :: h2 :: h3 :: h4 :: E2 ++ 34 :: post ->
  Parser.offset b = 0%nat ->
  (List.length E1 + 6 + List.length E2 + 2 <= Parser.length b)%nat ->
  Parser.parse_string item b
  = Some (set_valuestring (Some s1) (set_type cJSON_String item),
          Parser.set_offset (List.length E1 + 6 + List.length E2 + 2) b).
Proof.
  intros Hs1 Hs2 Hplain Hzero E1 E2 Hcontent Hoff Hlen.
  set (U := [92; 117; h1; h2; h3; h4]).
  assert (Hcontent1 : Parser.content b
                      = [34] ++ E1 ++ (U ++ E2 ++ 34 :: post))
    by exact Hcontent.
  assert (Hcontent2 : Parser.content b
                      = ([34] ++ E1) ++ 92 :: 117 :: h1 :: h2 :: h3 :: h4
                          :: (E2 ++ 34 :: post)).
  { rewrite Hcontent, <- app_assoc. reflexivity. }
  assert (Hcontent3 : Parser.content b
                      = (([34] ++ E1) ++ U) ++ E2 ++ 34 :: post).
  { rewrite Hcontent2, <- (app_assoc _ U). reflexivity. }
  assert (Hl2 : List.length ([34] ++ E1) = (1 + List.length E1)%nat)
    by reflexivity.
  assert (Hl3 : List.length (([34] ++ E1) ++ U) = (1 + List.length E1 + 6)%nat).
  { rewrite length_app, Hl2. reflexivity. }
  pose proof (escaped_length_ge s1 Hs1) as Hge1. fold E1 in Hge1.
  pose proof (escaped_length_ge s2 Hs2) as Hge2. fold E2 in Hge2.
  assert (Hopen : byte_at (Parser.content b) 0 = 34)
    by (rewrite Hcontent; reflexivity).
  assert (Hquote : byte_at (Parser.content b)
                     (1 + List.length E1 + 6 + List.length E2) = 34).
  { rewrite Hcontent3, app_assoc, <- Hl3, <- length_app.
    apply byte_at_middle. }
  (* the closing quote *)
  assert (Hend : Parser.string_end_loop (Parser.length b) b 1
                 = Some (1 + List.length E1 + 6 + List.length E2)%nat).
  { destruct (string_end_over b s1 Hs1 [34] _ Hcontent1) as (k1 & Hk1 & Hrun1).
    { fold E1. cbn [List.length]. lia. }
    fold E1 in Hk1, Hrun1. cbn [List.length] in Hrun1.
    replace (Parser.length b)
      with (k1 + (5 + (Parser.length b - k1 - 5)))%nat by lia.
    rewrite Hrun1, <- Hl2.
    rewrite (string_end_u_escape b _ _ h1 h2 h3 h4 _ Hcontent2 Hplain)
      by (rewrite Hl2; lia).
    replace (List.length ([34%Z] ++ E1) + 6)%nat
      with (List.length (([34] ++ E1) ++ U)) by (rewrite Hl3, Hl2; lia).
    rewrite (string_end_printed b post s2 Hs2 _ _ Hcontent3);
      fold E2; rewrite ?Hl3; [reflexivity|lia|lia]. }
  (* the decoded bytes *)
  assert (Hdec : Parser.string_decode_loop (Parser.length b)
                   (Parser.content b) 1
                   (1 + List.length E1 + 6 + List.length E2) []
                 = Some (s1 ++ 0 :: s2)).
  { replace (Parser.length b)
      with (List.length s1 + S (Parser.length b - List.length s1 - 1))%nat
      by lia.
    rewrite (string_decode_over (Parser.content b) _ _ s1 Hs1 [34] []
               _ Hcontent1) by (fold E1; cbn [List.length]; lia).
    fold E1. cbn [List.length app]. rewrite <- Hl2.
    rewrite (string_decode_u_zero (Parser.content b) _ _ h1 h2 h3 h4 _ _ _
               Hcontent2 Hzero) by (rewrite Hl2; lia).
    replace (List.length ([34%Z] ++ E1) + 6)%nat
      with (List.length (([34] ++ E1) ++ U)) by (rewrite Hl3, Hl2; lia).
    rewrite (string_decode_printed (Parser.content b) (34 :: post) _ s2 Hs2
               _ _ _ Hcontent3);
      fold E2; rewrite ?Hl3; [|reflexivity|lia].
    rewrite <- app_assoc. reflexivity. }
  unfold Parser.parse_string, Parser.buffer_at_offset.
  rewrite Hoff. cbn [Nat.add]. rewrite Hopen. cbn [Z.eqb Pos.eqb negb].
  rewrite Hend.
  destruct (Nat.leb_spec (Parser.length b)
              (1 + List.length E1 + 6 + List.length E2)); [lia|].
  rewrite Hquote. cbn [Z.eqb Pos.eqb negb orb].
  change (S (List.length E1 + 6 + List.length E2))
    with (1 + (List.length E1 + 6 + List.length E2))%nat in Hdec.
  replace (1 + List.length E1 + 6 + List.length E2)%nat
    with (S (List.length E1 + 6 + List.length E2)) in Hdec |- * by lia.
  rewrite Hdec. unfold Parser.as_c_string.
  rewrite (text_of_nul s1 s2 (c_string_nonzero s1 Hs1)).
  do 3 f_equal. lia.
Qed.

End NulEscape.

Lemma parse_string_nul_escape_witness :
  let E1 := concat (map Printer.escape_byte [97]) in
  let E2 := concat (map Printer.escape_byte [98]) in
  let b := Parser.mk_parse_buffer
             (34 :: E1 ++ 92 :: 117 :: 90 :: 90 :: 90 :: 90 :: E2 ++ 34 :: [0])
             11 0 0 in
  @Parser.parse_string Release.header cJSON_New_Item b
  = Some (set_valuestring (Some [97])
            (set_type (@cJSON_String Release.header) cJSON_New_Item),
          Parser.set_offset (List.length E1 + 6 + List.length E2 + 2) b).
Proof.
  apply (@parse_string_nul_escape Release.header [97] [98] [0] 90 90 90 90
           cJSON_New_Item).
  - repeat constructor; lia.
  - repeat constructor; lia.
  - repeat constructor; discriminate.
  - reflexivity.
  - reflexivity.
  - reflexivity.
  - cbn. lia.
Defined.

End StringFacts.

(** ** Buffers *)

Module BufferFacts.

Lemma ensure_hooks_default (p : Printer.printbuffer) (needed : Z) :
  Printer.ensure_hooks true p needed = Printer.ensure p needed.
Proof. reflexivity. Qed.

(** X24: when [ensure] succeeds, with or without a [reallocate] hook,
    there is room for the bytes asked for and a nul behind the write
    position; the bytes up to and including the one at the write
    position are kept, all of them when the hook is set; offset, depth
    and flags stay, and a buffer the caller supplied is never resized. *)
Theorem ensure_gives_room (has_reallocate : bool)
    (p p' : Printer.printbuffer) (needed : Z) :
  0 <= needed ->
  Printer.ensure_hooks has_reallocate p needed = Some p' ->
  Z.of_nat (Printer.offset p') + needed + 1 <= Printer.length p' /\
  firstn (Printer.offset p + 1) (Printer.buffer p')
  = firstn (Printer.offset p + 1) (Printer.buffer p) /\
  (has_reallocate = true -> Printer.buffer p' = Printer.buffer p) /\
  Printer.offset p' = Printer.offset p /\
  Printer.depth p' = Printer.depth p /\
  Printer.format p' = Printer.format p /\
  Printer.noalloc p' = Printer.noalloc p /\
  (Printer.noalloc p = true -> p' = p).
Proof.
  intros Hpos. unfold Printer.ensure_hooks.
  destruct ((0 <? Printer.length p)
            && (Printer.length p <=? Z.of_nat (Printer.offset p)));
    [discriminate|].
  destruct (Z.ltb_spec INT_MAX needed); [discriminate|].
  cbv zeta.
  destruct (Z.leb_spec (needed + Z.of_nat (Printer.offset p) + 1)
              (Printer.length p)) as [Hfit|Hgrow].
  { intros [= <-]. repeat split; auto. lia. }
  destruct (Printer.noalloc p) eqn:Hno; [discriminate|].
  assert (Hkept : forall newsize,
    firstn (Printer.offset p + 1)
      (Printer.buffer
         (Printer.set_length newsize
            (if has_reallocate then p
             else Printer.set_buffer
                    (firstn (Printer.offset p + 1) (Printer.buffer p)) p)))
    = firstn (Printer.offset p + 1) (Printer.buffer p) /\
    (has_reallocate = true ->
     Printer.buffer
       (Printer.set_length newsize
          (if has_reallocate then p
           else Printer.set_buffer
                  (firstn (Printer.offset p + 1) (Printer.buffer p)) p))
     = Printer.buffer p)).
  { intros newsize. destruct has_reallocate; cbn.
    - split; reflexivity.
    - split; [apply take_idemp|discriminate]. }
  assert (Hrest : forall newsize,
    let q := Printer.set_length newsize
               (if has_reallocate then p
                else Printer.set_buffer
                       (firstn (Printer.offset p + 1) (Printer.buffer p)) p) in
    Printer.length q = newsize /\ Printer.offset q = Printer.offset p /\
    Printer.depth q = Printer.depth p /\ Printer.format q = Printer.format p /\
    Printer.noalloc q = Printer.noalloc p).
  { intros newsize. destruct has_reallocate; cbn; auto. }
  destruct (Z.ltb_spec (INT_MAX / 2)
              (needed + Z.of_nat (Printer.offset p) + 1)) as [Hbig|Hsmall].
  - destruct (Z.leb_spec (needed + Z.of_nat (Printer.offset p) + 1) INT_MAX);
      [|discriminate].
    intros [= <-]. destruct (Hkept INT_MAX) as [Hk1 Hk2].
    destruct (Hrest INT_MAX) as (Hl & Ho & Hd & Hf & Hn).
    rewrite Hl, Ho, Hd, Hf, Hn.
    repeat split; auto; try lia; try congruence.
  - intros [= <-].
    destruct (Hkept ((needed + Z.of_nat (Printer.offset p) + 1) * 2))
      as [Hk1 Hk2].
    destruct (Hrest ((needed + Z.of_nat (Printer.offset p) + 1) * 2))
      as (Hl & Ho & Hd & Hf & Hn).
    rewrite Hl, Ho, Hd, Hf, Hn.
    repeat split; auto; try lia; try congruence.
Qed.

(** The theorem at a buffer holding [null] with the write position at
    its third byte, grown without a [reallocate] hook: three bytes are
    kept. *)
Lemma ensure_gives_room_witness :
  let p := Printer.mk_printbuffer [110; 117; 108; 108; 0] 5 2 0 false false in
  let p' := Printer.mk_printbuffer [110; 117; 108] 46 2 0 false false in
  Printer.ensure_hooks false p 20 = Some p' /\
  Z.of_nat (Printer.offset p') + 20 + 1 <= Printer.length p' /\
  firstn (Printer.offset p + 1) (Printer.buffer p')
  = firstn (Printer.offset p + 1) (Printer.buffer p) /\
  (false = true -> Printer.buffer p' = Printer.buffer p) /\
  Printer.offset p' = Printer.offset p /\
  Printer.depth p' = Printer.depth p /\
  Printer.format p' = Printer.format p /\
  Printer.noalloc p' = Printer.noalloc p /\
  (Printer.noalloc p = true -> p' = p).
Proof.
  intros p p'. split; [reflexivity|].
  apply (ensure_gives_room false p p' 20).
  - lia.
  - reflexivity.
Defined.

Lemma skip_whitespace_loop_spec (fuel : nat) :
  forall b : Parser.parse_buffer,
    (Parser.length b - Parser.offset b <= fuel)%nat ->
    let b' := Parser.skip_whitespace_loop fuel b in
    Parser.content b' = Parser.content b /\
    Parser.length b' = Parser.length b /\
    Parser.depth b' = Parser.depth b /\
    (Parser.offset b <= Parser.offset b')%nat /\
    ((Parser.offset b <= Parser.length b)%nat ->
     (Parser.offset b' <= Parser.length b)%nat) /\
    (forall i, (Parser.offset b <= i < Parser.offset b')%nat ->
               byte_at (Parser.content b) i <= 32) /\
    ((Parser.offset b' < Parser.length b)%nat ->
     32 < byte_at (Parser.content b) (Parser.offset b')).
Proof.
  induction fuel as [|fuel IH]; intros b Hfuel.
  - cbn. repeat split; try lia.
  - cbn [Parser.skip_whitespace_loop].
    unfold Parser.can_access_at_index, Parser.buffer_at_offset.
    rewrite !Nat.add_0_r.
    destruct (Nat.ltb_spec (Parser.offset b) (Parser.length b)) as [Hin|Hout];
      cbn [andb]; [|cbn; repeat split; lia].
    destruct (Z.leb_spec (byte_at (Parser.content b) (Parser.offset b)) 32)
      as [Hblank|Hstop]; [|cbn; repeat split; lia].
    specialize (IH (Parser.set_offset (Parser.offset b + 1) b)).
    cbn [Parser.set_offset Parser.content Parser.length Parser.offset
         Parser.depth] in IH.
    destruct IH as (H1 & H2 & H3 & H4 & H5 & H6 & H7); [lia|].
    cbv zeta. repeat split; try assumption; try lia.
    intros i Hi.
    destruct (Nat.eq_dec i (Parser.offset b)) as [->|Hne]; [exact Hblank|].
    apply H6. lia.
Qed.

(** X25: [buffer_skip_whitespace] moves the offset forward over bytes
    that are at most 32 and stays inside the buffer: it stops at the
    first byte above 32, or at the last byte when there is none. *)
Theorem buffer_skip_whitespace_stops (b : Parser.parse_buffer) :
  Parser.can_access_at_index b 0 = true ->
  let b' := Parser.buffer_skip_whitespace b in
  Parser.content b' = Parser.content b /\
  Parser.length b' = Parser.length b /\
  Parser.depth b' = Parser.depth b /\
  (Parser.offset b <= Parser.offset b' < Parser.length b)%nat /\
  (forall i, (Parser.offset b <= i < Parser.offset b')%nat ->
             byte_at (Parser.content b) i <= 32) /\
  (32 < byte_at (Parser.content b) (Parser.offset b') \/
   Parser.offset b' = (Parser.length b - 1)%nat).
Proof.
  intros Hcan. unfold Parser.buffer_skip_whitespace,
    Parser.cannot_access_at_index.
  rewrite Hcan. cbn [negb].
  unfold Parser.can_access_at_index in Hcan.
  apply Nat.ltb_lt in Hcan. rewrite Nat.add_0_r in Hcan.
  destruct (skip_whitespace_loop_spec (Parser.length b) b)
    as (H1 & H2 & H3 & H4 & H5 & H6 & H7); [lia|].
  set (b1 := Parser.skip_whitespace_loop (Parser.length b) b) in *.
  cbv zeta in *. specialize (H5 ltac:(lia)).
  destruct (Nat.eqb_spec (Parser.offset b1) (Parser.length b1)) as [Heq|Hne].
  - cbn [Parser.set_offset Parser.content Parser.length Parser.offset
         Parser.depth].
    repeat split; try assumption; try lia.
    intros i Hi. apply H6. lia.
  - repeat split; try assumption; lia.
Qed.

Lemma buffer_skip_whitespace_stops_witness :
  let b := Parser.mk_parse_buffer [32; 10; 9; 91; 0] 5 0 0 in
  let b' := Parser.buffer_skip_whitespace b in
  Parser.content b' = Parser.content b /\
  Parser.length b' = Parser.length b /\
  Parser.depth b' = Parser.depth b /\
  (Parser.offset b <= Parser.offset b' < Parser.length b)%nat /\
  (forall i, (Parser.offset b <= i < Parser.offset b')%nat ->
             byte_at (Parser.content b) i <= 32) /\
  (32 < byte_at (Parser.content b) (Parser.offset b') \/
   Parser.offset b' = (Parser.length b - 1)%nat).
Proof.
  apply (buffer_skip_whitespace_stops
           (Parser.mk_parse_buffer [32; 10; 9; 91; 0] 5 0 0)).
  reflexivity.
Defined.

End BufferFacts.

(** ** Deleting and replacing by index *)

Module IndexedFacts.
Import Store StoreFacts ListFacts AppendFacts DetachFacts IndexFacts.
Import DeleteFacts Samples.

Section WithHeader.
Context `{Header}.

(** X26: [cJSON_DeleteItemFromArray] takes the child at the position
    out of the children and releases it together with what
    [cJSON_Delete] owns below it; the other nodes outside the list are
    not written. *)
Theorem cJSON_DeleteItemFromArray_releases (h : heap) (array item : addr)
    (which : Z) (l fc : list addr) (ni : cJSON) :
  0 <= which ->
  sibling_list h array l -> (array ∉ l) ->
  l !! Z.to_nat which = Some item ->
  h !! item = Some ni -> owned h (owned_child ni) fc ->
  (item ∉ fc) -> (array ∉ fc) -> (forall x, x ∈ l -> x ∉ fc) ->
  exists h',
    cJSON_DeleteItemFromArray (Some array) which h = Some (tt, h') /\
    sibling_list h' array
      (take (Z.to_nat which) l ++ drop (S (Z.to_nat which)) l) /\
    (forall x, x ∈ item :: fc -> h' !! x = None) /\
    (forall a, a <> array -> (a ∉ l) -> (a ∉ fc) -> h' !! a = h !! a).
Proof.
  intros Hwhich Hlist Harr Hitem Hni Hown Hifc Hafc Hlfc.
  pose proof (take_drop_middle _ _ _ Hitem) as Hl.
  set (l1 := take (Z.to_nat which) l) in *.
  set (l2 := drop (S (Z.to_nat which)) l) in *.
  assert (Hnd : NoDup l).
  { destruct Hlist as (p & _ & Hseg). eapply dseg_NoDup. exact Hseg. }
  assert (Hget := get_array_item_list h array l (Z.to_nat which) Hlist).
  rewrite <- Hl in Hlist, Harr, Hnd, Hlfc.
  apply NoDup_middle in Hnd as (Hi1 & Hi2 & _).
  destruct (detach_list h array item l1 l2 Hlist Harr)
    as (h1 & ni' & Hrun & Hlist1 & Hni' & Hitem1 & Hframe).
  rewrite Hni in Hni'. injection Hni' as <-.
  destruct (delete_detached h h1 array item (l1 ++ l2) fc ni
              (set_next None (set_prev None ni)))
    as (h' & Hrun' & Hlist' & Hgone & Hkeep); try assumption.
  - reflexivity.
  - reflexivity.
  - intros x Hx. apply Hframe.
    + intros ->. contradiction.
    + intros Hin. exact (Hlfc x Hin Hx).
  - intros ->. apply Harr. apply elem_of_app. right. apply list_elem_of_here.
  - intros Hin. apply elem_of_app in Hin as [Hin|Hin]; contradiction.
  - intros x Hx. apply Hlfc. apply elem_of_app in Hx as [Hx|Hx];
      apply elem_of_app; [left|right; apply list_elem_of_further]; exact Hx.
  - exists h'. split; [|split; [exact Hlist'|split; [exact Hgone|]]].
    + unfold cJSON_DeleteItemFromArray, cJSON_DetachItemFromArray.
      assert (Hneg : (which <? 0) = false) by (apply Z.ltb_ge; exact Hwhich).
      rewrite Hneg. unfold bind at 1. unfold bind at 1.
      rewrite Hget, Hitem, Hrun. exact Hrun'.
    + intros a Ha1 Ha2 Ha3. rewrite Hkeep.
      * apply Hframe; [exact Ha1|]. rewrite Hl. exact Ha2.
      * intros ->. apply Ha2. rewrite <- Hl. apply elem_of_app. right.
        apply list_elem_of_here.
      * exact Ha3.
Qed.

(** X27: [cJSON_ReplaceItemInArray] puts the replacement at the
    position and releases the child that was there together with what
    [cJSON_Delete] owns below it. *)
Theorem cJSON_ReplaceItemInArray_replaces (h : heap) (array item r : addr)
    (which : Z) (l fc : list addr) (nr ni : cJSON) :
  0 <= which ->
  sibling_list h array l -> (array ∉ l) ->
  l !! Z.to_nat which = Some item ->
  r <> array -> (r ∉ l) -> h !! r = Some nr ->
  h !! item = Some ni -> owned h (owned_child ni) fc ->
  (item ∉ fc) -> (array ∉ fc) -> (r ∉ fc) -> (forall x, x ∈ l -> x ∉ fc) ->
  exists h',
    cJSON_ReplaceItemInArray (Some array) which (Some r) h
      = Some (true, h') /\
    sibling_list h' array (<[Z.to_nat which := r]> l) /\
    (forall x, x ∈ item :: fc -> h' !! x = None) /\
    (forall a, a <> array -> a <> r -> (a ∉ l) -> (a ∉ fc) ->
               h' !! a = h !! a).
Proof.
  intros Hwhich Hlist Harr Hitem Hra Hrl Hnr Hni Hown Hifc Hafc Hrfc Hlfc.
  pose proof (take_drop_middle _ _ _ Hitem) as Hl.
  assert (Hget := get_array_item_list h array l (Z.to_nat which) Hlist).
  assert (Hins : <[Z.to_nat which := r]> l
                 = take (Z.to_nat which) l ++ r :: drop (S (Z.to_nat which)) l).
  { apply insert_take_drop. apply lookup_lt_Some in Hitem. exact Hitem. }
  rewrite Hins.
  rewrite <- Hl in Hlist, Harr, Hrl, Hlfc.
  destruct (replace_list h array item r _ _ fc nr ni Hlist Harr Hra Hrl
              Hnr Hni Hown Hifc Hafc Hrfc Hlfc)
    as (h' & Hrun & Hlist' & Hgone & Hframe).
  exists h'. split; [|split; [exact Hlist'|split; [exact Hgone|]]].
  - unfold cJSON_ReplaceItemInArray.
    assert (Hneg : (which <? 0) = false) by (apply Z.ltb_ge; exact Hwhich).
    rewrite Hneg. unfold bind at 1. rewrite Hget, Hitem. exact Hrun.
  - intros a Ha1 Ha2 Ha3 Ha4. apply Hframe; try assumption.
    rewrite Hl. exact Ha3.
Qed.

(** X28: [cJSON_Delete] on a single node marked [cJSON_IsReference]
    releases that node only: what its [child] points to stays. *)
Theorem cJSON_Delete_reference_keeps_child (h : heap) (a : addr) (n : cJSON) :
  h !! a = Some n ->
  Z.land (type n) cJSON_IsReference <> 0 ->
  next n = None ->
  cJSON_Delete (Some a) h = Some (tt, delete a h).
Proof.
  intros Hn Href Hnext.
  assert (Hown : owned h (Some a) [a]).
  { apply (owned_node h a n [] []).
    - exact Hn.
    - unfold owned_child. destruct (Z.eqb_spec (Z.land (type n)
        cJSON_IsReference) 0); [contradiction|constructor].
    - rewrite Hnext. constructor.
    - apply not_elem_of_nil.
    - intros x Hx. apply elem_of_nil in Hx. contradiction. }
  destruct (cJSON_Delete_owned h (Some a) [a] Hown) as (h' & -> & Hh').
  do 2 f_equal. apply map_eq. intros x. rewrite Hh'.
  destruct (decide (x ∈ [a])) as [Hin|Hout].
  - apply list_elem_of_singleton in Hin. subst x.
    rewrite lookup_delete_eq. reflexivity.
  - rewrite lookup_delete_ne; [reflexivity|]. intros ->. apply Hout.
    apply list_elem_of_here.
Qed.

End WithHeader.

Lemma cJSON_Delete_reference_keeps_child_witness :
  @cJSON_Delete Release.header (Some 7%nat)
    (<[7%nat := set_type 288 (linked None None (Some 2%nat))]> three_children)
  = Some (tt, delete 7%nat
                (<[7%nat := set_type 288 (linked None None (Some 2%nat))]>
                   three_children)).
Proof.
  apply (@cJSON_Delete_reference_keeps_child Release.header
           (<[7%nat := set_type 288 (linked None None (Some 2%nat))]>
              three_children)
           7%nat (set_type 288 (linked None None (Some 2%nat)))).
  - reflexivity.
  - vm_compute. discriminate.
  - reflexivity.
Defined.

Lemma cJSON_DeleteItemFromArray_releases_witness :
  exists h',
    @cJSON_DeleteItemFromArray Release.header (Some 0%nat) 1 three_children
      = Some (tt, h') /\
    sibling_list h' 0%nat
      (take (Z.to_nat 1) [1; 2; 3] ++ drop (S (Z.to_nat 1)) [1; 2; 3])%nat /\
    (forall x, x ∈ [2; 5]%nat -> h' !! x = None) /\
    (forall a, a <> 0%nat -> (a ∉ [1; 2; 3]%nat) -> (a ∉ [5%nat]) ->
               h' !! a = three_children !! a).
Proof.
  apply (@cJSON_DeleteItemFromArray_releases Release.header three_children
           0%nat 2%nat 1 [1; 2; 3]%nat [5%nat]
           (linked (Some 1%nat) (Some 3%nat) (Some 5%nat))).
  - lia.
  - exact ChildrenFacts.three_children_list.
  - ChildrenFacts.decide_it.
  - reflexivity.
  - reflexivity.
  - exact ChildrenFacts.three_children_owned.
  - ChildrenFacts.decide_it.
  - ChildrenFacts.decide_it.
  - apply Forall_forall. ChildrenFacts.decide_it.
Defined.

Lemma cJSON_ReplaceItemInArray_replaces_witness :
  exists h',
    @cJSON_ReplaceItemInArray Release.header (Some 0%nat) 1 (Some 4%nat)
      three_children = Some (true, h') /\
    sibling_list h' 0%nat (<[Z.to_nat 1 := 4%nat]> [1; 2; 3]%nat) /\
    (forall x, x ∈ [2; 5]%nat -> h' !! x = None) /\
    (forall a, a <> 0%nat -> a <> 4%nat -> (a ∉ [1; 2; 3]%nat) ->
               (a ∉ [5%nat]) -> h' !! a = three_children !! a).
Proof.
  apply (@cJSON_ReplaceItemInArray_replaces Release.header three_children
           0%nat 2%nat 4%nat 1 [1; 2; 3]%nat [5%nat]
           (linked None None None)
           (linked (Some 1%nat) (Some 3%nat) (Some 5%nat))).
  - lia.
  - exact ChildrenFacts.three_children_list.
  - ChildrenFacts.decide_it.
  - reflexivity.
  - discriminate.
  - ChildrenFacts.decide_it.
  - reflexivity.
  - reflexivity.
  - exact ChildrenFacts.three_children_owned.
  - ChildrenFacts.decide_it.
  - ChildrenFacts.decide_it.
  - ChildrenFacts.decide_it.
  - apply Forall_forall. ChildrenFacts.decide_it.
Defined.

End IndexedFacts.

(** ** Keys compared without regard to case *)

Module KeyFacts.
Import Compare.

Lemma text_of_has_no_nul (a : list Z) : Forall (fun c => c <> 0) (text_of a).
Proof.
  induction a as [|c r IH]; [constructor|].
  cbn [text_of]. destruct (Z.eqb_spec c 0); [constructor|].
  constructor; assumption.
Qed.

Lemma tolower_c_nonzero (c : Z) : c <> 0 -> CLocale.tolower_c c <> 0.
Proof.
  intros Hc. unfold CLocale.tolower_c.
  destruct (Z.leb_spec 65 c); cbn [andb]; [|exact Hc].
  destruct (c <=? 90); lia.
Qed.

Lemma case_insensitive_eq_lowered (s1 : list Z) :
  forall s2 : list Z,
    Forall (fun c => c <> 0) s1 -> Forall (fun c => c <> 0) s2 ->
    (@case_insensitive_eq CLocale.libc s1 s2 = true <->
     map CLocale.tolower_c s1 = map CLocale.tolower_c s2).
Proof.
  induction s1 as [|c1 r1 IH]; intros [|c2 r2] H1 H2;
    cbn [case_insensitive_eq map].
  - tauto.
  - apply Forall_cons in H2 as [Hc2 _].
    pose proof (tolower_c_nonzero c2 Hc2) as Hlow.
    change (@tolower CLocale.libc) with CLocale.tolower_c.
    change (CLocale.tolower_c 0) with 0.
    split; [|discriminate]. intros Heq. apply Z.eqb_eq in Heq. congruence.
  - split; discriminate.
  - apply Forall_cons in H1 as [_ H1]. apply Forall_cons in H2 as [_ H2].
    change (@tolower CLocale.libc) with CLocale.tolower_c.
    rewrite andb_true_iff, Z.eqb_eq, (IH r2 H1 H2).
    split; [intros [-> ->]; reflexivity|intros [= -> ->]; auto].
Qed.

(** X29: in the C locale [case_insensitive_strcmp] finds two strings
    equal exactly when they are the same after upper-case ASCII letters
    are replaced by their lower-case ones. *)
Theorem case_insensitive_strcmp_folds_case (a b : list Z) :
  @case_insensitive_strcmp_eq CLocale.libc (Some a) (Some b) = true <->
  map CLocale.tolower_c (text_of a) = map CLocale.tolower_c (text_of b).
Proof.
  unfold case_insensitive_strcmp_eq.
  apply case_insensitive_eq_lowered; apply text_of_has_no_nul.
Qed.

End KeyFacts.

(** ** The nesting of parsed trees *)

Module DepthFacts.

Lemma skip_whitespace_loop_depth (fuel : nat) :
  forall b : Parser.parse_buffer,
    Parser.depth (Parser.skip_whitespace_loop fuel b) = Parser.depth b.
Proof.
  induction fuel as [|fuel IH]; intros b; [reflexivity|].
  cbn [Parser.skip_whitespace_loop].
  destruct (Parser.can_access_at_index b 0
            && (Parser.buffer_at_offset b 0 <=? 32)); [|reflexivity].
  rewrite IH. reflexivity.
Qed.

Lemma buffer_skip_whitespace_depth (b : Parser.parse_buffer) :
  Parser.depth (Parser.buffer_skip_whitespace b) = Parser.depth b.
Proof.
  unfold Parser.buffer_skip_whitespace.
  destruct (Parser.cannot_access_at_index b 0); [reflexivity|].
  destruct (_ =? _)%nat; cbn [Parser.set_offset Parser.depth];
    apply skip_whitespace_loop_depth.
Qed.

Section WithEnvironment.
Context `{Header} `{Libc}.

(** A node with children at most [bound] containers deep. *)
Lemma nesting_node (n : cJSON) (items : list tree) (bound : nat) :
  Forall (fun t => (Compare.nesting t <= bound)%nat) items ->
  (Compare.nesting (Tree n items) <= S bound)%nat.
Proof.
  intros Hall. cbn [Compare.nesting].
  assert (Hmax : (fold_right (fun c n => Nat.max (Compare.nesting c) n) O items
                  <= bound)%nat).
  { induction Hall as [|t r Ht _ IH]; cbn [fold_right]; lia. }
  destruct (_ || _); lia.
Qed.

(** A node without children whose kind is not a container. *)
Lemma nesting_leaf (n : cJSON) (k : Z) (i : nat) :
  kinds !! i = Some k -> type n = k -> i <> 5%nat -> i <> 6%nat ->
  Compare.nesting (Tree n []) = 0%nat.
Proof.
  intros Hi Hk H5 H6. cbn [Compare.nesting fold_right].
  rewrite Hk, (kind_low_byte i k Hi).
  rewrite (kind_eqb k cJSON_Array i 5 Hi eq_refl).
  rewrite (kind_eqb k cJSON_Object i 6 Hi eq_refl).
  destruct (Nat.eqb_spec i 5); [contradiction|].
  destruct (Nat.eqb_spec i 6); [contradiction|].
  reflexivity.
Qed.

Lemma parse_string_fields (item n : cJSON) (b b' : Parser.parse_buffer) :
  Parser.parse_string item b = Some (n, b') ->
  Parser.depth b' = Parser.depth b /\ type n = cJSON_String.
Proof.
  unfold Parser.parse_string. intros Heq.
  repeat case_match; simplify_eq. split; reflexivity.
Qed.

Lemma parse_number_depth (item n : cJSON) (b b' : Parser.parse_buffer) :
  Parser.parse_number item b = Some (n, b') ->
  Parser.depth b' = Parser.depth b /\ type n = cJSON_Number.
Proof.
  unfold Parser.parse_number. intros Heq.
  repeat case_match; simplify_eq. split; reflexivity.
Qed.

(** What is asked of the parser for the elements of a container whose
    buffer has depth [d]: its trees are at most [bound] containers deep
    and it gives the buffer back at depth [d]. *)
Definition element_parser_ok
    (pv : cJSON -> Parser.parse_buffer -> Parser.result) (d bound : nat)
  : Prop :=
  forall item b t b',
    Parser.depth b = d -> pv item b = Some (t, b') ->
    (Compare.nesting t <= bound)%nat /\ Parser.depth b' = d.

Lemma parse_array_loop_bound pv (d bound : nat) :
  element_parser_ok pv d bound ->
  forall (fuel : nat) (b : Parser.parse_buffer) (items items' : list tree)
         (b' : Parser.parse_buffer),
    Parser.depth b = d ->
    Forall (fun t => (Compare.nesting t <= bound)%nat) items ->
    Parser.parse_array_loop pv fuel b items = Some (items', b') ->
    Forall (fun t => (Compare.nesting t <= bound)%nat) items' /\
    Parser.depth b' = d.
Proof.
  intros Hpv. induction fuel as [|fuel IH];
    intros b items items' b' Hd Hitems Hrun; [discriminate|].
  cbn [Parser.parse_array_loop] in Hrun. cbv zeta in Hrun.
  destruct (pv cJSON_New_Item _) as [[t b2]|] eqn:Hel; [|discriminate].
  apply Hpv in Hel as [Ht Hd2].
  2:{ rewrite buffer_skip_whitespace_depth. exact Hd. }
  assert (Hitems' : Forall (fun t => (Compare.nesting t <= bound)%nat)
                      (items ++ [t])).
  { apply Forall_app. split; [exact Hitems|]. constructor; [exact Ht|].
    constructor. }
  assert (Hd3 : Parser.depth (Parser.buffer_skip_whitespace b2) = d).
  { rewrite buffer_skip_whitespace_depth. exact Hd2. }
  destruct (_ && _) in Hrun.
  - eapply IH; eassumption.
  - injection Hrun as <- <-. auto.
Qed.

Lemma parse_object_loop_bound pv (d bound : nat) :
  element_parser_ok pv d bound ->
  forall (fuel : nat) (b : Parser.parse_buffer) (items items' : list tree)
         (b' : Parser.parse_buffer),
    Parser.depth b = d ->
    Forall (fun t => (Compare.nesting t <= bound)%nat) items ->
    Parser.parse_object_loop pv fuel b items = Some (items', b') ->
    Forall (fun t => (Compare.nesting t <= bound)%nat) items' /\
    Parser.depth b' = d.
Proof.
  intros Hpv. induction fuel as [|fuel IH];
    intros b items items' b' Hd Hitems Hrun; [discriminate|].
  cbn [Parser.parse_object_loop] in Hrun. cbv zeta in Hrun.
  destruct (Parser.cannot_access_at_index b 1); [discriminate|].
  destruct (Parser.parse_string cJSON_New_Item _) as [[key b2]|] eqn:Hkey;
    [|discriminate].
  apply parse_string_fields in Hkey as [Hkey _].
  rewrite buffer_skip_whitespace_depth in Hkey. cbn in Hkey.
  destruct (_ || _) in Hrun; [discriminate|].
  destruct (pv _ _) as [[t b5]|] eqn:Hel; [|discriminate].
  apply Hpv in Hel as [Ht Hd5].
  2:{ rewrite buffer_skip_whitespace_depth. cbn.
      rewrite buffer_skip_whitespace_depth. congruence. }
  assert (Hitems' : Forall (fun t => (Compare.nesting t <= bound)%nat)
                      (items ++ [t])).
  { apply Forall_app. split; [exact Hitems|]. constructor; [exact Ht|].
    constructor. }
  assert (Hd6 : Parser.depth (Parser.buffer_skip_whitespace b5) = d).
  { rewrite buffer_skip_whitespace_depth. exact Hd5. }
  destruct (_ && _) in Hrun.
  - eapply IH; eassumption.
  - injection Hrun as <- <-. auto.
Qed.

(** [parse_array] refuses a buffer at the limit; below it, its tree is
    one container deeper than its elements. *)
Lemma parse_array_bound pv (item : cJSON) (b b' : Parser.parse_buffer)
    (t : tree) (bound : nat) :
  ((Parser.depth b < CJSON_NESTING_LIMIT)%nat ->
   element_parser_ok pv (Parser.depth b + 1) bound) ->
  Parser.parse_array pv item b = Some (t, b') ->
  (Compare.nesting t <= S bound)%nat /\ Parser.depth b' = Parser.depth b /\
  (Parser.depth b < CJSON_NESTING_LIMIT)%nat.
Proof.
  intros Hpv. unfold Parser.parse_array.
  destruct (Nat.leb_spec CJSON_NESTING_LIMIT (Parser.depth b)) as [|Hlim];
    [discriminate|].
  specialize (Hpv Hlim).
  cbv zeta. destruct (negb _); [discriminate|].
  set (b1 := Parser.buffer_skip_whitespace _).
  assert (Hd1 : Parser.depth b1 = (Parser.depth b + 1)%nat).
  { unfold b1. rewrite buffer_skip_whitespace_depth. reflexivity. }
  destruct (_ && _).
  { intros [= <- <-]. cbn [Parser.set_offset Parser.set_depth Parser.depth].
    split; [apply nesting_node; constructor|]. split; lia. }
  destruct (Parser.cannot_access_at_index b1 0); [discriminate|].
  destruct (Parser.parse_array_loop pv _ _ []) as [[items b2]|] eqn:Hloop;
    [|discriminate].
  apply (parse_array_loop_bound pv _ bound Hpv) in Hloop as [Hitems Hd2];
    [|exact Hd1|constructor].
  destruct (_ || _); [discriminate|].
  intros [= <- <-]. cbn [Parser.set_offset Parser.set_depth Parser.depth].
  split; [apply nesting_node; exact Hitems|]. split; lia.
Qed.

Lemma parse_object_bound pv (item : cJSON) (b b' : Parser.parse_buffer)
    (t : tree) (bound : nat) :
  ((Parser.depth b < CJSON_NESTING_LIMIT)%nat ->
   element_parser_ok pv (Parser.depth b + 1) bound) ->
  Parser.parse_object pv item b = Some (t, b') ->
  (Compare.nesting t <= S bound)%nat /\ Parser.depth b' = Parser.depth b /\
  (Parser.depth b < CJSON_NESTING_LIMIT)%nat.
Proof.
  intros Hpv. unfold Parser.parse_object.
  destruct (Nat.leb_spec CJSON_NESTING_LIMIT (Parser.depth b)) as [|Hlim];
    [discriminate|].
  specialize (Hpv Hlim).
  cbv zeta. destruct (_ || _); [discriminate|].
  set (b1 := Parser.buffer_skip_whitespace _).
  assert (Hd1 : Parser.depth b1 = (Parser.depth b + 1)%nat).
  { unfold b1. rewrite buffer_skip_whitespace_depth. reflexivity. }
  destruct (_ && _).
  { intros [= <- <-]. cbn [Parser.set_offset Parser.set_depth Parser.depth].
    split; [apply nesting_node; constructor|]. split; lia. }
  destruct (Parser.cannot_access_at_index b1 0); [discriminate|].
  destruct (Parser.parse_object_loop pv _ _ []) as [[items b2]|] eqn:Hloop;
    [|discriminate].
  apply (parse_object_loop_bound pv _ bound Hpv) in Hloop as [Hitems Hd2];
    [|exact Hd1|constructor].
  destruct (_ || _); [discriminate|].
  intros [= <- <-]. cbn [Parser.set_offset Parser.set_depth Parser.depth].
  split; [apply nesting_node; exact Hitems|]. split; lia.
Qed.

(** Whatever the fuel, the containers of a parsed tree and the depth
    the buffer came with stay within the limit together. *)
Lemma parse_value_nesting (fuel : nat) :
  forall (item : cJSON) (b b' : Parser.parse_buffer) (t : tree),
    (Parser.depth b <= CJSON_NESTING_LIMIT)%nat ->
    Parser.parse_value fuel item b = Some (t, b') ->
    (Compare.nesting t + Parser.depth b <= CJSON_NESTING_LIMIT)%nat /\
    Parser.depth b' = Parser.depth b.
Proof.
  induction fuel as [|fuel IH]; intros item b b' t Hdepth; [discriminate|].
  cbn [Parser.parse_value].
  assert (Hleaf : forall (n : cJSON) (b1 : Parser.parse_buffer) (k : Z)
                         (i : nat),
    kinds !! i = Some k -> type n = k -> i <> 5%nat -> i <> 6%nat ->
    Parser.depth b1 = Parser.depth b ->
    Some (Tree n [], b1) = Some (t, b') ->
    (Compare.nesting t + Parser.depth b <= CJSON_NESTING_LIMIT)%nat /\
    Parser.depth b' = Parser.depth b).
  { intros n b1 k i Hi Hk H5 H6 Hd [= <- <-].
    rewrite (nesting_leaf n k i Hi Hk H5 H6). split; [lia|exact Hd]. }
  assert (Hpv : (Parser.depth b < CJSON_NESTING_LIMIT)%nat ->
                element_parser_ok (Parser.parse_value fuel)
                  (Parser.depth b + 1)
                  (CJSON_NESTING_LIMIT - (Parser.depth b + 1))).
  { intros Hlim item1 b1 t1 b1' Hd Hrun. apply IH in Hrun as [Ht Hd'];
      [|lia]. rewrite Hd in Ht, Hd'. split; [lia|exact Hd']. }
  destruct (_ && _);
    [apply (Hleaf _ _ cJSON_NULL 2%nat); (reflexivity || lia)|].
  destruct (_ && _);
    [apply (Hleaf _ _ cJSON_False 0%nat); (reflexivity || lia)|].
  destruct (_ && _);
    [apply (Hleaf _ _ cJSON_True 1%nat); (reflexivity || lia)|].
  destruct (_ && _).
  { destruct (Parser.parse_string item b) as [[n b1]|] eqn:Hs;
      [|discriminate].
    apply parse_string_fields in Hs as [Hd Hk].
    apply (Hleaf _ _ cJSON_String 4%nat); (reflexivity || lia || assumption). }
  destruct (_ && _).
  { destruct (Parser.parse_number item b) as [[n b1]|] eqn:Hn;
      [|discriminate].
    apply parse_number_depth in Hn as [Hd Hk].
    apply (Hleaf _ _ cJSON_Number 3%nat); (reflexivity || lia || assumption). }
  destruct (_ && _).
  { intros Hrun. apply (parse_array_bound _ _ _ _ _ _ Hpv) in Hrun.
    destruct Hrun as (Ht & Hd & Hlim). split; [lia|exact Hd]. }
  destruct (_ && _); [|discriminate].
  intros Hrun. apply (parse_object_bound _ _ _ _ _ _ Hpv) in Hrun.
  destruct Hrun as (Ht & Hd & Hlim). split; [lia|exact Hd].
Qed.

(** X30: a parsed tree has at most [CJSON_NESTING_LIMIT] containers
    nested in one another.  This holds of [parse_value] for every
    amount of fuel, counted together with the depth its buffer comes
    with, and hence of the trees [cJSON_ParseWithLengthOpts] returns. *)
Theorem parsed_tree_nesting_bound :
  (forall (fuel : nat) (item : cJSON) (b b' : Parser.parse_buffer) (t : tree),
     (Parser.depth b <= CJSON_NESTING_LIMIT)%nat ->
     Parser.parse_value fuel item b = Some (t, b') ->
     (Compare.nesting t + Parser.depth b <= CJSON_NESTING_LIMIT)%nat) /\
  (forall (value : list Z) (buffer_length : nat)
          (require_null_terminated : bool) (t : tree),
     Parser.cJSON_ParseWithLengthOpts value buffer_length
       require_null_terminated = Some t ->
     (Compare.nesting t <= CJSON_NESTING_LIMIT)%nat).
Proof.
  split.
  - intros fuel item b b' t Hdepth Hrun.
    apply (parse_value_nesting fuel item b b' t Hdepth Hrun).
  - intros value buffer_length require_null_terminated t.
    unfold Parser.cJSON_ParseWithLengthOpts.
    destruct (buffer_length =? 0)%nat; [discriminate|].
    destruct (Parser.skip_utf8_bom _) as [b|] eqn:Hbom; [|discriminate].
    assert (Hd : Parser.depth b = 0%nat).
    { unfold Parser.skip_utf8_bom in Hbom.
      repeat case_match; simplify_eq; reflexivity. }
    destruct (Parser.parse_value _ _ _) as [[t' b']|] eqn:Hrun;
      [|discriminate].
    apply parse_value_nesting in Hrun as [Ht _].
    2:{ rewrite buffer_skip_whitespace_depth, Hd. lia. }
    rewrite buffer_skip_whitespace_depth, Hd, Nat.add_0_r in Ht.
    intros Hres. repeat case_match; simplify_eq; exact Ht.
Qed.

End WithEnvironment.

(** The bound at the text [[[]]] under the limit 1000 of release
    1.7.19: parsed from the start, parsed with the buffer already at
    depth 998, where the two arrays just fit, and at depth 999, where
    the inner array meets the limit and the parser, with fuel to spare,
    refuses the text. *)
Lemma parsed_tree_nesting_bound_witness :
  let text := [91; 91; 93; 93; 0] in
  let t := Tree (set_type 32 cJSON_New_Item)
             [Tree (set_type 32 cJSON_New_Item) []] in
  @Parser.cJSON_ParseWithLengthOpts Release.header CLocale.libc
    text 5 false = Some t /\
  (@Compare.nesting Release.header t
   <= @CJSON_NESTING_LIMIT Release.header)%nat /\
  @Parser.parse_value Release.header CLocale.libc 5 cJSON_New_Item
    (Parser.mk_parse_buffer text 5 0 998)
  = Some (t, Parser.mk_parse_buffer text 5 4 998) /\
  (@Compare.nesting Release.header t + 998
   <= @CJSON_NESTING_LIMIT Release.header)%nat /\
  @Parser.parse_value Release.header CLocale.libc 5 cJSON_New_Item
    (Parser.mk_parse_buffer text 5 0 999) = None.
Proof.
  intros text t.
  split; [vm_compute; reflexivity|].
  split.
  { apply (proj2 (@parsed_tree_nesting_bound Release.header CLocale.libc)
             text 5%nat false).
    vm_compute. reflexivity. }
  split; [vm_compute; reflexivity|].
  split; [|vm_compute; reflexivity].
  apply (proj1 (@parsed_tree_nesting_bound Release.header CLocale.libc)
           5%nat cJSON_New_Item (Parser.mk_parse_buffer text 5 0 998)
           (Parser.mk_parse_buffer text 5 4 998) t).
  - vm_compute. lia.
  - vm_compute. reflexivity.
Defined.

End DepthFacts.
